(** * Text Extractor: the selection-to-text extraction pipeline

    A shallow embedding of the extension's content scripts
    ([content/text-extractor.js], [content/selection-overlay.js]), of
    the OCR adapter ([lib/ocr-processor.js]) and of parts of the text and
    validation utilities and of the result popup ([popup/popup.js]), with
    the properties of the pipeline stated and proved over it.

    Conventions of the embedding:
    - JavaScript numbers are rationals ([Q]): every arithmetic operation
      the modelled code performs on them (sum, difference, halving,
      comparison, min and max) is exact there.
    - JavaScript strings are [string]s of one-byte code units; the white
      space of [String.prototype.trim] is restricted accordingly to the
      code units 9-13, 32 and 160.
    - Thrown values are [Error] objects, represented by their message.
    - The page (DOM geometry, image loading, the recognition engine) is an
      explicit environment the functions read; the mutable objects of the
      script ([results], [window.OCRProcessor], the overlay globals) are
      threaded as explicit state. *)

From Stdlib Require Import List Sorted Bool Arith ZArith QArith Qminmax Qround.
From Stdlib Require Import Ascii String Lia Lqa.
Import ListNotations.

Close Scope Q_scope.
Open Scope string_scope.
Open Scope list_scope.
Open Scope nat_scope.

(** String concatenation, JavaScript's [+] on strings. *)
Infix "+++" := String.append (right associativity, at level 60).

(* ================================================================== *)
(** ** JavaScript strings *)
(* ================================================================== *)

Module JsString.

Definition TAB : ascii := "009"%char.
Definition LF : ascii := "010"%char.
Definition CR : ascii := "013"%char.
Definition SP : ascii := " "%char.

(** White space and line terminators removed by [trim]. *)
Definition is_ws (c : ascii) : bool :=
  let n := nat_of_ascii c in
  ((9 <=? n) && (n <=? 13)) || (n =? 32) || (n =? 160).

Definition is_empty (s : string) : bool :=
  match s with EmptyString => true | String _ _ => false end.

(** Truthiness of a string: non-empty. *)
Definition truthy (s : string) : bool := negb (is_empty s).

Fixpoint trimStart (s : string) : string :=
  match s with
  | EmptyString => EmptyString
  | String c r => if is_ws c then trimStart r else s
  end.

Fixpoint trimEnd (s : string) : string :=
  match s with
  | EmptyString => EmptyString
  | String c r =>
      let r' := trimEnd r in
      if is_ws c && is_empty r' then EmptyString else String c r'
  end.

Definition trim (s : string) : string := trimEnd (trimStart s).

(** [n] copies of a character. *)
Fixpoint rep (c : ascii) (n : nat) : string :=
  match n with O => EmptyString | S m => String c (rep c m) end.

(** [Array.prototype.join]. *)
Fixpoint join (sep : string) (l : list string) : string :=
  match l with
  | [] => EmptyString
  | [x] => x
  | x :: rest => x +++ sep +++ join sep rest
  end.

(** What a pending run of [n] copies of [c] becomes under
    [replace(/c{k,}/g, repl)]. *)
Definition flush_run (c : ascii) (k : nat) (repl : string) (n : nat) : string :=
  if k <=? n then repl else rep c n.

(** [s.replace(/c{k,}/g, repl)] for [k >= 1]: a left-to-right scan that
    carries the length [run] of the run of [c] it is inside; the quantifier
    is greedy, so a run is replaced as a whole, once, when it ends. *)
Fixpoint replace_runs_from (c : ascii) (k : nat) (repl : string)
    (run : nat) (s : string) : string :=
  match s with
  | EmptyString => flush_run c k repl run
  | String d r =>
      if Ascii.eqb d c then replace_runs_from c k repl (S run) r
      else flush_run c k repl run +++ String d (replace_runs_from c k repl 0 r)
  end.

Definition replace_runs (c : ascii) (k : nat) (repl : string) (s : string) : string :=
  replace_runs_from c k repl 0 s.

(** [s.replace(/c/g, repl)]. *)
Fixpoint replace_char (c : ascii) (repl : string) (s : string) : string :=
  match s with
  | EmptyString => EmptyString
  | String d r =>
      if Ascii.eqb d c then repl +++ replace_char c repl r
      else String d (replace_char c repl r)
  end.

(** [s.replace(/\r\n/g, '\n')]. *)
Fixpoint replace_crlf (s : string) : string :=
  match s with
  | EmptyString => EmptyString
  | String c r =>
      match r with
      | String c2 r2 =>
          if Ascii.eqb c CR && Ascii.eqb c2 LF
          then String LF (replace_crlf r2)
          else String c (replace_crlf r)
      | EmptyString => String c EmptyString
      end
  end.

(** [s.includes(sub)]. *)
Fixpoint includes (sub s : string) : bool :=
  match s with
  | EmptyString => is_empty sub
  | String _ r => String.prefix sub s || includes sub r
  end.

(** [arr.includes(x)] on an array of strings. *)
Definition array_includes (x : string) (arr : list string) : bool :=
  existsb (String.eqb x) arr.

(** Number of leading copies of [c]. *)
Fixpoint leading (c : ascii) (s : string) : nat :=
  match s with
  | EmptyString => 0
  | String d r => if Ascii.eqb d c then S (leading c r) else 0
  end.

(** Is there a run of at least [n] consecutive copies of [c]? *)
Fixpoint has_run (c : ascii) (n : nat) (s : string) : bool :=
  match s with
  | EmptyString => n =? 0
  | String _ r => (n <=? leading c s) || has_run c n r
  end.

(** The string does not end with [c] (the empty string does not). *)
Fixpoint not_at_end (c : ascii) (s : string) : bool :=
  match s with
  | EmptyString => true
  | String d EmptyString => negb (Ascii.eqb d c)
  | String _ r => not_at_end c r
  end.

(** Does the character occur at all? *)
Fixpoint occurs (c : ascii) (s : string) : bool :=
  match s with
  | EmptyString => false
  | String d r => Ascii.eqb d c || occurs c r
  end.

(** The characters of [s] that satisfy [keep], in order. *)
Fixpoint sfilter (keep : ascii -> bool) (s : string) : string :=
  match s with
  | EmptyString => EmptyString
  | String d r => if keep d then String d (sfilter keep r) else sfilter keep r
  end.

Fixpoint sforall (p : ascii -> bool) (s : string) : bool :=
  match s with
  | EmptyString => true
  | String d r => p d && sforall p r
  end.

End JsString.
Import JsString.

(* ================================================================== *)
(** ** JavaScript values: numbers, thrown errors *)
(* ================================================================== *)

Definition Qltb (a b : Q) : bool := negb (Qle_bool b a).
Definition Qgtb (a b : Q) : bool := Qltb b a.

(** The outcome of a call that may throw (or of a promise that may
    reject): [Throw] carries the message of the [Error]. *)
Inductive result (A : Type) : Type :=
  | Ok (a : A)
  | Throw (message : string).
Arguments Ok {A} a.
Arguments Throw {A} message.

(** [s || dflt] on strings: the empty string and [undefined] are falsy. *)
Definition str_or (s : option string) (dflt : string) : string :=
  match s with
  | Some v => if truthy v then v else dflt
  | None => dflt
  end.

(** [n || dflt] on numbers: zero and [undefined] are falsy. *)
Definition num_or (n : option Q) (dflt : Q) : Q :=
  match n with
  | Some v => if Qeq_bool v 0 then dflt else v
  | None => dflt
  end.

(* ================================================================== *)
(** ** Geometry Engine: [detectImagesInSelection] *)
(* ================================================================== *)

(** The selection rectangle built by [handleMouseUp]. *)
Record SelectionData : Type := mkSelection {
  x : Q; y : Q; width : Q; height : Q;
  viewportX : Q; viewportY : Q; viewportWidth : Q; viewportHeight : Q
}.

(** An edge rectangle, as the object literals [selectionRect],
    [imageRect] and [elementRect]. *)
Record Rect : Type := mkRect { left : Q; top : Q; right : Q; bottom : Q }.

(** What [getBoundingClientRect] returns; [right] and [bottom] are
    derived, as in the browser. *)
Record DOMRect : Type := mkDOMRect {
  rect_left : Q; rect_top : Q; rect_width : Q; rect_height : Q
}.
Definition rect_right (r : DOMRect) : Q := (rect_left r + rect_width r)%Q.
Definition rect_bottom (r : DOMRect) : Q := (rect_top r + rect_height r)%Q.

Definition selectionRect (sel : SelectionData) : Rect :=
  {| left := viewportX sel;
     top := viewportY sel;
     right := (viewportX sel + viewportWidth sel)%Q;
     bottom := (viewportY sel + viewportHeight sel)%Q |}.

Definition edges (r : DOMRect) : Rect :=
  {| left := rect_left r;
     top := rect_top r;
     right := (rect_left r + rect_width r)%Q;
     bottom := (rect_top r + rect_height r)%Q |}.

(** The overlap test, written four times in the source. *)
Definition overlaps (a s : Rect) : bool :=
  negb (Qltb (right a) (left s)
        || Qgtb (left a) (right s)
        || Qltb (bottom a) (top s)
        || Qgtb (top a) (bottom s)).

Record Intersection : Type := mkIntersection {
  ix : Q; iy : Q; iwidth : Q; iheight : Q
}.

(** An [<img>] element of the page. *)
Record ImgElement : Type := mkImg {
  img_rect : DOMRect;
  img_src : string;
  img_currentSrc : string;
  img_alt : string;
  img_complete : bool;
  img_naturalWidth : Q;
  img_naturalHeight : Q;
  img_width : Q;
  img_height : Q
}.

(** An element returned by [document.elementsFromPoint].  [pe_bgUrl] is
    [urlMatch[1]] when the computed [backgroundImage] passes the guards
    of the source (non-empty, not ['none'], starts with ['url('] and
    matches the URL pattern with a non-empty capture), [None] otherwise. *)
Record PointElement : Type := mkPointElement {
  pe_rect : DOMRect;
  pe_isImg : option ImgElement;      (* the element itself, when its tag is IMG *)
  pe_bgUrl : option string;
  pe_innerText : string;
  pe_textContent : string
}.

Inductive ImageKind : Type := NativeImg | BackgroundImage.

(** An entry of the array [detectImagesInSelection] returns. *)
Record ImageInfo : Type := mkImageInfo {
  info_kind : ImageKind;
  info_element : option ImgElement;  (* the element, when it is an IMG *)
  info_src : string;
  info_alt : string;
  info_rect : DOMRect;
  intersection : Intersection;
  info_index : option nat
}.

(** The body of the [imgElements.forEach] callback: what it pushes.
    (Nothing in it throws here, so its [try] is left out; the same holds
    for the callback over the elements at the centre.) *)
Definition detect_img (s : Rect) (index : nat) (img : ImgElement) : list ImageInfo :=
  let rect := img_rect img in
  let imageRect := edges rect in
  if overlaps imageRect s then
    let intersectionLeft := Qmax (left s) (left imageRect) in
    let intersectionTop := Qmax (top s) (top imageRect) in
    let intersectionRight := Qmin (right s) (right imageRect) in
    let intersectionBottom := Qmin (bottom s) (bottom imageRect) in
    let intersectionWidth := (intersectionRight - intersectionLeft)%Q in
    let intersectionHeight := (intersectionBottom - intersectionTop)%Q in
    if Qgtb intersectionWidth 10 && Qgtb intersectionHeight 10 then
      [ {| info_kind := NativeImg;
           info_element := Some img;
           info_src := if truthy (img_src img) then img_src img else img_currentSrc img;
           info_alt := img_alt img;
           info_rect := rect;
           intersection := {| ix := intersectionLeft; iy := intersectionTop;
                              iwidth := intersectionWidth;
                              iheight := intersectionHeight |};
           info_index := Some index |} ]
    else []
  else [].

Fixpoint detect_imgs (s : Rect) (index : nat) (imgs : list ImgElement) : list ImageInfo :=
  match imgs with
  | [] => []
  | img :: rest => detect_img s index img ++ detect_imgs s (S index) rest
  end.

(** The body of the [allElements.forEach] callback: what it pushes. *)
Definition detect_background (s : Rect) (element : PointElement) : list ImageInfo :=
  match pe_bgUrl element with
  | Some url =>
      let rect := pe_rect element in
      let elementRect := edges rect in
      if overlaps elementRect s then
        [ {| info_kind := BackgroundImage;
             info_element := pe_isImg element;
             info_src := url;
             info_alt := "";
             info_rect := rect;
             intersection :=
               {| ix := Qmax (left s) (left elementRect);
                  iy := Qmax (top s) (top elementRect);
                  iwidth := (Qmin (right s) (right elementRect)
                             - Qmax (left s) (left elementRect))%Q;
                  iheight := (Qmin (bottom s) (bottom elementRect)
                              - Qmax (top s) (top elementRect))%Q |};
             info_index := None |} ]
      else []
  | None => []
  end.

(** A node of the tree below [document.body]; a text node carries the
    bounding rectangle of its range, an element its own. *)
#[warnings="-register-all"]
Inductive Node : Type :=
  | TextNode (rect : DOMRect) (textContent : string)
  | ElementNode (rect : DOMRect) (children : list Node).

(** The page at the time of the call. *)
Record Page : Type := mkPage {
  imgElements : list ImgElement;                    (* querySelectorAll('img') *)
  elementsFromPoint : Q -> Q -> list PointElement;
  body : list Node                                  (* children of document.body *)
}.

Definition centerX (sel : SelectionData) : Q := (viewportX sel + viewportWidth sel / 2)%Q.
Definition centerY (sel : SelectionData) : Q := (viewportY sel + viewportHeight sel / 2)%Q.

Definition detectImagesInSelection (page : Page) (selectionData : SelectionData)
  : list ImageInfo :=
  let s := selectionRect selectionData in
  detect_imgs s 0 (imgElements page)
  ++ flat_map (detect_background s)
       (elementsFromPoint page (centerX selectionData) (centerY selectionData)).

(* ================================================================== *)
(** ** Geometry Engine: [extractSelectableText] *)
(* ================================================================== *)

Inductive FilterResult : Type := FILTER_ACCEPT | FILTER_REJECT | FILTER_SKIP.

(** The [acceptNode] callback of the tree walker.  A [DOMRect] carries
    its own [right] and [bottom]. *)
Definition acceptNode (s : Rect) (node : Node) : FilterResult :=
  match node with
  | TextNode rect _ =>
      if Qgtb (rect_width rect) 0 && Qgtb (rect_height rect) 0 then
        if overlaps (mkRect (rect_left rect) (rect_top rect)
                            (rect_right rect) (rect_bottom rect)) s
        then FILTER_ACCEPT else FILTER_REJECT
      else FILTER_SKIP
  | ElementNode rect _ =>
      if overlaps (mkRect (rect_left rect) (rect_top rect)
                          (rect_right rect) (rect_bottom rect)) s
      then FILTER_ACCEPT else FILTER_SKIP
  end.

(** The nodes successive [walker.nextNode()] calls return inside the
    subtree of [node], in document order: an accepted node is returned and
    its children visited, a skipped node is not returned but its children
    are visited, a rejected node hides its whole subtree. *)
Fixpoint walk (s : Rect) (node : Node) : list Node :=
  let below :=
    match node with
    | TextNode _ _ => []
    | ElementNode _ children =>
        (fix walk_all (l : list Node) : list Node :=
           match l with
           | [] => []
           | c :: cs => walk s c ++ walk_all cs
           end) children
    end in
  match acceptNode s node with
  | FILTER_ACCEPT => node :: below
  | FILTER_SKIP => below
  | FILTER_REJECT => []
  end.

Definition walker_nodes (s : Rect) (page : Page) : list Node :=
  flat_map (walk s) (body page).

(** One turn of the [while (node = walker.nextNode())] loop. *)
Definition push_text_node (textElements : list string) (node : Node) : list string :=
  match node with
  | TextNode _ textContent =>
      let text := trim textContent in
      if truthy text then textElements ++ [text] else textElements
  | ElementNode _ _ => textElements
  end.

(** One turn of the [allElements.forEach] callback. *)
Definition push_point_element (s : Rect) (textElements : list string)
    (element : PointElement) : list string :=
  let rect := pe_rect element in
  if overlaps (mkRect (rect_left rect) (rect_top rect)
                      (rect_right rect) (rect_bottom rect)) s then
    let text := if truthy (pe_innerText element)
                then pe_innerText element else pe_textContent element in
    if truthy text && truthy (trim text) then
      if negb (array_includes (trim text) textElements)
      then textElements ++ [trim text]
      else textElements
    else textElements
  else textElements.

(** The array [textElements] when both loops are done. *)
Definition collectTextElements (page : Page) (selectionData : SelectionData)
  : list string :=
  let s := selectionRect selectionData in
  let fromWalker := fold_left push_text_node (walker_nodes s page) [] in
  fold_left (push_point_element s)
    (elementsFromPoint page (centerX selectionData) (centerY selectionData))
    fromWalker.

(** The normalisation of the joined text, statement by statement. *)
Definition normalizeSelectable (joined : string) : string :=
  let combinedText := joined in
  let combinedText := replace_runs LF 3 (rep LF 2) combinedText in
  let combinedText := replace_char TAB " " combinedText in
  let combinedText := replace_crlf combinedText in
  let combinedText := replace_char CR (String LF "") combinedText in
  trim combinedText.

Definition extractSelectableText (page : Page) (selectionData : SelectionData)
  : string :=
  normalizeSelectable (join (String LF "") (collectTextElements page selectionData)).

(* ================================================================== *)
(** ** OCR Engine Adapter: image preprocessing *)
(* ================================================================== *)

(** [Math.round]: the integer nearest to the argument, halves upward. *)
Definition Math_round (q : Q) : Z := Qfloor (q + (1 # 2))%Q.

(** A store into the [Uint8ClampedArray] of an [ImageData]: clamp to
    [0, 255], then round to the nearest integer, halves to even. *)
Definition toUint8Clamped (q : Q) : Z :=
  if Qle_bool q 0 then 0%Z
  else if Qle_bool 255 q then 255%Z
  else
    let f := Qfloor q in
    let d := (q - inject_Z f)%Q in
    if Qltb d (1 # 2) then f
    else if Qltb (1 # 2) d then (f + 1)%Z
    else if Z.even f then f else (f + 1)%Z.

(** [Math.round(0.299 * r + 0.587 * g + 0.114 * b)]. *)
Definition gray_value (r g b : Z) : Z :=
  Math_round ((299 # 1000) * inject_Z r + (587 # 1000) * inject_Z g
              + (114 # 1000) * inject_Z b)%Q.

(** [(data[i] + data[i + 1] + data[i + 2]) / 3]. *)
Definition channel_avg (r g b : Z) : Q :=
  ((inject_Z r + inject_Z g + inject_Z b) / 3)%Q.

(** [Math.min(255, Math.max(0, avg + (v - avg) * factor))], factor 1.2. *)
Definition contrast_value (avg : Q) (v : Z) : Q :=
  Qmin 255 (Qmax 0 (avg + (inject_Z v - avg) * (12 # 10)))%Q.

(** The three channels of one pixel after the grayscale step. *)
Definition grayscale_step (grayscale : bool) (p : Z * Z * Z) : Z * Z * Z :=
  let '(r, g, b) := p in
  if grayscale then
    let gray := toUint8Clamped (inject_Z (gray_value r g b)) in
    (gray, gray, gray)
  else (r, g, b).

(** The three channels of one pixel after the contrast step; the
    channels are overwritten one after the other, [avg] is read before. *)
Definition contrast_step (enhanceContrast : bool) (p : Z * Z * Z) : Z * Z * Z :=
  let '(d0, d1, d2) := p in
  if enhanceContrast then
    let avg := channel_avg d0 d1 d2 in
    (toUint8Clamped (contrast_value avg d0),
     toUint8Clamped (contrast_value avg d1),
     toUint8Clamped (contrast_value avg d2))
  else (d0, d1, d2).

(** The values the loop body hands to the array for one pixel, before
    the array converts them. *)
Definition pixel_writes (grayscale enhanceContrast : bool) (r g b : Z) : list Q :=
  (if grayscale then
     let gray := inject_Z (gray_value r g b) in [gray; gray; gray]
   else [])
  ++
  (if enhanceContrast then
     let '(d0, d1, d2) := grayscale_step grayscale (r, g, b) in
     let avg := channel_avg d0 d1 d2 in
     [contrast_value avg d0; contrast_value avg d1; contrast_value avg d2]
   else []).

(** The loop [for (let i = 0; i < data.length; i += 4)]; the alpha
    channel [data[i + 3]] is never written.  The length of the data of
    an [ImageData] is a multiple of four. *)
Fixpoint process_pixels (grayscale enhanceContrast : bool) (data : list Z) : list Z :=
  match data with
  | r :: g :: b :: a :: rest =>
      let '(r', g', b') :=
        contrast_step enhanceContrast (grayscale_step grayscale (r, g, b)) in
      r' :: g' :: b' :: a :: process_pixels grayscale enhanceContrast rest
  | _ => data
  end.

Record PreprocessOptions : Type := mkPreprocessOptions {
  maxWidth : option Q;
  maxHeight : option Q;
  grayscale : option bool;
  enhanceContrast : option bool
}.

Definition no_options : PreprocessOptions :=
  {| maxWidth := None; maxHeight := None; grayscale := None; enhanceContrast := None |}.

Definition opt_default {A : Type} (o : option A) (d : A) : A :=
  match o with Some v => v | None => d end.

Record Canvas : Type := mkCanvas {
  canvas_width : Z;
  canvas_height : Z;
  canvas_data : list Z
}.

(** What can be handed to the adapter as an image. *)
Inductive ImageSource : Type :=
  | SrcUrl (url : string)                          (* a string *)
  | SrcImage (element : ImgElement)                (* HTMLImageElement *)
  | SrcCanvas (label : string) (w h : Q)           (* HTMLCanvasElement *)
  | SrcImageData (w h : Q) (data : list Z)         (* ImageData *)
  | SrcOther.                                      (* any other object *)

(** [maxWidth / sourceWidth] as an operand of [Math.min]: a division by
    zero is [Infinity], which never is the minimum. *)
Definition min_ratio (acc maxDim sourceDim : Q) : Q :=
  if Qeq_bool sourceDim 0 then acc else Qmin acc (maxDim / sourceDim)%Q.

Section Preprocess.

(** The pixels [ctx.getImageData] reads back once the source is drawn
    on a canvas of the given size; reading a tainted canvas throws. *)
Variable getImageData : ImageSource -> Z -> Z -> result (list Z).

Definition sourceDimensions (imageSource : ImageSource) : result (Q * Q) :=
  match imageSource with
  | SrcImage el =>
      Ok (if Qeq_bool (img_naturalWidth el) 0 then img_width el else img_naturalWidth el,
          if Qeq_bool (img_naturalHeight el) 0 then img_height el else img_naturalHeight el)
  | SrcCanvas _ w h => Ok (w, h)
  | SrcImageData w h _ => Ok (w, h)
  | SrcUrl _ | SrcOther => Throw "Unsupported image source type"
  end.

Definition preprocessImage (imageSource : ImageSource) (options : PreprocessOptions)
  : result Canvas :=
  let maxWidth := opt_default (maxWidth options) 2000%Q in
  let maxHeight := opt_default (maxHeight options) 2000%Q in
  let grayscale := opt_default (grayscale options) true in
  let enhanceContrast := opt_default (enhanceContrast options) true in
  match sourceDimensions imageSource with
  | Throw e => Throw e
  | Ok (sourceWidth, sourceHeight) =>
      let scale := min_ratio (min_ratio 1 maxWidth sourceWidth) maxHeight sourceHeight in
      let cw := Math_round (sourceWidth * scale)%Q in
      let ch := Math_round (sourceHeight * scale)%Q in
      match getImageData imageSource cw ch with
      | Throw e => Throw e
      | Ok data =>
          Ok {| canvas_width := cw;
                canvas_height := ch;
                canvas_data :=
                  if grayscale || enhanceContrast
                  then process_pixels grayscale enhanceContrast data
                  else data |}
      end
  end.

End Preprocess.

(* ================================================================== *)
(** ** Stateful code: state and exceptions *)
(* ================================================================== *)

(** A computation over a mutable state [S] that returns or throws; the
    state reached when it throws is kept, as the mutations made before a
    JavaScript exception are. *)
Definition M (S A : Type) : Type := S -> result A * S.

Definition ret {S A : Type} (a : A) : M S A := fun s => (Ok a, s).

Definition bind {S A B : Type} (m : M S A) (k : A -> M S B) : M S B :=
  fun s =>
    match m s with
    | (Ok a, s') => k a s'
    | (Throw e, s') => (Throw e, s')
    end.

Definition throw {S A : Type} (message : string) : M S A :=
  fun s => (Throw message, s).

(** [try { body } catch (error) { handler }]. *)
Definition try_catch {S A : Type} (body : M S A) (handler : string -> M S A) : M S A :=
  fun s =>
    match body s with
    | (Ok a, s') => (Ok a, s')
    | (Throw e, s') => handler e s'
    end.

Definition get {S : Type} : M S S := fun s => (Ok s, s).
Definition modify {S : Type} (f : S -> S) : M S unit := fun s => (Ok tt, f s).
Definition lift_result {S A : Type} (r : result A) : M S A := fun s => (r, s).

Notation "x <- m ;; k" := (bind m (fun x => k))
  (at level 61, m at next level, right associativity).
Notation "m ;;; k" := (bind m (fun _ => k))
  (at level 61, right associativity).

(** [error.message || dflt] *)
Definition message_or (message dflt : string) : string :=
  if truthy message then message else dflt.

(* ================================================================== *)
(** ** OCR Engine Adapter: [OCRProcessor] *)
(* ================================================================== *)

(** The fields of the singleton that decide what a call does (the
    worker cache, warmed in the background, and the metrics are left out). *)
Record Processor : Type := mkProcessor {
  tesseract : bool;              (* [this.tesseract !== null] *)
  isInitialized : bool;
  currentLanguage : string
}.

Definition new_OCRProcessor : Processor :=
  {| tesseract := false; isInitialized := false; currentLanguage := "eng+spa+fra" |}.

(** Calls that reach outside the script, recorded for the statements
    about which of them happen. *)
Inductive Event : Type :=
  | LoadOCRScript
  | Initialize
  | LoadTesseractFromCDN
  | Recognize (lang : string).

(** The globals of the content script's window. *)
Record Window : Type := mkWindow {
  OCRProcessor : option Processor;     (* [window.OCRProcessor] *)
  Tesseract : bool;                    (* [typeof Tesseract !== 'undefined'] *)
  events : list Event
}.

Definition set_processor (p : Processor) (w : Window) : Window :=
  {| OCRProcessor := Some p; Tesseract := Tesseract w; events := events w |}.
Definition set_Tesseract (b : bool) (w : Window) : Window :=
  {| OCRProcessor := OCRProcessor w; Tesseract := b; events := events w |}.
Definition record_event (e : Event) (w : Window) : Window :=
  {| OCRProcessor := OCRProcessor w; Tesseract := Tesseract w;
     events := events w ++ [e] |}.

(** What the recognition engine hands back in [result.data]. *)
Record RecognizeData : Type := mkRecognizeData {
  data_text : option string;
  data_confidence : option Q
}.

(** The promise [Tesseract.recognize] returns: settled some milliseconds
    after the call, fulfilled with a result (whose [data] may be missing)
    or rejected, or never settled. *)
Inductive EngineRun : Type :=
  | Settles (after_ms : Z) (outcome : result (option RecognizeData))
  | Hangs.

Inductive ScriptLoad : Type :=
  | ScriptFails                        (* [script.onerror] *)
  | ScriptLoads (defines : bool).      (* [script.onload]; is the global defined then? *)

Inductive ImageLoad : Type :=
  | ImageLoads (img : ImgElement)      (* [img.onload] *)
  | ImageErrors                        (* [img.onerror], the event has no message *)
  | ImageStalls.                       (* neither within the 10 s *)

(** What the adapter passes to the engine. *)
Inductive Processed : Type :=
  | ProcessedCanvas (c : Canvas)
  | Unprocessed (src : ImageSource).

(** The world the adapter runs in. *)
Record Engine : Type := mkEngine {
  storedLanguage : option string;      (* [chrome.storage.local], key [ocrLanguage] *)
  cdn : ScriptLoad;                    (* the outcome of [loadTesseractFromCDN] *)
  loadImage : string -> ImageLoad;     (* [new Image()] with [src] set *)
  canvasImageData : ImageSource -> Z -> Z -> result (list Z);
  recognize : Processed -> string -> EngineRun;
  elapsed_before_recognize : option ImageSource -> Z
}.

(** What [extractText] returns ([words], [lines] and [paragraphs] are
    not modelled). *)
Record OcrResult : Type := mkOcrResult {
  text : string;
  confidence : Q;
  processingTime : Z;
  warning : option string
}.

Record ExtractOptions : Type := mkExtractOptions {
  opt_lang : option string;
  opt_preprocess : option bool;
  opt_preprocessOptions : option PreprocessOptions
}.

Definition default_options : ExtractOptions :=
  {| opt_lang := None; opt_preprocess := None; opt_preprocessOptions := None |}.

Definition ocrTimeout : Z := 30000.

(** [Promise.race([ocrPromise, timeoutPromise])]: the timer rejects
    [ocrTimeout] milliseconds after the call unless the engine has
    settled by then. *)
Definition race_timeout (run : EngineRun) : result (option RecognizeData) :=
  match run with
  | Settles after_ms outcome =>
      if (after_ms <=? ocrTimeout)%Z then outcome
      else Throw ("OCR processing timeout: exceeded " +++ "30000" +++ "ms")
  | Hangs => Throw ("OCR processing timeout: exceeded " +++ "30000" +++ "ms")
  end.

(** The message the [catch] block of [extractText] rethrows. *)
Definition friendly_message (message : string) : string :=
  let errorMessage := message_or message "OCR processing failed" in
  if includes "timeout" errorMessage then
    "OCR processing timed out. The image may be too large or complex."
  else if includes "load" errorMessage then
    "Failed to load image. The image may be corrupted or inaccessible."
  else if includes "language" errorMessage then
    "Invalid language code. Please select a valid language."
  else if includes "dimensions" errorMessage || includes "zero" errorMessage then
    "Invalid image: image has zero dimensions or failed to load."
  else errorMessage.

Section Adapter.

Variable engine : Engine.

(** The method is called on [window.OCRProcessor]. *)
Definition this : M Window Processor :=
  w <- get ;;
  match OCRProcessor w with
  | Some p => ret p
  | None => throw "Cannot read properties of undefined"
  end.

Definition loadLanguagePreference : M Window string :=
  p <- this ;;
  match storedLanguage engine with
  | Some l =>
      if truthy l then
        modify (set_processor {| tesseract := tesseract p;
                                 isInitialized := isInitialized p;
                                 currentLanguage := l |}) ;;;
        ret l
      else ret (currentLanguage p)
  | None => ret (currentLanguage p)
  end.

Definition loadTesseractFromCDN : M Window unit :=
  w <- get ;;
  if Tesseract w then ret tt
  else
    modify (record_event LoadTesseractFromCDN) ;;;
    match cdn engine with
    | ScriptFails => throw "Failed to load Tesseract.js from CDN"
    | ScriptLoads defines => modify (set_Tesseract defines)
    end.

Definition initialize (lang : option string) : M Window unit :=
  modify (record_event Initialize) ;;;
  try_catch
    (lang <- (if truthy (str_or lang "") then ret (str_or lang "")
              else
                l <- loadLanguagePreference ;;
                ret (if truthy l then l else "eng+spa+fra")) ;;
     w <- get ;;
     (if negb (Tesseract w) then loadTesseractFromCDN else ret tt) ;;;
     w <- get ;;
     if Tesseract w then
       modify (set_processor {| tesseract := true;
                                isInitialized := true;
                                currentLanguage := lang |})
     else throw "Tesseract is not defined")
    (fun message => throw ("Failed to initialize OCR: " +++ message)).

Definition isReady : M Window bool :=
  p <- this ;;
  ret (isInitialized p && tesseract p).

(** The preprocessing block of [extractText], with its own [catch]. *)
Definition preprocess_source (imageSource : ImageSource)
    (preprocessOptions : PreprocessOptions) : result Canvas :=
  let attempt : result Canvas :=
    match imageSource with
    | SrcUrl url =>
        match loadImage engine url with
        | ImageStalls => Throw "Image loading timeout"
        | ImageErrors => Throw ("Failed to load image: " +++ "Unknown error")
        | ImageLoads img =>
            if negb (img_complete img) || Qeq_bool (img_naturalWidth img) 0
               || Qeq_bool (img_naturalHeight img) 0
            then Throw "Invalid image: image failed to load or has zero dimensions"
            else preprocessImage (canvasImageData engine) (SrcImage img) preprocessOptions
        end
    | SrcImage el =>
        if negb (img_complete el) || Qeq_bool (img_naturalWidth el) 0
           || Qeq_bool (img_naturalHeight el) 0
        then Throw "Invalid image element: image not loaded or has zero dimensions"
        else preprocessImage (canvasImageData engine) imageSource preprocessOptions
    | SrcCanvas _ w h =>
        if Qeq_bool w 0 || Qeq_bool h 0
        then Throw "Invalid canvas: canvas has zero dimensions"
        else preprocessImage (canvasImageData engine) imageSource preprocessOptions
    | SrcImageData w h _ =>
        if Qeq_bool w 0 || Qeq_bool h 0
        then Throw "Invalid ImageData: ImageData has zero dimensions"
        else preprocessImage (canvasImageData engine) imageSource preprocessOptions
    | SrcOther => Throw ("Unsupported image source type: " +++ "object")
    end in
  match attempt with
  | Ok c => Ok c
  | Throw message => Throw ("Image preprocessing failed: " +++ message)
  end.

(** The block "Preprocess image if requested": what is handed to the
    engine. *)
Definition processedImage_of (imageSource : ImageSource) (shouldPreprocess : bool)
    (preprocessOptions : PreprocessOptions) : result Processed :=
  if shouldPreprocess then
    match preprocess_source imageSource preprocessOptions with
    | Ok c => Ok (ProcessedCanvas c)
    | Throw message => Throw message
    end
  else Ok (Unprocessed imageSource).

(** [extractText(imageSource, options)]; a falsy [imageSource] is [None]. *)
Definition extractText (imageSource : option ImageSource) (options : ExtractOptions)
  : M Window OcrResult :=
  p <- this ;;
  (if negb (isInitialized p)
   then initialize (Some (str_or (opt_lang options) (currentLanguage p)))
   else ret tt) ;;;
  p <- this ;;
  let lang := str_or (opt_lang options) (currentLanguage p) in
  let shouldPreprocess := opt_default (opt_preprocess options) true in
  let preprocessOptions := opt_default (opt_preprocessOptions options) no_options in
  try_catch
    (match imageSource with
     | None => throw "Invalid image source: image source is null or undefined"
     | Some src =>
         processedImage <-
           lift_result (processedImage_of src shouldPreprocess preprocessOptions) ;;
         (if negb (truthy lang) then throw ("Invalid language code: " +++ lang)
          else ret tt) ;;;
         w <- get ;;
         (if negb (Tesseract w) then throw "Tesseract is not defined" else ret tt) ;;;
         modify (record_event (Recognize lang)) ;;;
         let run := recognize engine processedImage lang in
         result <- lift_result (race_timeout run) ;;
         let processingTime :=
           match run with
           | Settles after_ms _ => (elapsed_before_recognize engine imageSource + after_ms)%Z
           | Hangs => 0%Z
           end in
         match result with
         | None => throw "Invalid OCR result: result data is missing"
         | Some data =>
             let extractedText := str_or (data_text data) "" in
             if negb (truthy (trim extractedText)) then
               ret {| text := "";
                      confidence := 0;
                      processingTime := processingTime;
                      warning := Some "No text found in image" |}
             else
               ret {| text := extractedText;
                      confidence := num_or (data_confidence data) 0;
                      processingTime := processingTime;
                      warning := None |}
         end
     end)
    (fun message => throw (friendly_message message)).

End Adapter.

(* ================================================================== *)
(** ** Extraction Aggregator: [extractTextFromSelection] *)
(* ================================================================== *)

(** An entry of [results.images]. *)
Record ImageAttempt : Type := mkImageAttempt {
  att_src : string;
  att_text : string;
  att_confidence : option Q;
  att_processingTime : option Z;
  att_warning : option string;
  att_error : option string
}.

(** An entry of [results.errors]: an object, or the string the outer
    [catch] pushes. *)
Inductive ErrorEntry : Type :=
  | ErrorObject (imageIndex : option nat) (src : option string)
                (error : string) (type : string)
  | ErrorString (message : string).

Record Results : Type := mkResults {
  selectableText : string;
  ocrText : string;
  combinedText : string;
  images : list ImageAttempt;
  errors : list ErrorEntry
}.

Definition empty_results : Results :=
  {| selectableText := ""; ocrText := ""; combinedText := "";
     images := []; errors := [] |}.

(** An entry of [imageDataArray]: [{image, info}], of [info] its [src]. *)
Record ImageEntry : Type := mkImageEntry {
  image : option ImageSource;
  entry_src : option string
}.

(** Everything outside the script that one extraction reads.  Every
    promise of the platform settles (an image or a script fires one of
    [load] and [error]); only the recognition engine may hang. *)
Record Env : Type := mkEnv {
  page : Page;
  engine : Engine;
  ocrScript : ScriptLoad;                       (* injecting lib/ocr-processor.js *)
  fetchImage : string -> option ImgElement;     (* [new Image()]: loaded, or error *)
  html2canvas : option (result ImageSource)     (* the helper, when it is defined *)
}.

(** The local object [results] and the globals. *)
Record ExtractState : Type := mkExtractState {
  results : Results;
  window : Window
}.

Definition liftW {A : Type} (m : M Window A) : M ExtractState A :=
  fun s =>
    let (r, w) := m (window s) in
    (r, {| results := results s; window := w |}).

Definition update_results (f : Results -> Results) : M ExtractState unit :=
  modify (fun s => {| results := f (results s); window := window s |}).

Definition push_error (e : ErrorEntry) : M ExtractState unit :=
  update_results (fun r =>
    {| selectableText := selectableText r; ocrText := ocrText r;
       combinedText := combinedText r; images := images r;
       errors := errors r ++ [e] |}).

Definition push_image (a : ImageAttempt) : M ExtractState unit :=
  update_results (fun r =>
    {| selectableText := selectableText r; ocrText := ocrText r;
       combinedText := combinedText r; images := images r ++ [a];
       errors := errors r |}).

Definition set_selectableText (t : string) : M ExtractState unit :=
  update_results (fun r =>
    {| selectableText := t; ocrText := ocrText r;
       combinedText := combinedText r; images := images r;
       errors := errors r |}).

Definition set_ocrText (t : string) : M ExtractState unit :=
  update_results (fun r =>
    {| selectableText := selectableText r; ocrText := t;
       combinedText := combinedText r; images := images r;
       errors := errors r |}).

Definition set_combinedText (t : string) : M ExtractState unit :=
  update_results (fun r =>
    {| selectableText := selectableText r; ocrText := ocrText r;
       combinedText := t; images := images r;
       errors := errors r |}).

Section Extractor.

Variable env : Env.

(** [getImageData(imageInfo)]: the image loaded anew or, when that
    fails and the element is an IMG, the element itself. *)
Definition getImageData (imageInfo : ImageInfo) : result ImageSource :=
  match fetchImage env (info_src imageInfo) with
  | Some img => Ok (SrcImage img)
  | None =>
      match info_element imageInfo with
      | Some element => Ok (SrcImage element)
      | None => Throw ("Failed to load image: " +++ info_src imageInfo)
      end
  end.

(** [captureSelectionAsImage]: a blank canvas of the size of the
    selection (the [width] of a canvas is an integer). *)
Definition captureSelectionAsImage (selectionData : SelectionData) : result ImageSource :=
  Ok (SrcCanvas "offscreen"
        (inject_Z (Qfloor (viewportWidth selectionData)))
        (inject_Z (Qfloor (viewportHeight selectionData)))).

Definition captureAreaWithCanvas (selectionData : SelectionData) : result ImageSource :=
  match html2canvas env with
  | Some (Ok canvas) => Ok canvas
  | Some (Throw _) => captureSelectionAsImage selectionData
  | None => captureSelectionAsImage selectionData
  end.

Definition extractImagesForOCR (selectionData : SelectionData) : list ImageEntry :=
  let detectedImages := detectImagesInSelection (page env) selectionData in
  let imageDataArray :=
    flat_map (fun imageInfo =>
                match getImageData imageInfo with
                | Ok imageData =>
                    [ {| image := Some imageData;
                         entry_src := Some (info_src imageInfo) |} ]
                | Throw _ => []
                end)
             detectedImages in
  match captureAreaWithCanvas selectionData with
  | Ok selectionCanvas =>
      imageDataArray ++ [ {| image := Some selectionCanvas; entry_src := None |} ]
  | Throw _ => imageDataArray
  end.

(** [loadOCRScript()]. *)
Definition loadOCRScript : M ExtractState unit :=
  s <- get ;;
  match OCRProcessor (window s) with
  | Some _ => ret tt
  | None =>
      liftW (modify (record_event LoadOCRScript)) ;;;
      match ocrScript env with
      | ScriptFails => throw "Failed to load OCR processor"
      | ScriptLoads true => liftW (modify (set_processor new_OCRProcessor))
      | ScriptLoads false => ret tt
      end
  end.

(** One turn of the loop over [imageDataArray], at index [i]; returns
    the array [ocrResults]. *)
Definition ocr_step (i : nat) (imageData : ImageEntry) (ocrResults : list string)
  : M ExtractState (list string) :=
  try_catch
    ((match image imageData with
      | None => throw "Image data is missing"
      | Some _ => ret tt
      end) ;;;
     ocrResult <- liftW (extractText (engine env) (image imageData) default_options) ;;
     if truthy (text ocrResult) && truthy (trim (text ocrResult)) then
       push_image {| att_src := str_or (entry_src imageData) "selection-area";
                     att_text := text ocrResult;
                     att_confidence := Some (confidence ocrResult);
                     att_processingTime := Some (processingTime ocrResult);
                     att_warning := None;
                     att_error := None |} ;;;
       ret (ocrResults ++ [text ocrResult])
     else
       push_image {| att_src := str_or (entry_src imageData) "selection-area";
                     att_text := "";
                     att_confidence := Some 0%Q;
                     att_processingTime := None;
                     att_warning := Some "No text detected in image";
                     att_error := None |} ;;;
       ret ocrResults)
    (fun message =>
       let errorMessage := message_or message "Unknown error" in
       push_error (ErrorObject (Some (i + 1))
                     (Some (str_or (entry_src imageData) "selection-area"))
                     errorMessage "ocr_failure") ;;;
       push_image {| att_src := str_or (entry_src imageData) "selection-area";
                     att_text := "";
                     att_confidence := None;
                     att_processingTime := None;
                     att_warning := None;
                     att_error := Some errorMessage |} ;;;
       ret ocrResults).

(** [for (let i = 0; i < imageDataArray.length; i++)], from index [i] on. *)
Fixpoint ocr_loop (i : nat) (imageDataArray : list ImageEntry) (ocrResults : list string)
  : M ExtractState (list string) :=
  match imageDataArray with
  | [] => ret ocrResults
  | imageData :: rest =>
      ocrResults' <- ocr_step i imageData ocrResults ;;
      ocr_loop (S i) rest ocrResults'
  end.

(** The text computed in step 3 of the function from the two texts. *)
Definition combine (selectable ocr : string) : string :=
  let textParts :=
    (if truthy selectable && truthy (trim selectable) then [trim selectable] else [])
    ++ (if truthy ocr && truthy (trim ocr) then [trim ocr] else []) in
  let combinedText := join (rep LF 2) textParts in
  let combinedText := replace_runs LF 4 (rep LF 3) combinedText in
  trim combinedText.

(** Step 2 of the function: the images of the selection and their OCR. *)
Definition ocr_stage (selectionData : SelectionData) : M ExtractState unit :=
  let detectedImages := detectImagesInSelection (page env) selectionData in
  if 0 <? List.length detectedImages then
    s <- get ;;
    (match OCRProcessor (window s) with
     | None => loadOCRScript
     | Some _ => ret tt
     end) ;;;
    s <- get ;;
    match OCRProcessor (window s) with
    | Some _ =>
        try_catch
          (liftW (initialize (engine env) None))
          (fun message =>
             push_error (ErrorObject None None
               ("Failed to initialize OCR processor: " +++ message_or message "Unknown error")
               "initialization_failure")) ;;;
        ready <- liftW isReady ;;
        if ready then
          (* the calls inside [extractImagesForOCR] catch their own
             failures, so the [catch] around it is never entered *)
          let imageDataArray := extractImagesForOCR selectionData in
          ocrResults <- ocr_loop 0 imageDataArray [] ;;
          if 0 <? List.length ocrResults
          then set_ocrText (join (rep LF 2) ocrResults)
          else ret tt
        else
          push_error (ErrorObject None None "OCR processor not ready" "processor_not_ready")
    | None =>
        push_error (ErrorObject None None
          "OCR processor not available. Tesseract.js may not be loaded."
          "processor_unavailable")
    end
  else ret tt.

(** Step 3 of the function, up to [return results]. *)
Definition merge_stage : M ExtractState Results :=
  s <- get ;;
  set_combinedText (combine (selectableText (results s)) (ocrText (results s))) ;;;
  s <- get ;;
  ret (results s).

(** The body of the outer [try]. *)
Definition extract_body (selectionData : SelectionData) : M ExtractState Results :=
  set_selectableText (extractSelectableText (page env) selectionData) ;;;
  ocr_stage selectionData ;;;
  merge_stage.

(** [extractTextFromSelection(selectionData)], with its outer [catch]:
    the call creates [results], and returns it or throws. *)
Definition extractTextFromSelection (selectionData : SelectionData) : M Window Results :=
  fun w =>
    let (r, s) :=
      try_catch
        (extract_body selectionData)
        (fun message =>
           push_error (ErrorString ("Extraction failed: " +++ message)) ;;;
           s <- get ;;
           ret (results s))
        {| results := empty_results; window := w |} in
    (r, window s).

End Extractor.

(* ================================================================== *)
(** ** Selection State Machine: [selection-overlay.js] *)
(* ================================================================== *)

(** The inline style of the selection box. *)
Record SelectionBox : Type := mkSelectionBox {
  style_left : Q; style_top : Q; style_width : Q; style_height : Q;
  style_display : bool
}.

(** The globals of the overlay script. *)
Record Overlay : Type := mkOverlay {
  isSelectionModeActive : bool;
  isSelecting : bool;
  startX : Q;
  startY : Q;
  selectionOverlay : bool;                 (* non-null, i.e. attached to the page *)
  selectionBox : option SelectionBox;
  loadingIndicator : bool
}.

(** The messages sent to the service worker. *)
Inductive Message : Type :=
  | TextExtractionComplete (data : Results) (selection : SelectionData)
  | SelectionComplete (data : SelectionData)
  | ExtractionError (error : string) (selection : SelectionData)
  | CancelSelection.

(** The tab: the overlay globals, the window the extractor shares, the
    messages sent so far, the calls of
    [window.TextExtractor.extractTextFromSelection] made so far, and the
    runs of [handleSelectionComplete] that are suspended at their [await],
    each with the selection it was called with. *)
Record Tab : Type := mkTab {
  overlay : Overlay;
  tab_window : Window;
  sent : list Message;
  extractCalls : list SelectionData;
  pending : list SelectionData
}.

Record MouseEvent : Type := mkMouseEvent {
  button : Z;
  clientX : Q;
  clientY : Q;
  onInteractive : bool   (* the target is, or is inside, an interactive element *)
}.

Definition set_overlay (o : Overlay) (t : Tab) : Tab :=
  {| overlay := o; tab_window := tab_window t; sent := sent t;
     extractCalls := extractCalls t; pending := pending t |}.

Definition sendMessage (m : Message) : M Tab unit :=
  modify (fun t => {| overlay := overlay t; tab_window := tab_window t;
                      sent := sent t ++ [m]; extractCalls := extractCalls t;
                      pending := pending t |}).

Definition removeSelectionOverlay : M Tab unit :=
  modify (fun t =>
    let o := overlay t in
    set_overlay {| isSelectionModeActive := isSelectionModeActive o;
                   isSelecting := isSelecting o;
                   startX := startX o; startY := startY o;
                   selectionOverlay := false;
                   selectionBox := None;
                   loadingIndicator := loadingIndicator o |} t).

Definition set_loadingIndicator (b : bool) : M Tab unit :=
  modify (fun t =>
    let o := overlay t in
    set_overlay {| isSelectionModeActive := isSelectionModeActive o;
                   isSelecting := isSelecting o;
                   startX := startX o; startY := startY o;
                   selectionOverlay := selectionOverlay o;
                   selectionBox := selectionBox o;
                   loadingIndicator := b |} t).

Definition set_isSelecting (b : bool) : M Tab unit :=
  modify (fun t =>
    let o := overlay t in
    set_overlay {| isSelectionModeActive := isSelectionModeActive o;
                   isSelecting := b;
                   startX := startX o; startY := startY o;
                   selectionOverlay := selectionOverlay o;
                   selectionBox := selectionBox o;
                   loadingIndicator := loadingIndicator o |} t).

Definition set_selectionBox (b : option SelectionBox) : M Tab unit :=
  modify (fun t =>
    let o := overlay t in
    set_overlay {| isSelectionModeActive := isSelectionModeActive o;
                   isSelecting := isSelecting o;
                   startX := startX o; startY := startY o;
                   selectionOverlay := selectionOverlay o;
                   selectionBox := b;
                   loadingIndicator := loadingIndicator o |} t).

(** [Math.abs]. *)
Definition Math_abs (q : Q) : Q := if Qltb q 0 then (- q)%Q else q.

(** [activateSelectionMode()], with [createSelectionOverlay()]: the
    overlay and its hidden box are created anew. *)
Definition activateSelectionMode : M Tab unit :=
  t <- get ;;
  if isSelectionModeActive (overlay t) then ret tt
  else
    modify (fun t =>
      let o := overlay t in
      set_overlay {| isSelectionModeActive := true;
                     isSelecting := isSelecting o;
                     startX := startX o; startY := startY o;
                     selectionOverlay := true;
                     selectionBox :=
                       Some {| style_left := 0; style_top := 0;
                               style_width := 0; style_height := 0;
                               style_display := false |};
                     loadingIndicator := loadingIndicator o |} t).

Section SelectionOverlay.

Variable env : Env.

(** Is [window.TextExtractor.extractTextFromSelection] a function? *)
Variable textExtractorLoaded : bool.

(** The layout: [selectionBox.getBoundingClientRect()], and the scroll
    offsets of the window. *)
Variable getBoundingClientRect : SelectionBox -> DOMRect.
Variable scrollX scrollY : Q.

(** [handleSelectionComplete] is an [async] function that
    [handleMouseUp] calls without awaiting it.  It runs inside the
    handler up to its [await]; the rest - the message to the service
    worker and the [finally] block that removes the overlay - runs when
    the promise of the extraction settles, and other events are handled in
    between. *)

(** The call [window.TextExtractor.extractTextFromSelection(selectionData)]:
    it is recorded, and the run is suspended at the [await]. *)
Definition start_extractTextFromSelection (selectionData : SelectionData) : M Tab unit :=
  modify (fun t => {| overlay := overlay t; tab_window := tab_window t; sent := sent t;
                      extractCalls := extractCalls t ++ [selectionData];
                      pending := pending t ++ [selectionData] |}).

(** What the [await] yields once the promise has settled.  The overlay
    script neither reads nor writes the globals of the adapter, so the
    extraction is taken to act on the window at this point; this is
    exactly what happens when no other extraction is in flight, and
    extractions in flight together are taken one after the other, in the
    order in which they settle. *)
Definition await_extractTextFromSelection (selectionData : SelectionData) : M Tab Results :=
  fun t =>
    let (r, w) := extractTextFromSelection env selectionData (tab_window t) in
    (r, {| overlay := overlay t; tab_window := w; sent := sent t;
           extractCalls := extractCalls t; pending := pending t |}).

(** [handleSelectionComplete(selectionData)], up to its [await]; without
    the extractor there is no [await], and the function runs to its end. *)
Definition handleSelectionComplete (selectionData : SelectionData) : M Tab unit :=
  set_loadingIndicator true ;;;
  if textExtractorLoaded then
    start_extractTextFromSelection selectionData
  else
    try_catch
      (sendMessage (SelectionComplete selectionData))
      (fun message => sendMessage (ExtractionError message selectionData)) ;;;
    (* finally *)
    set_loadingIndicator false ;;;
    removeSelectionOverlay.

(** [handleSelectionComplete(selectionData)], from its [await] on. *)
Definition handleSelectionComplete_resume (selectionData : SelectionData) : M Tab unit :=
  try_catch
    (extractedData <- await_extractTextFromSelection selectionData ;;
     sendMessage (TextExtractionComplete extractedData selectionData))
    (fun message => sendMessage (ExtractionError message selectionData)) ;;;
  (* finally *)
  set_loadingIndicator false ;;;
  removeSelectionOverlay.

(** The promise of the [n]-th extraction in flight settles: that run of
    [handleSelectionComplete] is resumed. *)
Definition extractionSettles (n : nat) : M Tab unit :=
  t <- get ;;
  match nth_error (pending t) n with
  | Some selectionData =>
      modify (fun t => {| overlay := overlay t; tab_window := tab_window t;
                          sent := sent t; extractCalls := extractCalls t;
                          pending := firstn n (pending t) ++ skipn (S n) (pending t) |}) ;;;
      handleSelectionComplete_resume selectionData
  | None => ret tt
  end.

(** The object literal [selectionData] of [handleMouseUp]. *)
Definition selectionData_of (rect : DOMRect) : SelectionData :=
  {| x := (rect_left rect + scrollX)%Q;
     y := (rect_top rect + scrollY)%Q;
     width := rect_width rect;
     height := rect_height rect;
     viewportX := rect_left rect;
     viewportY := rect_top rect;
     viewportWidth := rect_width rect;
     viewportHeight := rect_height rect |}.

Definition handleMouseDown (event : MouseEvent) : M Tab unit :=
  t <- get ;;
  if negb (isSelectionModeActive (overlay t)) || negb (button event =? 0)%Z then ret tt
  else if onInteractive event then ret tt
  else
    modify (fun t =>
      let o := overlay t in
      set_overlay {| isSelectionModeActive := isSelectionModeActive o;
                     isSelecting := true;
                     startX := clientX event; startY := clientY event;
                     selectionOverlay := selectionOverlay o;
                     selectionBox :=
                       match selectionBox o with
                       | Some _ =>
                           Some {| style_left := clientX event;
                                   style_top := clientY event;
                                   style_width := 0; style_height := 0;
                                   style_display := true |}
                       | None => None
                       end;
                     loadingIndicator := loadingIndicator o |} t).

Definition handleMouseMove (event : MouseEvent) : M Tab unit :=
  t <- get ;;
  let o := overlay t in
  match selectionBox o with
  | Some box =>
      if negb (isSelectionModeActive o) || negb (isSelecting o) then ret tt
      else
        set_selectionBox
          (Some {| style_left := Qmin (startX o) (clientX event);
                   style_top := Qmin (startY o) (clientY event);
                   style_width := Math_abs (clientX event - startX o)%Q;
                   style_height := Math_abs (clientY event - startY o)%Q;
                   style_display := style_display box |})
  | None => ret tt
  end.

Definition handleMouseUp (event : MouseEvent) : M Tab unit :=
  t <- get ;;
  if negb (isSelectionModeActive (overlay t)) || negb (isSelecting (overlay t)) then ret tt
  else
    set_isSelecting false ;;;
    match selectionBox (overlay t) with
    | Some box =>
        let rect := getBoundingClientRect box in
        let selectionData := selectionData_of rect in
        if Qgtb (width selectionData) 5 && Qgtb (height selectionData) 5
        then handleSelectionComplete selectionData
        else removeSelectionOverlay   (* cancel: too small *)
    | None => ret tt
    end.

End SelectionOverlay.

(* ================================================================== *)
(** ** Sample pages and environments *)
(* ================================================================== *)

Module Sample.

(** A recognition engine that finds ["ABC"] with confidence 92 in every
    image, 1.2 s after the call. *)
Definition engine_ABC : Engine :=
  {| storedLanguage := None;
     cdn := ScriptLoads true;
     loadImage := fun _ => ImageErrors;
     canvasImageData := fun _ _ _ => Ok [];
     recognize := fun _ _ =>
       Settles 1200 (Ok (Some {| data_text := Some "ABC";
                                 data_confidence := Some 92%Q |}));
     elapsed_before_recognize := fun _ => 30%Z |}.

(** A page whose only content is the paragraph "Hello world". *)
Definition page_hello : Page :=
  {| imgElements := [];
     elementsFromPoint := fun _ _ => [];
     body := [ElementNode (mkDOMRect 0 0 300 40)
                [TextNode (mkDOMRect 0 0 90 20) "Hello world"]] |}.

Definition env_hello : Env :=
  {| page := page_hello;
     engine := engine_ABC;
     ocrScript := ScriptLoads true;
     fetchImage := fun _ => None;
     html2canvas := None |}.

(** A window in which neither script has been loaded. *)
Definition fresh_window : Window :=
  {| OCRProcessor := None; Tesseract := false; events := [] |}.

(** A window with the adapter initialised. *)
Definition ready_window : Window :=
  {| OCRProcessor := Some {| tesseract := true; isInitialized := true;
                             currentLanguage := "eng+spa+fra" |};
     Tesseract := true;
     events := [] |}.

(** An image element of the given natural size, laid out at that size
    with its corner at [(l, t)]. *)
Definition img_at (src : string) (l t w h : Q) : ImgElement :=
  {| img_rect := mkDOMRect l t w h;
     img_src := src; img_currentSrc := src; img_alt := "";
     img_complete := true;
     img_naturalWidth := w; img_naturalHeight := h;
     img_width := w; img_height := h |}.

Definition img_A : ImgElement := img_at "a.png" 0 0 200 100.
Definition img_B : ImgElement := img_at "b.png" 0 100 50 50.
Definition img_C : ImgElement := img_at "c.png" 0 150 120 60.

(** A page with three images, one below the other, and no text. *)
Definition page_three_images : Page :=
  {| imgElements := [img_A; img_B; img_C];
     elementsFromPoint := fun _ _ => [];
     body := [] |}.

(** An engine that reads ["ABC"] in a raster 200 wide and ["DEF"] in one
    120 wide, never answers for a raster 50 wide, and finds nothing but
    a space in any other. *)
Definition engine_by_width : Engine :=
  {| storedLanguage := None;
     cdn := ScriptLoads true;
     loadImage := fun _ => ImageErrors;
     canvasImageData := fun _ _ _ => Ok [];
     recognize := fun processed _ =>
       match processed with
       | ProcessedCanvas c =>
           if (canvas_width c =? 200)%Z then
             Settles 1200 (Ok (Some {| data_text := Some "ABC";
                                       data_confidence := Some 92%Q |}))
           else if (canvas_width c =? 120)%Z then
             Settles 900 (Ok (Some {| data_text := Some "DEF";
                                      data_confidence := Some 80%Q |}))
           else if (canvas_width c =? 50)%Z then Hangs
           else Settles 400 (Ok (Some {| data_text := Some " ";
                                         data_confidence := Some 10%Q |}))
       | Unprocessed _ => Hangs
       end;
     elapsed_before_recognize := fun _ => 30%Z |}.

Definition env_three_images : Env :=
  {| page := page_three_images;
     engine := engine_by_width;
     ocrScript := ScriptLoads true;
     fetchImage := fun _ => None;
     html2canvas := None |}.

(** Is the point inside the rectangle? *)
Definition inside (r : DOMRect) (px py : Q) : bool :=
  Qle_bool (rect_left r) px && Qle_bool px (rect_right r)
  && Qle_bool (rect_top r) py && Qle_bool py (rect_bottom r).

(** A banner 100 by 100 with a CSS background image, and nothing else. *)
Definition banner : PointElement :=
  {| pe_rect := mkDOMRect 0 0 100 100;
     pe_isImg := None;
     pe_bgUrl := Some "bg.png";
     pe_innerText := "";
     pe_textContent := "" |}.

Definition page_banner : Page :=
  {| imgElements := [];
     elementsFromPoint := fun px py =>
       if inside (pe_rect banner) px py then [banner] else [];
     body := [] |}.

(** A layout in which the box is rendered as its inline style says. *)
Definition layout_of_style (box : SelectionBox) : DOMRect :=
  mkDOMRect (style_left box) (style_top box) (style_width box) (style_height box).

(** A tab in which nothing has happened yet. *)
Definition fresh_tab : Tab :=
  {| overlay := {| isSelectionModeActive := false; isSelecting := false;
                   startX := 0; startY := 0;
                   selectionOverlay := false; selectionBox := None;
                   loadingIndicator := false |};
     tab_window := fresh_window;
     sent := [];
     extractCalls := [];
     pending := [] |}.

(** The state during a drag from [(x0, y0)] to [(x1, y1)], from a
    fresh tab: activation, button down, pointer moved. *)
Definition dragging (x0 y0 x1 y1 : Q) : Tab :=
  let run (m : M Tab unit) (t : Tab) : Tab := snd (m t) in
  let down := {| button := 0; clientX := x0; clientY := y0; onInteractive := false |} in
  let move := {| button := 0; clientX := x1; clientY := y1; onInteractive := false |} in
  run (handleMouseMove move)
    (run (handleMouseDown down)
       (run activateSelectionMode fresh_tab)).

Definition release (x1 y1 : Q) : MouseEvent :=
  {| button := 0; clientX := x1; clientY := y1; onInteractive := false |}.

(** The state after the button is released there, with the extractor
    loaded and the page not scrolled. *)
Definition drag (x0 y0 x1 y1 : Q) : Tab :=
  snd (handleMouseUp true layout_of_style 0 0 (release x1 y1)
         (dragging x0 y0 x1 y1)).

(** A paragraph whose two lines are separated by four Windows line
    breaks. *)
Definition crlf : string := String CR (String LF "").

Definition page_crlf : Page :=
  {| imgElements := [];
     elementsFromPoint := fun _ _ => [];
     body := [TextNode (mkDOMRect 0 0 100 80)
                ("a" +++ crlf +++ crlf +++ crlf +++ crlf +++ "b")] |}.

(** Two paragraphs with the same text. *)
Definition page_twice : Page :=
  {| imgElements := [];
     elementsFromPoint := fun _ _ => [];
     body := [ElementNode (mkDOMRect 0 0 100 20) [TextNode (mkDOMRect 0 0 30 20) "Hi"];
              ElementNode (mkDOMRect 0 20 100 20) [TextNode (mkDOMRect 0 20 30 20) " Hi "]] |}.

Definition selection (vx vy w h : Q) : SelectionData :=
  {| x := vx; y := vy; width := w; height := h;
     viewportX := vx; viewportY := vy; viewportWidth := w; viewportHeight := h |}.

(** An element 100 by 100 at the origin with a CSS background image. *)
Definition backdrop (url : string) : PointElement :=
  {| pe_rect := mkDOMRect 0 0 100 100;
     pe_isImg := None;
     pe_bgUrl := Some url;
     pe_innerText := "";
     pe_textContent := "" |}.

(** Two such elements, one above the other; the image of the first
    cannot be loaded, that of the second is 50 wide, a width for which
    [engine_by_width] never answers. *)
Definition page_two_backdrops : Page :=
  {| imgElements := [];
     elementsFromPoint := fun _ _ => [backdrop "gone.png"; backdrop "slow.png"];
     body := [] |}.

Definition env_two_backdrops : Env :=
  {| page := page_two_backdrops;
     engine := engine_by_width;
     ocrScript := ScriptLoads true;
     fetchImage := fun src =>
       if String.eqb src "slow.png" then Some (img_at "slow.png" 0 0 50 50) else None;
     html2canvas := None |}.

(** A page with nested elements: the texts A, B, C, D follow each other
    in the document; E lies outside a selection of the top 100 pixels, and
    the box of F has no height. *)
Definition page_nested : Page :=
  {| imgElements := [];
     elementsFromPoint := fun _ _ => [];
     body := [ElementNode (mkDOMRect 0 0 300 60)
                [TextNode (mkDOMRect 0 0 20 20) "A";
                 ElementNode (mkDOMRect 20 0 40 20)
                   [TextNode (mkDOMRect 20 0 20 20) " B "];
                 TextNode (mkDOMRect 0 20 20 20) "C"];
              ElementNode (mkDOMRect 0 500 300 20)
                [TextNode (mkDOMRect 0 500 20 20) "E"];
              ElementNode (mkDOMRect 0 60 300 20)
                [TextNode (mkDOMRect 0 60 20 0) "F";
                 TextNode (mkDOMRect 0 60 20 20) "D"]] |}.

(** An engine that reads two words five newlines apart in every image. *)
Definition engine_far_apart : Engine :=
  {| storedLanguage := None;
     cdn := ScriptLoads true;
     loadImage := fun _ => ImageErrors;
     canvasImageData := fun _ _ _ => Ok [];
     recognize := fun _ _ =>
       Settles 1200 (Ok (Some {| data_text := Some ("ABC" +++ rep LF 5 +++ "DEF");
                                 data_confidence := Some 92%Q |}));
     elapsed_before_recognize := fun _ => 30%Z |}.

End Sample.

(* ================================================================== *)
(** ** Notions used in the statements *)
(* ================================================================== *)

(** A computation leaves the part [f] of the state as it found it,
    whether it returns or throws. *)
Definition frames {S X A : Type} (f : S -> X) (m : M S A) : Prop :=
  forall s r s', m s = (r, s') -> f s' = f s.

(** The source identifier of an entry, [imageData.info.src || 'selection-area']. *)
Definition entry_label (e : ImageEntry) : string :=
  str_or (entry_src e) "selection-area".

(** What the adapter answers for one entry when it is the only one
    processed, in window [w]. *)
Definition ocr_alone (env : Env) (w : Window) (e : ImageEntry) : result OcrResult :=
  match image e with
  | None => Throw "Image data is missing"
  | Some _ => fst (extractText (engine env) (image e) default_options w)
  end.

Definition has_text (r : OcrResult) : bool :=
  truthy (text r) && truthy (trim (text r)).

(** The entry of [images] that records an outcome: success,
    empty-with-warning, or failure. *)
Definition attempt_of (e : ImageEntry) (o : result OcrResult) : ImageAttempt :=
  match o with
  | Ok r =>
      if has_text r then
        {| att_src := entry_label e; att_text := text r;
           att_confidence := Some (confidence r);
           att_processingTime := Some (processingTime r);
           att_warning := None; att_error := None |}
      else
        {| att_src := entry_label e; att_text := "";
           att_confidence := Some 0%Q; att_processingTime := None;
           att_warning := Some "No text detected in image"; att_error := None |}
  | Throw message =>
      {| att_src := entry_label e; att_text := "";
         att_confidence := None; att_processingTime := None;
         att_warning := None;
         att_error := Some (message_or message "Unknown error") |}
  end.

(** The entry of [errors] that records the failure of the [n]-th image,
    counted from one; nothing for the other outcomes. *)
Definition failure_of (n : nat) (e : ImageEntry) (o : result OcrResult) : list ErrorEntry :=
  match o with
  | Ok _ => []
  | Throw message =>
      [ErrorObject (Some n) (Some (entry_label e))
         (message_or message "Unknown error") "ocr_failure"]
  end.

(** The text an outcome contributes to [ocrText]. *)
Definition text_of (o : result OcrResult) : list string :=
  match o with
  | Ok r => if has_text r then [text r] else []
  | Throw _ => []
  end.

(** The failures of the entries of [l], the first of which has index [i]
    (counted from zero) in [imageDataArray]. *)
Fixpoint failures_from (env : Env) (w : Window) (i : nat) (l : list ImageEntry)
  : list ErrorEntry :=
  match l with
  | [] => []
  | e :: rest => failure_of (i + 1) e (ocr_alone env w e) ++ failures_from env w (S i) rest
  end.

(** What a node returned by the walker contributes to [textElements]. *)
Definition text_of_node (node : Node) : list string :=
  match node with
  | TextNode _ textContent =>
      if truthy (trim textContent) then [trim textContent] else []
  | ElementNode _ _ => []
  end.

(** The text an element at the centre of the selection offers, when it
    overlaps the selection and has text. *)
Definition fallback_text (s : Rect) (element : PointElement) : option string :=
  let rect := pe_rect element in
  let text := if truthy (pe_innerText element)
              then pe_innerText element else pe_textContent element in
  if overlaps (mkRect (rect_left rect) (rect_top rect)
                      (rect_right rect) (rect_bottom rect)) s
     && truthy text && truthy (trim text)
  then Some (trim text) else None.

(** Neither a line feed nor a carriage return. *)
Definition not_line_break (c : ascii) : bool :=
  negb (Ascii.eqb c LF) && negb (Ascii.eqb c CR).

(** A value a channel of an [ImageData] can hold. *)
Definition in_byte (z : Z) : Prop := (0 <= z <= 255)%Z.

(** The window once [loadOCRScript] has defined the adapter, if it was
    not defined yet. *)
Definition window_with_processor (w : Window) : Window :=
  match OCRProcessor w with
  | Some _ => w
  | None => set_processor new_OCRProcessor (record_event LoadOCRScript w)
  end.

(** Two windows with the same adapter and engine global. *)
Definition same_adapter (w1 w2 : Window) : Prop :=
  OCRProcessor w1 = OCRProcessor w2 /\ Tesseract w1 = Tesseract w2.

(** The merged text held by the local [results]. *)
Definition combined_of (s : ExtractState) : string := combinedText (results s).

(** Did the call throw? *)
Definition throws {A : Type} (r : result A) : bool :=
  match r with Ok _ => false | Throw _ => true end.

(** *** The merge, as the specification words it *)

(** The maximal runs of a string: each character with the number of
    times it is repeated there. *)
Fixpoint runs (s : string) : list (ascii * nat) :=
  match s with
  | EmptyString => []
  | String c r =>
      match runs r with
      | (d, n) :: rest =>
          if Ascii.eqb c d then (d, S n) :: rest else (c, 1) :: (d, n) :: rest
      | [] => [(c, 1)]
      end
  end.

(** The string made of the given runs. *)
Fixpoint unruns (l : list (ascii * nat)) : string :=
  match l with
  | [] => EmptyString
  | (c, n) :: rest => rep c n +++ unruns rest
  end.

(** Runs as [runs] gives them: none is empty, and two that follow each
    other are of different characters. *)
Fixpoint maximal_runs (l : list (ascii * nat)) : Prop :=
  match l with
  | [] => True
  | (c, n) :: rest =>
      0 < n
      /\ match rest with
         | [] => True
         | (d, _) :: _ => Ascii.eqb d c = false
         end
      /\ maximal_runs rest
  end.

(** "Collapse 4+ consecutive newlines to exactly 3": a run of four or
    more newlines becomes a run of three, every other run is kept. *)
Definition cap_newlines (run : ascii * nat) : ascii * nat :=
  let (c, n) := run in
  if Ascii.eqb c LF && (4 <=? n) then (LF, 3) else (c, n).

Definition collapse_newlines_spec (s : string) : string :=
  unruns (map cap_newlines (runs s)).

(** The merged text: the texts that are not blank, trimmed and separated
    by one blank line, with the runs of newlines collapsed, trimmed. *)
Definition merge_spec (selectable ocr : string) : string :=
  trim (collapse_newlines_spec
          (join (rep LF 2) (filter truthy [trim selectable; trim ocr]))).

(** *** The candidates handed to the recognition *)

(** Can the image of a candidate be had: it loads anew, or the
    candidate is an [<img>] element, which is then used itself. *)
Definition obtainable (env : Env) (info : ImageInfo) : bool :=
  match fetchImage env (info_src info), info_element info with
  | None, None => false
  | _, _ => true
  end.

(** *** The text nodes of the page *)

(** The text nodes below a node, each with its box and its text, in
    document order: a node comes before the nodes that follow it in the
    document, and the nodes inside an element come where the element
    is. *)
Fixpoint text_nodes_below (node : Node) : list (DOMRect * string) :=
  match node with
  | TextNode rect textContent => [(rect, textContent)]
  | ElementNode _ children =>
      (fix all (l : list Node) : list (DOMRect * string) :=
         match l with
         | [] => []
         | c :: cs => text_nodes_below c ++ all cs
         end) children
  end.

Definition document_text_nodes (page : Page) : list (DOMRect * string) :=
  flat_map text_nodes_below (body page).

(** A box that has a width and a height and is not entirely to one side
    of the selection; touching edges count. *)
Definition box_in_selection (s : Rect) (rect : DOMRect) : bool :=
  Qltb 0 (rect_width rect) && Qltb 0 (rect_height rect)
  && Qle_bool (left s) (rect_left rect + rect_width rect)
  && Qle_bool (rect_left rect) (right s)
  && Qle_bool (top s) (rect_top rect + rect_height rect)
  && Qle_bool (rect_top rect) (bottom s).

(** The piece a text node gives: its trimmed text, when the node is in
    the selection and the text is not blank. *)
Definition piece_of_text_node (s : Rect) (node : DOMRect * string) : list string :=
  let (rect, textContent) := node in
  if box_in_selection s rect && truthy (trim textContent)
  then [trim textContent] else [].

(* ================================================================== *)
(** ** OCR Engine Adapter: the other methods *)
(* ================================================================== *)

(** [setLanguage(lang, save)]: the language is set and the adapter marked
    for re-initialisation.  The value is what the method hands to
    [chrome.storage.local.set] under the key [ocrLanguage], if anything;
    a failure of the write is caught. *)
Definition setLanguage (lang : string) (save storageAvailable : bool)
  : M Window (option string) :=
  w <- get ;;
  match OCRProcessor w with
  | Some p =>
      modify (set_processor {| tesseract := tesseract p;
                               isInitialized := false;
                               currentLanguage := lang |}) ;;;
      ret (if save && storageAvailable then Some lang else None)
  | None => throw "Cannot read properties of undefined"
  end.

(** An entry of the array [extractTextFromMultiple] returns: a result of
    [extractText], or [{text: '', error}]. *)
Inductive MultiResult : Type :=
  | Extracted (r : OcrResult)
  | NotExtracted (error : string).

(** The loop of [extractTextFromMultiple], with the array [results]
    built so far. *)
Fixpoint extractTextFromMultiple_loop (eng : Engine)
    (imageSources : list (option ImageSource))
    (options : ExtractOptions) (results : list MultiResult)
  : M Window (list MultiResult) :=
  match imageSources with
  | [] => ret results
  | imageSource :: rest =>
      entry <- try_catch
                 (result <- extractText eng imageSource options ;;
                  ret (Extracted result))
                 (fun message => ret (NotExtracted message)) ;;
      extractTextFromMultiple_loop eng rest options (results ++ [entry])
  end.

(** [extractTextFromMultiple(imageSources, options)]. *)
Definition extractTextFromMultiple (eng : Engine)
    (imageSources : list (option ImageSource)) (options : ExtractOptions)
  : M Window (list MultiResult) :=
  extractTextFromMultiple_loop eng imageSources options [].

(* ================================================================== *)
(** ** Utilities: [TextProcessor] and [ValidationUtils] *)
(* ================================================================== *)

(** The first [n] code units, [text.substring(0, n)] for an integer [n]:
    a negative [n] counts as zero, one beyond the end as the length. *)
Fixpoint take (n : nat) (s : string) : string :=
  match n, s with
  | S m, String c r => String c (take m r)
  | _, _ => EmptyString
  end.

Definition substring0 (s : string) (n : Z) : string := take (Z.to_nat n) s.

(** [truncate(text, maxLength, suffix)], for an integer [maxLength]. *)
Definition truncate (text : string) (maxLength : Z) (suffix : string) : string :=
  if negb (truthy text) || (Z.of_nat (String.length text) <=? maxLength)%Z then text
  else substring0 text (maxLength - Z.of_nat (String.length suffix)) +++ suffix.

(** [s.replace(/[ \t]+/g, ' ')]: every run of spaces and tabs becomes one
    space; [inside] tells that the scan is inside such a run. *)
Fixpoint collapse_blanks_from (inside : bool) (s : string) : string :=
  match s with
  | EmptyString => EmptyString
  | String c r =>
      if Ascii.eqb c SP || Ascii.eqb c TAB then
        if inside then collapse_blanks_from true r
        else String SP (collapse_blanks_from true r)
      else String c (collapse_blanks_from false r)
  end.

Definition collapse_blanks (s : string) : string := collapse_blanks_from false s.

(** [s.split('\n')]: the lines of [s], at least one. *)
Fixpoint split_lines (s : string) : list string :=
  match s with
  | EmptyString => [EmptyString]
  | String c r =>
      if Ascii.eqb c LF then EmptyString :: split_lines r
      else
        match split_lines r with
        | line :: lines => String c line :: lines
        | [] => [String c EmptyString]
        end
  end.

Record CleanOptions : Type := mkCleanOptions {
  normalizeWhitespace : option bool;
  collapseLines : option bool
}.

(** [cleanText(text, options)]; an option is on unless it is [false]. *)
Definition cleanText (text : string) (options : CleanOptions) : string :=
  if negb (truthy text) then EmptyString
  else
    let processed := text in
    let processed := replace_char CR (String LF "") (replace_crlf processed) in
    let processed :=
      if opt_default (normalizeWhitespace options) true then
        let processed := collapse_blanks processed in
        join (String LF "") (map trim (split_lines processed))
      else processed in
    let processed :=
      if opt_default (collapseLines options) true
      then replace_runs LF 3 (rep LF 2) processed
      else processed in
    trim processed.

(** [isValidImageSource(imageSource)]; a falsy source is [None]. *)
Definition isValidImageSource (imageSource : option ImageSource) : bool :=
  match imageSource with
  | None => false
  | Some (SrcUrl url) =>
      String.prefix "data:" url || String.prefix "http://" url
      || String.prefix "https://" url
  | Some (SrcImage el) =>
      img_complete el && Qgtb (img_naturalWidth el) 0 && Qgtb (img_naturalHeight el) 0
  | Some (SrcCanvas _ w h) => Qgtb w 0 && Qgtb h 0
  | Some (SrcImageData w h _) => Qgtb w 0 && Qgtb h 0
  | Some SrcOther => false
  end.

(* ================================================================== *)
(** ** Selection State Machine: the other handlers *)
(* ================================================================== *)

(** [deactivateSelectionMode()]. *)
Definition deactivateSelectionMode : M Tab unit :=
  t <- get ;;
  if negb (isSelectionModeActive (overlay t)) then ret tt
  else
    modify (fun t =>
      let o := overlay t in
      set_overlay {| isSelectionModeActive := false;
                     isSelecting := false;
                     startX := startX o; startY := startY o;
                     selectionOverlay := false;
                     selectionBox := None;
                     loadingIndicator := loadingIndicator o |} t).

(** [handleKeyDown(event)], of the event its [key]. *)
Definition handleKeyDown (key : string) : M Tab unit :=
  t <- get ;;
  if negb (isSelectionModeActive (overlay t)) then ret tt
  else if String.eqb key "Escape" then
    set_isSelecting false ;;;
    removeSelectionOverlay ;;;
    sendMessage CancelSelection ;;;
    deactivateSelectionMode
  else ret tt.

(** The target of a click, as far as [handleClickOutside] looks at it. *)
Inductive ClickTarget : Type := OnOverlay | OnSelectionBox | Elsewhere.

(** [handleClickOutside(event)]; a target is never [null], so it equals
    the overlay or the box only when that exists. *)
Definition handleClickOutside (target : ClickTarget) : M Tab unit :=
  t <- get ;;
  if negb (isSelectionModeActive (overlay t)) || isSelecting (overlay t) then ret tt
  else
    let hit :=
      match target with
      | OnOverlay => selectionOverlay (overlay t)
      | OnSelectionBox =>
          match selectionBox (overlay t) with Some _ => true | None => false end
      | Elsewhere => false
      end in
    if hit then
      removeSelectionOverlay ;;;
      sendMessage CancelSelection ;;;
      deactivateSelectionMode
    else ret tt.

(** What reaches the overlay script: the mouse, click and key events it
    listens to and the two messages of the service worker. *)
Inductive OverlayEvent : Type :=
  | MouseDown (event : MouseEvent)
  | MouseMove (event : MouseEvent)
  | MouseUp (event : MouseEvent)
  | Click (target : ClickTarget)
  | KeyDown (key : string)
  | ActivationMessage
  | DeactivationMessage.


Section Dispatch.

Variable env : Env.
Variable textExtractorLoaded : bool.
Variable getBoundingClientRect : SelectionBox -> DOMRect.
Variable scrollX scrollY : Q.

(** The listener or message handler an event runs. *)
Definition dispatch (e : OverlayEvent) : M Tab unit :=
  match e with
  | MouseDown event => handleMouseDown event
  | MouseMove event => handleMouseMove event
  | MouseUp event =>
      handleMouseUp textExtractorLoaded getBoundingClientRect scrollX scrollY event
  | Click target => handleClickOutside target
  | KeyDown key => handleKeyDown key
  | ActivationMessage => activateSelectionMode
  | DeactivationMessage => deactivateSelectionMode
  end.

(** The tab after a sequence of events, each handled by its listener;
    an extraction a listener starts stays in flight. *)
Fixpoint dispatch_all (events : list OverlayEvent) (t : Tab) : Tab :=
  match events with
  | [] => t
  | e :: rest => dispatch_all rest (snd (dispatch e t))
  end.

(** What happens in the tab: an event is handled, or the promise of an
    extraction in flight settles. *)
Inductive Step : Type :=
  | Occurs (e : OverlayEvent)
  | ExtractionSettles (n : nat).

Definition step (s : Step) : M Tab unit :=
  match s with
  | Occurs e => dispatch e
  | ExtractionSettles n => extractionSettles env n
  end.

(** The tab after a sequence of steps. *)
Fixpoint run_steps (steps : list Step) (t : Tab) : Tab :=
  match steps with
  | [] => t
  | s :: rest => run_steps rest (snd (step s t))
  end.


End Dispatch.

(* ================================================================== *)
(** ** Result popup: [popup.js] *)
(* ================================================================== *)

(** The text [show(data, position)] hands to [displayText]:
    [data.combinedText || data.selectableText || '']. *)
Definition shown_text (data : Results) : string :=
  if truthy (combinedText data) then combinedText data
  else if truthy (selectableText data) then selectableText data
  else EmptyString.

(** The numbers [positionPopup(position)] puts into [left] and [top] when
    a position is given, for a window [innerWidth] by [innerHeight]. *)
Definition popupWidth : Q := 500.
Definition popupHeight : Q := 400.

Definition positionPopup (innerWidth innerHeight : Q) (position : SelectionData) : Q * Q :=
  let preferredLeft := (viewportX position + viewportWidth position + 10)%Q in
  let preferredTop := viewportY position in
  let preferredLeft :=
    if Qgtb (preferredLeft + popupWidth) innerWidth then
      let preferredLeft := (viewportX position - popupWidth - 10)%Q in
      if Qltb preferredLeft 0 then ((innerWidth - popupWidth) / 2)%Q else preferredLeft
    else preferredLeft in
  let preferredTop :=
    if Qgtb (preferredTop + popupHeight) innerHeight then
      let preferredTop := (viewportY position - popupHeight - 10)%Q in
      if Qltb preferredTop 0 then ((innerHeight - popupHeight) / 2)%Q else preferredTop
    else preferredTop in
  (preferredLeft, preferredTop).

(* ================================================================== *)
(** ** Notions used in the further statements *)
(* ================================================================== *)

(** The entry [extractTextFromMultiple] records for an outcome of
    [extractText]. *)
Definition entry_of_outcome (o : result OcrResult) : MultiResult :=
  match o with
  | Ok r => Extracted r
  | Throw message => NotExtracted message
  end.

(** Every message the computation can throw satisfies [P]. *)
Definition throws_only {S A : Type} (P : string -> Prop) (m : M S A) : Prop :=
  forall s e s', m s = (Throw e, s') -> P e.

(* ================================================================== *)
(** * Properties *)
(* ================================================================== *)

(** ** Reasoning about stateful code *)

Section Frames.

Context {S X : Type} (f : S -> X).

Lemma frames_ret {A : Type} (a : A) : frames f (ret a).
Proof. intros s r s' H. inversion H. reflexivity. Qed.

Lemma frames_throw {A : Type} (e : string) : frames f (@throw S A e).
Proof. intros s r s' H. inversion H. reflexivity. Qed.

Lemma frames_get : frames f (@get S).
Proof. intros s r s' H. inversion H. reflexivity. Qed.

Lemma frames_lift_result {A : Type} (r : result A) : frames f (@lift_result S A r).
Proof. intros s r' s' H. inversion H. reflexivity. Qed.

Lemma frames_modify (g : S -> S) :
  (forall s, f (g s) = f s) -> frames f (modify g).
Proof. intros Hg s r s' H. inversion H. apply Hg. Qed.

Lemma frames_bind {A B : Type} (m : M S A) (k : A -> M S B) :
  frames f m -> (forall a, frames f (k a)) -> frames f (bind m k).
Proof.
  intros Hm Hk s r s' H. unfold bind in H.
  destruct (m s) as [[a|e] s1] eqn:E.
  - rewrite (Hk a _ _ _ H). eapply Hm; eauto.
  - inversion H; subst. eapply Hm; eauto.
Qed.

Lemma frames_try_catch {A : Type} (m : M S A) (h : string -> M S A) :
  frames f m -> (forall e, frames f (h e)) -> frames f (try_catch m h).
Proof.
  intros Hm Hh s r s' H. unfold try_catch in H.
  destruct (m s) as [[a|e] s1] eqn:E.
  - inversion H; subst. eapply Hm; eauto.
  - rewrite (Hh e _ _ _ H). eapply Hm; eauto.
Qed.

End Frames.

(** A computation on the window leaves the local [results] alone. *)
Lemma frames_liftW {X A : Type} (f : ExtractState -> X) (m : M Window A) :
  (forall r w w', f (mkExtractState r w) = f (mkExtractState r w')) ->
  frames f (liftW m).
Proof.
  intros Hf s r s' H. unfold liftW in H.
  destruct (m (window s)) as [r1 w1]. inversion H; subst.
  destruct s as [rs ws]. apply Hf.
Qed.

(** Inversion of a sequence that returned. *)
Lemma bind_Ok {S A B : Type} (m : M S A) (k : A -> M S B) (s s' : S) (b : B) :
  bind m k s = (Ok b, s') ->
  exists a s1, m s = (Ok a, s1) /\ k a s1 = (Ok b, s').
Proof.
  unfold bind. destruct (m s) as [[a|e] s1]; intros H; [eauto|discriminate].
Qed.

(** Inversion of a sequence that threw. *)
Lemma bind_Throw {S A B : Type} (m : M S A) (k : A -> M S B) (s s' : S) (e : string) :
  bind m k s = (Throw e, s') ->
  m s = (Throw e, s') \/ exists a s1, m s = (Ok a, s1) /\ k a s1 = (Throw e, s').
Proof.
  unfold bind. destruct (m s) as [[a|e1] s1]; intros H.
  - right. eauto.
  - left. inversion H. reflexivity.
Qed.

(** ** Strings *)

Lemma append_empty_r (s : string) : s +++ "" = s.
Proof. induction s; simpl; congruence. Qed.

Lemma append_assoc (a b c : string) : (a +++ b) +++ c = a +++ b +++ c.
Proof. induction a; simpl; congruence. Qed.



Lemma leading_rep_append (c : ascii) (n : nat) (s : string) :
  n <= leading c (rep c n +++ s).
Proof.
  induction n; simpl; [lia|]. rewrite Ascii.eqb_refl. lia.
Qed.

Lemma leading_rep_stop (c d : ascii) (n : nat) (s : string) :
  Ascii.eqb d c = false -> leading c (rep c n +++ String d s) = n.
Proof.
  intros Hd. induction n; simpl.
  - now rewrite Hd.
  - rewrite Ascii.eqb_refl. now rewrite IHn.
Qed.

Lemma leading_rep (c : ascii) (n : nat) : leading c (rep c n) = n.
Proof. induction n; simpl; [|rewrite Ascii.eqb_refl]; congruence. Qed.



Lemma has_run_rep_small (c : ascii) (n m : nat) :
  m < n -> has_run c n (rep c m) = false.
Proof.
  intros Hm. induction m; simpl.
  - apply Nat.eqb_neq. lia.
  - rewrite Ascii.eqb_refl, leading_rep. rewrite IHm by lia.
    rewrite orb_false_r. apply Nat.leb_gt. lia.
Qed.

Lemma has_run_rep_stop (c d : ascii) (n m : nat) (s : string) :
  m < n -> Ascii.eqb d c = false ->
  has_run c n (rep c m +++ String d s) = has_run c n s.
Proof.
  intros Hm Hd. induction m.
  - cbn [rep String.append has_run leading]. rewrite Hd.
    replace (n <=? 0) with false by (symmetry; apply Nat.leb_gt; lia).
    reflexivity.
  - change (rep c (S m) +++ String d s) with (String c (rep c m +++ String d s)).
    cbn [has_run]. rewrite IHm by lia.
    change (String c (rep c m +++ String d s)) with (rep c (S m) +++ String d s).
    rewrite leading_rep_stop by assumption.
    replace (n <=? S m) with false by (symmetry; apply Nat.leb_gt; lia).
    reflexivity.
Qed.

(** The flushed runs are shorter than [n] when the replacement is. *)
Lemma flush_run_short (c : ascii) (k j run : nat) :
  exists m, flush_run c k (rep c j) run = rep c m /\ (m = j \/ m < k).
Proof.
  unfold flush_run. destruct (k <=? run) eqn:E.
  - exists j. auto.
  - exists run. split; [reflexivity|]. right. now apply Nat.leb_gt.
Qed.

(** After [replace(/c{k,}/g, c^j)] with [j < n] and [k <= n] no run of
    [n] copies of [c] is left. *)
Lemma replace_runs_from_no_run (c : ascii) (k j n : nat) (s : string) :
  j < n -> k <= n ->
  forall run, has_run c n (replace_runs_from c k (rep c j) run s) = false.
Proof.
  intros Hj Hk. induction s as [|d r IH]; intros run; simpl.
  - destruct (flush_run_short c k j run) as [m [-> Hm]].
    apply has_run_rep_small. lia.
  - destruct (Ascii.eqb d c) eqn:Hd; [apply IH|].
    destruct (flush_run_short c k j run) as [m [-> Hm]].
    rewrite has_run_rep_stop by (assumption || lia).
    apply IH.
Qed.

Lemma replace_runs_no_run (c : ascii) (k j n : nat) (s : string) :
  j < n -> k <= n -> has_run c n (replace_runs c k (rep c j) s) = false.
Proof. intros. now apply replace_runs_from_no_run. Qed.

Lemma has_run_trimStart (c : ascii) (n : nat) (s : string) :
  has_run c n s = false -> has_run c n (trimStart s) = false.
Proof.
  induction s as [|d r IH]; intros H; simpl; [assumption|].
  destruct (is_ws d); [|assumption].
  apply IH. simpl in H. apply orb_false_iff in H. tauto.
Qed.

Lemma leading_trimEnd (c : ascii) (s : string) :
  leading c (trimEnd s) <= leading c s.
Proof.
  induction s as [|d r IH]; simpl; [lia|].
  destruct (is_ws d && is_empty (trimEnd r)); simpl.
  - lia.
  - destruct (Ascii.eqb d c); lia.
Qed.

Lemma has_run_trimEnd (c : ascii) (n : nat) (s : string) :
  0 < n -> has_run c n s = false -> has_run c n (trimEnd s) = false.
Proof.
  intros Hn. induction s as [|d r IH]; intros H; simpl; [assumption|].
  cbn [has_run] in H. apply orb_false_iff in H. destruct H as [H1 H2].
  destruct (is_ws d && is_empty (trimEnd r)).
  - simpl. apply Nat.eqb_neq. lia.
  - cbn [has_run]. rewrite (IH H2), orb_false_r.
    apply Nat.leb_gt. apply Nat.leb_gt in H1.
    cbn [leading] in *. pose proof (leading_trimEnd c r).
    destruct (Ascii.eqb d c); lia.
Qed.

Lemma has_run_trim (c : ascii) (n : nat) (s : string) :
  0 < n -> has_run c n s = false -> has_run c n (trim s) = false.
Proof.
  intros Hn H. unfold trim. apply has_run_trimEnd; [assumption|].
  now apply has_run_trimStart.
Qed.

Lemma flush_run_zero (c : ascii) (k : nat) (repl : string) :
  0 < k -> flush_run c k repl 0 = "".
Proof.
  intros Hk. unfold flush_run. destruct k; [lia|reflexivity].
Qed.

(** The scan of [a ++ rest] is the scan of [a] followed by the scan of
    [rest], when no run of [c] crosses the border. *)
Lemma replace_runs_from_append (c : ascii) (k : nat) (repl a rest : string) :
  0 < k -> a <> "" -> not_at_end c a = true ->
  forall run,
    replace_runs_from c k repl run (a +++ rest)
    = replace_runs_from c k repl run a +++ replace_runs_from c k repl 0 rest.
Proof.
  intros Hk. induction a as [|d r IH]; intros Hne Hend run; [congruence|].
  destruct r as [|d2 r2].
  - cbn [not_at_end] in Hend. apply negb_true_iff in Hend.
    cbn [String.append replace_runs_from]. rewrite Hend.
    rewrite (flush_run_zero c k repl Hk), append_assoc. reflexivity.
  - change (not_at_end c (String d (String d2 r2))) with (not_at_end c (String d2 r2)) in Hend.
    change (String d (String d2 r2) +++ rest) with (String d (String d2 r2 +++ rest)).
    cbn [replace_runs_from]. destruct (Ascii.eqb d c).
    + apply IH; [discriminate|assumption].
    + rewrite IH by (discriminate || assumption).
      rewrite append_assoc. reflexivity.
Qed.

Lemma replace_runs_from_rep (c : ascii) (k : nat) (repl : string) (n : nat) (b : string) :
  0 < k -> leading c b = 0 ->
  forall run,
    replace_runs_from c k repl run (rep c n +++ b)
    = flush_run c k repl (run + n) +++ replace_runs_from c k repl 0 b.
Proof.
  intros Hk Hb. induction n as [|n IH]; intros run.
  - rewrite Nat.add_0_r. cbn [rep String.append].
    destruct b as [|d r]; cbn [replace_runs_from].
    + now rewrite (flush_run_zero c k repl Hk), append_empty_r.
    + cbn [leading] in Hb. destruct (Ascii.eqb d c); [discriminate|].
      now rewrite (flush_run_zero c k repl Hk).
  - cbn [rep String.append replace_runs_from]. rewrite Ascii.eqb_refl, IH.
    now replace (S run + n) with (run + S n) by lia.
Qed.

(** A run of four newlines or more, between a text that does not end
    with a newline and a text that does not start with one, becomes
    exactly three newlines; what is before and after is treated on its
    own. *)
Lemma collapse_run_to_three (a b : string) (n : nat) :
  4 <= n -> a <> "" -> not_at_end LF a = true -> leading LF b = 0 ->
  replace_runs LF 4 (rep LF 3) (a +++ rep LF n +++ b)
  = replace_runs LF 4 (rep LF 3) a +++ rep LF 3 +++ replace_runs LF 4 (rep LF 3) b.
Proof.
  intros Hn Ha Hend Hb. unfold replace_runs.
  rewrite replace_runs_from_append by (assumption || lia).
  rewrite replace_runs_from_rep by (assumption || lia).
  cbn [Nat.add]. unfold flush_run.
  replace (4 <=? n) with true by (symmetry; apply Nat.leb_le; lia).
  reflexivity.
Qed.


(** ** The aggregator: what every call does *)

Ltac frame_step :=
  match goal with
  | |- frames _ (ret _) => apply frames_ret
  | |- frames _ (throw _) => apply frames_throw
  | |- frames _ get => apply frames_get
  | |- frames _ (lift_result _) => apply frames_lift_result
  | |- frames _ (bind _ _) => apply frames_bind; [|intros]
  | |- frames _ (try_catch _ _) => apply frames_try_catch; [|intros]
  | |- frames _ (liftW _) => apply frames_liftW; intros; reflexivity
  | |- frames _ (modify _) => apply frames_modify; intros; reflexivity
  | |- frames _ (if ?b then _ else _) => destruct b
  | |- frames _ (match ?x with _ => _ end) => destruct x
  end.

Ltac frame := repeat frame_step.

Lemma push_error_frames_combined (e : ErrorEntry) :
  frames combined_of (push_error e).
Proof. unfold push_error, update_results. frame. Qed.

Lemma push_image_frames_combined (a : ImageAttempt) :
  frames combined_of (push_image a).
Proof. unfold push_image, update_results. frame. Qed.

Lemma ocr_step_frames_combined (env : Env) (i : nat) (e : ImageEntry) (acc : list string) :
  frames combined_of (ocr_step env i e acc).
Proof.
  unfold ocr_step.
  repeat first [ apply push_error_frames_combined
               | apply push_image_frames_combined
               | frame_step ].
Qed.

Lemma ocr_loop_frames_combined (env : Env) (l : list ImageEntry) :
  forall i acc, frames combined_of (ocr_loop env i l acc).
Proof.
  induction l as [|e l IH]; intros i acc; simpl.
  - apply frames_ret.
  - apply frames_bind; [apply ocr_step_frames_combined|intros; apply IH].
Qed.

Lemma ocr_stage_frames_combined (env : Env) (sel : SelectionData) :
  frames combined_of (ocr_stage env sel).
Proof.
  unfold ocr_stage, loadOCRScript, set_ocrText, update_results.
  repeat first [ apply push_error_frames_combined
               | apply ocr_loop_frames_combined
               | frame_step ].
Qed.

(** The merge step returns, with the merged text in place. *)
Lemma merge_stage_run (s : ExtractState) :
  exists s',
    merge_stage s = (Ok (results s'), s')
    /\ combinedText (results s') = combine (selectableText (results s)) (ocrText (results s))
    /\ images (results s') = images (results s)
    /\ errors (results s') = errors (results s)
    /\ window s' = window s
    /\ selectableText (results s') = selectableText (results s)
    /\ ocrText (results s') = ocrText (results s).
Proof.
  exists {| results :=
              {| selectableText := selectableText (results s);
                 ocrText := ocrText (results s);
                 combinedText := combine (selectableText (results s)) (ocrText (results s));
                 images := images (results s);
                 errors := errors (results s) |};
            window := window s |}.
  repeat split.
Qed.

(** The two ways a call ends: the body returned, or it threw and the
    outer [catch] recorded the message. *)
Lemma extract_cases (env : Env) (sel : SelectionData) (w : Window) :
  (exists r s,
      extract_body env sel (mkExtractState empty_results w) = (Ok r, s)
      /\ extractTextFromSelection env sel w = (Ok r, window s))
  \/
  (exists e s,
      extract_body env sel (mkExtractState empty_results w) = (Throw e, s)
      /\ extractTextFromSelection env sel w
         = (Ok {| selectableText := selectableText (results s);
                  ocrText := ocrText (results s);
                  combinedText := combinedText (results s);
                  images := images (results s);
                  errors := errors (results s)
                            ++ [ErrorString ("Extraction failed: " +++ e)] |},
            window s)).
Proof.
  unfold extractTextFromSelection, try_catch.
  destruct (extract_body env sel _) as [[r|e] s] eqn:E.
  - left. eauto.
  - right. exists e, s. split; reflexivity.
Qed.

Lemma extract_body_Ok_combined (env : Env) (sel : SelectionData) s0 r s :
  extract_body env sel s0 = (Ok r, s) ->
  exists s1, combinedText r = combine (selectableText (results s1)) (ocrText (results s1))
             /\ r = results s.
Proof.
  unfold extract_body. intros H.
  apply bind_Ok in H. destruct H as [u [s1 [_ H]]].
  apply bind_Ok in H. destruct H as [u' [s2 [_ H]]].
  destruct (merge_stage_run s2) as [s' [Hm [Hc _]]].
  rewrite Hm in H. inversion H; subst. eauto.
Qed.

Lemma extract_body_Throw_combined (env : Env) (sel : SelectionData) s0 e s :
  extract_body env sel s0 = (Throw e, s) ->
  combinedText (results s) = combinedText (results s0).
Proof.
  unfold extract_body. intros H.
  apply bind_Throw in H. destruct H as [H | [u [s1 [H1 H]]]].
  - discriminate.
  - apply bind_Throw in H. destruct H as [H | [u' [s2 [H2 H]]]].
    + apply ocr_stage_frames_combined in H. unfold combined_of in H.
      rewrite H. inversion H1. reflexivity.
    + destruct (merge_stage_run s2) as [s' [Hm _]]. rewrite Hm in H. discriminate.
Qed.

(** ** C1: the aggregator returns, whatever fails and whatever the size *)

(** C1 (as the code has it).  For every page, engine, window and
    selection rectangle - of any size, also below 5px -
    [extractTextFromSelection] returns a result and does not throw; when
    its body throws, the result it returns has an empty [combinedText] and
    the message appended to [errors]. *)
Theorem extract_always_returns (env : Env) (sel : SelectionData) (w : Window) :
  exists r w',
    extractTextFromSelection env sel w = (Ok r, w')
    /\ (throws (fst (extract_body env sel (mkExtractState empty_results w))) = true ->
        combinedText r = "" /\ exists es e, errors r = es ++ [ErrorString e]).
Proof.
  destruct (extract_cases env sel w) as [[r [s [Hb He]]] | [e [s [Hb He]]]].
  - exists r, (window s). split; [exact He|].
    rewrite Hb. discriminate.
  - eexists. exists (window s). split; [exact He|].
    intros _. cbn [combinedText errors]. split.
    + apply extract_body_Throw_combined in Hb. exact Hb.
    + eauto.
Qed.

(** C1 (as stated): a 3x3 rectangle, below the 5px threshold, does not
    make the aggregator throw; it returns the text under the rectangle. *)
Lemma extract_small_rectangle_returns :
  let sel := Sample.selection 0 0 3 3 in
  Qltb (width sel) 5 = true
  /\ Qltb (height sel) 5 = true
  /\ throws (fst (extractTextFromSelection Sample.env_hello sel Sample.fresh_window)) = false
  /\ option_map combinedText
       (match fst (extractTextFromSelection Sample.env_hello sel Sample.fresh_window) with
        | Ok r => Some r | Throw _ => None end)
     = Some "Hello world".
Proof. vm_compute. repeat split. Qed.

(** A failure that reaches the outer [catch]: the adapter script cannot
    be injected.  The call returns all the same; the text of the page is
    in [selectableText], [combinedText] is empty and the message is in
    [errors]. *)
Example script_failure_is_recorded :
  let env := {| page := {| imgElements := [Sample.img_A];
                           elementsFromPoint := fun _ _ => [];
                           body := body Sample.page_hello |};
                engine := Sample.engine_ABC;
                ocrScript := ScriptFails;
                fetchImage := fun _ => None;
                html2canvas := None |} in
  fst (extractTextFromSelection env (Sample.selection 0 0 200 100) Sample.fresh_window)
  = Ok {| selectableText := "Hello world";
          ocrText := "";
          combinedText := "";
          images := [];
          errors := [ErrorString "Extraction failed: Failed to load OCR processor"] |}.
Proof. vm_compute. reflexivity. Qed.

(** ** C7: no image, no engine *)

(** C7.  When the geometry finds no candidate image, the call returns a
    result with no entry in [images], and the window - the adapter, the
    engine global and the record of script loads, initialisations and
    recognitions - is as it was. *)
Theorem no_images_no_engine (env : Env) (sel : SelectionData) (w : Window) :
  detectImagesInSelection (page env) sel = [] ->
  exists r,
    extractTextFromSelection env sel w = (Ok r, w)
    /\ images r = [].
Proof.
  intros H.
  unfold extractTextFromSelection, try_catch, extract_body, ocr_stage.
  rewrite H. cbn. eexists. repeat split.
Qed.

Lemma no_images_no_engine_witness :
  let sel := Sample.selection 0 0 200 100 in
  detectImagesInSelection (page Sample.env_hello) sel = []
  /\ exists r,
       extractTextFromSelection Sample.env_hello sel Sample.fresh_window
       = (Ok r, Sample.fresh_window)
       /\ images r = [].
Proof.
  split; [reflexivity|].
  apply (no_images_no_engine Sample.env_hello (Sample.selection 0 0 200 100)
           Sample.fresh_window).
  reflexivity.
Defined.

(** ** C3: the loop over the images

    An initialised adapter answers from its fields and the engine alone:
    a call changes nothing but the record of events. *)
Lemma extractText_ready (eng : Engine) (img : option ImageSource) (opts : ExtractOptions)
    (p : Processor) (t : bool) :
  isInitialized p = true ->
  exists o evs',
    forall evs,
      extractText eng img opts (mkWindow (Some p) t evs)
      = (o, mkWindow (Some p) t (evs ++ evs')).
Proof.
  intros Hinit.
  unfold extractText, this, bind, get, ret, try_catch, throw, lift_result, modify,
    race_timeout, record_event.
  cbn. rewrite Hinit. cbn.
  destruct img as [src|]; cbn;
    [|eexists; exists []; intros; rewrite app_nil_r; reflexivity].
  destruct (processedImage_of eng src _ _) as [c|e];
    destruct (negb (truthy (str_or (opt_lang opts) (currentLanguage p))));
    destruct t; cbn;
    try (eexists; exists []; intros; rewrite app_nil_r; reflexivity);
    match goal with
    | |- context [recognize eng ?a ?l] =>
        destruct (recognize eng a l) as [ms [[d|]|m]|]
    end;
    try destruct (ms <=? ocrTimeout)%Z;
    try destruct (negb (truthy (trim (str_or (data_text d) ""))));
    cbn; eexists; eexists; intros; reflexivity.
Qed.

Lemma ocr_alone_same (env : Env) (w1 w2 : Window) (p : Processor) (e : ImageEntry) :
  OCRProcessor w1 = Some p -> isInitialized p = true -> same_adapter w1 w2 ->
  ocr_alone env w1 e = ocr_alone env w2 e.
Proof.
  intros Hp Hi [Hs Ht]. unfold ocr_alone. destruct (image e) as [src|]; [|reflexivity].
  destruct w1 as [p1 t1 ev1], w2 as [p2 t2 ev2]. cbn in *. subst.
  destruct (extractText_ready (engine env) (Some src) default_options p t2 Hi)
    as [o [evs' H]].
  now rewrite (H ev1), (H ev2).
Qed.

(** One turn of the loop: it returns, with the outcome of the entry
    recorded, and hands the adapter on as it got it. *)
Lemma ocr_step_run (env : Env) (i : nat) (e : ImageEntry) (acc : list string)
    (s : ExtractState) (p : Processor) :
  OCRProcessor (window s) = Some p -> isInitialized p = true ->
  exists s',
    ocr_step env i e acc s = (Ok (acc ++ text_of (ocr_alone env (window s) e)), s')
    /\ images (results s')
       = images (results s) ++ [attempt_of e (ocr_alone env (window s) e)]
    /\ errors (results s')
       = errors (results s) ++ failure_of (i + 1) e (ocr_alone env (window s) e)
    /\ selectableText (results s') = selectableText (results s)
    /\ ocrText (results s') = ocrText (results s)
    /\ same_adapter (window s) (window s').
Proof.
  intros Hp Hi. destruct s as [rs [p0 t evs]]. cbn in Hp. subst p0.
  unfold ocr_step, ocr_alone, try_catch, bind, liftW, ret, throw.
  destruct e as [[src|] lbl]; cbv beta iota; cbn [image window results].
  - destruct (extractText_ready (engine env) (Some src) default_options p t Hi)
      as [o [evs' H]].
    rewrite (H evs). cbn. destruct o as [r|m]; cbn.
    + unfold has_text. destruct (truthy (text r) && truthy (trim (text r))); cbn;
        rewrite ?app_nil_r; eexists; repeat split.
    + rewrite ?app_nil_r. eexists; repeat split.
  - cbn. rewrite ?app_nil_r. eexists; repeat split.
Qed.

Lemma ocr_loop_run (env : Env) (l : list ImageEntry) :
  forall (i : nat) (acc : list string) (s : ExtractState) (p : Processor),
    OCRProcessor (window s) = Some p -> isInitialized p = true ->
    exists s',
      ocr_loop env i l acc s
      = (Ok (acc ++ flat_map (fun e => text_of (ocr_alone env (window s) e)) l), s')
      /\ images (results s')
         = images (results s) ++ map (fun e => attempt_of e (ocr_alone env (window s) e)) l
      /\ errors (results s') = errors (results s) ++ failures_from env (window s) i l
      /\ selectableText (results s') = selectableText (results s)
      /\ ocrText (results s') = ocrText (results s)
      /\ same_adapter (window s) (window s').
Proof.
  induction l as [|e l IH]; intros i acc s p Hp Hi.
  - exists s. cbn. rewrite !app_nil_r. repeat split.
  - destruct (ocr_step_run env i e acc s p Hp Hi) as [s1 [Hs [Him [Her [Hsel [Hocr [Hsp Hst]]]]]]].
    assert (Hp1 : OCRProcessor (window s1) = Some p) by congruence.
    destruct (IH (S i) (acc ++ text_of (ocr_alone env (window s) e)) s1 p Hp1 Hi)
      as [s' [Hl [Him' [Her' [Hsel' [Hocr' [Hsp' Hst']]]]]]].
    assert (Hsame : forall x, ocr_alone env (window s1) x = ocr_alone env (window s) x).
    { intros x. symmetry. apply (ocr_alone_same env _ _ p); [assumption..|split; assumption]. }
    exists s'. cbn [ocr_loop flat_map map failures_from]. unfold bind at 1.
    rewrite Hs, Hl, Him', Him, Her', Her, Hsel', Hsel, Hocr', Hocr.
    rewrite <- !app_assoc. cbn [app].
    replace (flat_map (fun x => text_of (ocr_alone env (window s1) x)) l)
      with (flat_map (fun x => text_of (ocr_alone env (window s) x)) l)
      by (apply flat_map_ext; intros; now rewrite Hsame).
    replace (map (fun x => attempt_of x (ocr_alone env (window s1) x)) l)
      with (map (fun x => attempt_of x (ocr_alone env (window s) x)) l)
      by (apply map_ext; intros; now rewrite Hsame).
    replace (failures_from env (window s1) (S i) l)
      with (failures_from env (window s) (S i) l).
    + repeat split; unfold same_adapter in *; try congruence.
    + clear - Hsame. generalize (S i). induction l as [|x l IHl]; intros n; cbn;
        [reflexivity|]. now rewrite IHl, Hsame.
Qed.

(** With the engine global defined, or the engine script loading,
    initialisation succeeds and leaves the adapter ready. *)
Lemma initialize_ready (eng : Engine) (w : Window) (p : Processor) :
  OCRProcessor w = Some p ->
  Tesseract w = true \/ cdn eng = ScriptLoads true ->
  exists lang evs,
    initialize eng None w
    = (Ok tt, {| OCRProcessor := Some {| tesseract := true; isInitialized := true;
                                         currentLanguage := lang |};
                 Tesseract := true;
                 events := evs |}).
Proof.
  intros Hp Ht. destruct w as [p0 t evs]. cbn in Hp, Ht. subst.
  unfold initialize, loadLanguagePreference, loadTesseractFromCDN, this, try_catch,
    bind, get, ret, modify, record_event, set_processor, set_Tesseract.
  destruct t; [|destruct Ht as [Ht | Ht]; [discriminate|]];
    cbn; rewrite ?Ht;
    (destruct (storedLanguage eng) as [l|]; [destruct (truthy l)|]); cbn;
    eexists; eexists; reflexivity.
Qed.

Lemma length_pos_nonempty {A : Type} (l : list A) : l <> [] -> (0 <? List.length l) = true.
Proof. destruct l; [congruence|reflexivity]. Qed.

Lemma join_nil_or (sep : string) (l : list string) (old : string) :
  old = "" ->
  (if 0 <? List.length l then join sep l else old) = join sep l.
Proof. intros ->. destruct l; reflexivity. Qed.

(** Making sure the adapter is defined: the script is injected when it
    is not. *)
Lemma ensure_processor_run (env : Env) (s : ExtractState) :
  OCRProcessor (window s) <> None \/ ocrScript env = ScriptLoads true ->
  (match OCRProcessor (window s) with
   | None => loadOCRScript env
   | Some _ => ret tt
   end) s
  = (Ok tt, {| results := results s; window := window_with_processor (window s) |})
  /\ exists p, OCRProcessor (window_with_processor (window s)) = Some p.
Proof.
  intros H. destruct s as [rs [p t evs]]. unfold window_with_processor. cbn [window results OCRProcessor].
  destruct p as [p|].
  - split; [reflexivity|]. exists p. reflexivity.
  - destruct H as [H | H]; [now contradiction H|].
    unfold loadOCRScript, bind, get, liftW, modify. cbn. rewrite H. cbn.
    split; [reflexivity|]. exists new_OCRProcessor. reflexivity.
Qed.

(** The OCR step of a call in which the adapter and the engine are or
    get loaded: every entry of [imageDataArray] gets its turn. *)
Lemma ocr_stage_run (env : Env) (sel : SelectionData) (s : ExtractState) :
  detectImagesInSelection (page env) sel <> [] ->
  OCRProcessor (window s) <> None \/ ocrScript env = ScriptLoads true ->
  Tesseract (window s) = true \/ cdn (engine env) = ScriptLoads true ->
  let w1 := snd (initialize (engine env) None (window_with_processor (window s))) in
  let imgs := extractImagesForOCR env sel in
  exists s',
    ocr_stage env sel s = (Ok tt, s')
    /\ images (results s')
       = images (results s) ++ map (fun e => attempt_of e (ocr_alone env w1 e)) imgs
    /\ errors (results s') = errors (results s) ++ failures_from env w1 0 imgs
    /\ ocrText (results s')
       = (if 0 <? List.length (flat_map (fun e => text_of (ocr_alone env w1 e)) imgs)
          then join (rep LF 2) (flat_map (fun e => text_of (ocr_alone env w1 e)) imgs)
          else ocrText (results s))
    /\ selectableText (results s') = selectableText (results s).
Proof.
  intros Hd Hp Ht w1 imgs.
  destruct (ensure_processor_run env s Hp) as [He [p Hp0]].
  assert (Ht0 : Tesseract (window_with_processor (window s)) = true
                \/ cdn (engine env) = ScriptLoads true).
  { destruct Ht as [Ht | Ht]; [left | now right].
    unfold window_with_processor. destruct (OCRProcessor (window s)); assumption. }
  destruct (initialize_ready (engine env) _ p Hp0 Ht0) as [lang [evs Hinit]].
  assert (Hw1 : w1 = {| OCRProcessor := Some {| tesseract := true; isInitialized := true;
                                               currentLanguage := lang |};
                        Tesseract := true;
                        events := evs |}).
  { unfold w1. now rewrite Hinit. }
  unfold ocr_stage. rewrite (length_pos_nonempty _ Hd).
  unfold bind at 1. unfold get at 1.
  unfold bind at 1. rewrite He.
  unfold bind at 1. unfold get at 1. cbn [window]. rewrite Hp0.
  unfold bind at 1. unfold try_catch, liftW. cbn [window results]. rewrite Hinit.
  unfold bind at 1. unfold isReady, this, bind, get, ret. cbn [window OCRProcessor
    isInitialized tesseract andb].
  fold imgs. cbn [results]. rewrite <- Hw1.
  destruct (ocr_loop_run env imgs 0 [] {| results := results s; window := w1 |}
              {| tesseract := true; isInitialized := true; currentLanguage := lang |})
    as [s' [Hl [Him [Her [Hsel [Hocr _]]]]]];
    [rewrite Hw1; reflexivity | reflexivity |].
  cbn [window results app] in Hl, Him, Her, Hsel, Hocr. rewrite Hl.
  destruct (0 <? List.length (flat_map (fun e => text_of (ocr_alone env w1 e)) imgs)).
  - eexists. unfold set_ocrText, update_results, modify. split; [reflexivity|].
    cbn. repeat split; assumption.
  - exists s'. repeat split; assumption.
Qed.

Lemma In_failures_from (env : Env) (w : Window) (l : list ImageEntry) :
  forall (i N : nat) (e : ImageEntry) (m : string),
    nth_error l N = Some e -> ocr_alone env w e = Throw m ->
    In (ErrorObject (Some (i + N + 1)) (Some (entry_label e))
          (message_or m "Unknown error") "ocr_failure")
       (failures_from env w i l).
Proof.
  induction l as [|x l IH]; intros i N e m Hn Ho.
  - destruct N; discriminate.
  - destruct N as [|N]; cbn in Hn |- *.
    + inversion Hn; subst. rewrite Ho. cbn. left. now rewrite Nat.add_0_r.
    + apply in_or_app. right.
      replace (i + S N + 1) with (S i + N + 1) by lia. now apply IH.
Qed.

(** ** C4: the 30-second bound, and empty text *)

(** C4.  For every image and all options, handed to an initialised
    adapter with a language set, once the image is ready for the engine
    (its preprocessing, when asked for, has succeeded): if the engine has
    not settled 30000 ms after the call - it hangs, or settles later than
    that - the call fails with the time-out error, whatever the engine
    would have answered; and if the engine answers in time with a text
    that is empty or white space only, the call succeeds with the empty
    text, confidence 0 and a warning. *)
Theorem extractText_timeout_and_empty (eng : Engine) (w : Window) (p : Processor)
    (src : ImageSource) (options : ExtractOptions) (processedImage : Processed) :
  OCRProcessor w = Some p ->
  isInitialized p = true ->
  Tesseract w = true ->
  let lang := str_or (opt_lang options) (currentLanguage p) in
  truthy lang = true ->
  processedImage_of eng src (opt_default (opt_preprocess options) true)
    (opt_default (opt_preprocessOptions options) no_options) = Ok processedImage ->
  let run := recognize eng processedImage lang in
  (run = Hangs \/ (exists t o, run = Settles t o /\ (30000 < t)%Z) ->
   fst (extractText eng (Some src) options w)
   = Throw "OCR processing timed out. The image may be too large or complex.")
  /\
  (forall t d,
     run = Settles t (Ok (Some d)) -> (t <= 30000)%Z ->
     truthy (trim (str_or (data_text d) "")) = false ->
     exists ms,
       fst (extractText eng (Some src) options w)
       = Ok {| text := ""; confidence := 0; processingTime := ms;
               warning := Some "No text found in image" |}).
Proof.
  intros Hp Hi Ht lang Hl Hc run. destruct w as [p0 t0 evs]. cbn in Hp, Ht. subst p0 t0.
  unfold extractText, this, bind, get, ret, try_catch, throw, lift_result, modify.
  cbn. rewrite Hi. cbn. rewrite Hc. cbn. fold lang. rewrite Hl. cbn. fold lang. fold run.
  split.
  - intros [Hr | [t [o [Hr Hlt]]]]; rewrite Hr; cbn.
    + reflexivity.
    + replace (t <=? ocrTimeout)%Z with false
        by (symmetry; apply Z.leb_gt; unfold ocrTimeout; lia).
      reflexivity.
  - intros t d Hr Hle He. rewrite Hr. cbn.
    replace (t <=? ocrTimeout)%Z with true
      by (symmetry; apply Z.leb_le; unfold ocrTimeout; lia).
    rewrite He. cbn. eexists. reflexivity.
Qed.

Lemma extractText_timeout_and_empty_witness :
  let eng := Sample.engine_by_width in
  let w := Sample.ready_window in
  (* a raster 50 wide: the engine hangs *)
  (processedImage_of eng (SrcImage Sample.img_B) true no_options
   = Ok (ProcessedCanvas {| canvas_width := 50; canvas_height := 50; canvas_data := [] |})
   /\ recognize eng (ProcessedCanvas {| canvas_width := 50; canvas_height := 50;
                                        canvas_data := [] |}) "eng+spa+fra" = Hangs
   /\ fst (extractText eng (Some (SrcImage Sample.img_B)) default_options w)
      = Throw "OCR processing timed out. The image may be too large or complex.")
  /\
  (* a blank canvas: the engine answers a space after 400 ms *)
  (processedImage_of eng (SrcCanvas "offscreen" 300 250) true no_options
   = Ok (ProcessedCanvas {| canvas_width := 300; canvas_height := 250;
                            canvas_data := [] |})
   /\ exists ms,
        fst (extractText eng (Some (SrcCanvas "offscreen" 300 250)) default_options w)
        = Ok {| text := ""; confidence := 0; processingTime := ms;
                warning := Some "No text found in image" |}).
Proof.
  intros eng w. split.
  - split; [reflexivity|]. split; [reflexivity|].
    apply (proj1 (extractText_timeout_and_empty eng w
                    {| tesseract := true; isInitialized := true;
                       currentLanguage := "eng+spa+fra" |}
                    (SrcImage Sample.img_B) default_options
                    (ProcessedCanvas {| canvas_width := 50; canvas_height := 50;
                                        canvas_data := [] |})
                    eq_refl eq_refl eq_refl eq_refl eq_refl)).
    left. reflexivity.
  - split; [reflexivity|].
    apply (proj2 (extractText_timeout_and_empty eng w
                    {| tesseract := true; isInitialized := true;
                       currentLanguage := "eng+spa+fra" |}
                    (SrcCanvas "offscreen" 300 250) default_options
                    (ProcessedCanvas {| canvas_width := 300; canvas_height := 250;
                                        canvas_data := [] |})
                    eq_refl eq_refl eq_refl eq_refl eq_refl)
             400%Z {| data_text := Some " "; data_confidence := Some 10%Q |}).
    + reflexivity.
    + unfold Z.le. discriminate.
    + reflexivity.
Defined.

(** ** C10: channel values stay within 0..255 *)

Lemma Qltb_true (a b : Q) : Qltb a b = true <-> (a < b)%Q.
Proof.
  unfold Qltb. rewrite negb_true_iff. split.
  - intros H. apply Qnot_le_lt. intros Hle. apply Qle_bool_iff in Hle. congruence.
  - intros H. destruct (Qle_bool b a) eqn:E; [|reflexivity].
    apply Qle_bool_iff in E. exfalso. apply (Qlt_not_le _ _ H E).
Qed.

Lemma Qltb_false (a b : Q) : Qltb a b = false <-> (b <= a)%Q.
Proof.
  unfold Qltb. rewrite negb_false_iff. apply Qle_bool_iff.
Qed.

Lemma Qle_bool_false (a b : Q) : Qle_bool a b = false -> (b < a)%Q.
Proof.
  intros H. apply Qnot_le_lt. intros Hle. apply Qle_bool_iff in Hle. congruence.
Qed.

(** The clamp of the contrast step: within bounds for any average and
    any channel value. *)
Lemma contrast_value_range (avg : Q) (v : Z) :
  (0 <= contrast_value avg v <= 255)%Q.
Proof.
  unfold contrast_value. split.
  - apply Q.min_glb; [discriminate | apply Q.le_max_l].
  - apply Q.le_min_l.
Qed.

Lemma in_byte_Q (z : Z) : in_byte z -> (0 <= inject_Z z <= 255)%Q.
Proof.
  intros [H0 H1]. split.
  - change 0%Q with (inject_Z 0). now rewrite <- Zle_Qle.
  - change 255%Q with (inject_Z 255). now rewrite <- Zle_Qle.
Qed.

(** The luminance of a pixel is a channel value: the weights sum to one. *)
Lemma gray_value_range (r g b : Z) :
  in_byte r -> in_byte g -> in_byte b -> in_byte (gray_value r g b).
Proof.
  intros Hr Hg Hb.
  apply in_byte_Q in Hr, Hg, Hb.
  unfold gray_value, Math_round, in_byte. split.
  - change 0%Z with (Qfloor 0). apply Qfloor_resp_le. lra.
  - change 255%Z with (Qfloor (511 # 2)). apply Qfloor_resp_le. lra.
Qed.

(** A store into the array yields a channel value, whatever is stored. *)
Lemma toUint8Clamped_range (q : Q) : in_byte (toUint8Clamped q).
Proof.
  unfold toUint8Clamped, in_byte.
  destruct (Qle_bool q 0) eqn:E0; [lia|].
  destruct (Qle_bool 255 q) eqn:E1; [lia|].
  apply Qle_bool_false in E0, E1.
  assert (H0 : (0 <= Qfloor q)%Z).
  { change 0%Z with (Qfloor 0). apply Qfloor_resp_le. lra. }
  assert (H1 : (Qfloor q < 255)%Z).
  { rewrite Zlt_Qlt. pose proof (Qfloor_le q). change (inject_Z 255) with 255%Q. lra. }
  destruct (Qltb _ _); [lia|]. destruct (Qltb _ _); [lia|].
  destruct (Z.even _); lia.
Qed.

(** A channel value is stored as it is. *)
Lemma toUint8Clamped_exact (z : Z) : in_byte z -> toUint8Clamped (inject_Z z) = z.
Proof.
  intros Hz. pose proof (in_byte_Q z Hz) as [Hq0 Hq1].
  unfold toUint8Clamped.
  destruct (Qle_bool (inject_Z z) 0) eqn:E0.
  - apply Qle_bool_iff in E0. change 0%Q with (inject_Z 0) in E0.
    rewrite <- Zle_Qle in E0. unfold in_byte in Hz. lia.
  - destruct (Qle_bool 255 (inject_Z z)) eqn:E1.
    + apply Qle_bool_iff in E1. change 255%Q with (inject_Z 255) in E1.
      rewrite <- Zle_Qle in E1. unfold in_byte in Hz. lia.
    + rewrite Qfloor_Z.
      replace (Qltb (inject_Z z - inject_Z z) (1 # 2)) with true; [reflexivity|].
      symmetry. apply Qltb_true. lra.
Qed.

Lemma grayscale_step_range (gs : bool) (r g b : Z) :
  in_byte r -> in_byte g -> in_byte b ->
  let '(r', g', b') := grayscale_step gs (r, g, b) in
  in_byte r' /\ in_byte g' /\ in_byte b'.
Proof.
  intros Hr Hg Hb. unfold grayscale_step. destruct gs; [|auto].
  repeat split; apply toUint8Clamped_range.
Qed.

Lemma contrast_step_range (ec : bool) (r g b : Z) :
  in_byte r -> in_byte g -> in_byte b ->
  let '(r', g', b') := contrast_step ec (r, g, b) in
  in_byte r' /\ in_byte g' /\ in_byte b'.
Proof.
  intros Hr Hg Hb. unfold contrast_step. destruct ec; [|auto].
  repeat split; apply toUint8Clamped_range.
Qed.

Lemma process_pixels_range (gs ec : bool) (n : nat) :
  forall data, List.length data <= n ->
    Forall in_byte data -> Forall in_byte (process_pixels gs ec data).
Proof.
  induction n as [|n IH]; intros data Hlen Hall.
  - destruct data; [constructor | cbn in Hlen; lia].
  - destruct data as [|r [|g [|b [|a rest]]]]; try exact Hall.
    inversion Hall as [|? ? Hr H1]; subst. inversion H1 as [|? ? Hg H2]; subst.
    inversion H2 as [|? ? Hb H3]; subst. inversion H3 as [|? ? Ha H4]; subst.
    cbn [process_pixels].
    pose proof (grayscale_step_range gs r g b Hr Hg Hb) as Hgs.
    destruct (grayscale_step gs (r, g, b)) as [[r1 g1] b1].
    destruct Hgs as [Hr1 [Hg1 Hb1]].
    pose proof (contrast_step_range ec r1 g1 b1 Hr1 Hg1 Hb1) as Hcs.
    destruct (contrast_step ec (r1, g1, b1)) as [[r2 g2] b2].
    destruct Hcs as [Hr2 [Hg2 Hb2]].
    do 4 (apply Forall_cons; [assumption|]).
    apply IH; [cbn in Hlen; lia | assumption].
Qed.

(** C10.  For every image source and all preprocessing options: for
    every pixel whose channels are channel values, every value the loop
    hands to the array - the luminance and the three clamped contrast
    values - lies within [0, 255] before the array converts it; every
    entry of the array after the loop lies within [0, 255]; and so does
    every entry of the raster [preprocessImage] returns, the canvas
    reading back channel values. *)
Theorem preprocess_channels_in_range (options : PreprocessOptions) :
  let gs := opt_default (grayscale options) true in
  let ec := opt_default (enhanceContrast options) true in
  (forall r g b, in_byte r -> in_byte g -> in_byte b ->
     Forall (fun q => 0 <= q <= 255)%Q (pixel_writes gs ec r g b))
  /\ (forall data, Forall in_byte data -> Forall in_byte (process_pixels gs ec data))
  /\ (forall getImageData imageSource canvas,
        (forall w h data, getImageData imageSource w h = Ok data -> Forall in_byte data) ->
        preprocessImage getImageData imageSource options = Ok canvas ->
        Forall in_byte (canvas_data canvas)).
Proof.
  intros gs ec.
  assert (Hloop : forall g e data,
             Forall in_byte data -> Forall in_byte (process_pixels g e data)).
  { intros g e data. apply (process_pixels_range g e (List.length data)). lia. }
  split; [|split].
  - intros r g b Hr Hg Hb. unfold pixel_writes. apply Forall_app. split.
    + destruct gs; [|constructor].
      pose proof (in_byte_Q _ (gray_value_range r g b Hr Hg Hb)).
      do 3 (apply Forall_cons; [assumption|]). constructor.
    + destruct ec; [|constructor].
      destruct (grayscale_step gs (r, g, b)) as [[d0 d1] d2].
      do 3 (apply Forall_cons; [apply contrast_value_range|]). constructor.
  - apply Hloop.
  - intros getImageData imageSource canvas Hread Hpre.
    unfold preprocessImage in Hpre.
    destruct (sourceDimensions imageSource) as [[sw sh]|e]; [|discriminate].
    destruct (getImageData imageSource _ _) as [data|e] eqn:Hd; [|discriminate].
    inversion Hpre; subst. cbn [canvas_data]. apply Hread in Hd.
    destruct (_ || _); [apply Hloop|]; assumption.
Qed.

(** A pixel, evaluated: with both toggles on the pixel becomes its
    luminance; with the contrast step alone a bright red is clamped. *)
Example preprocess_pixel_examples :
  process_pixels true true [200; 100; 50; 255]%Z = [124; 124; 124; 255]%Z
  /\ process_pixels false true [255; 0; 0; 255]%Z = [255; 0; 0; 255]%Z
  /\ process_pixels false true [250; 130; 10; 77]%Z = [255; 130; 0; 77]%Z.
Proof. vm_compute. repeat split. Qed.

(** ** C2: the 10-pixel threshold of the candidate images *)

Lemma detect_imgs_In (s : Rect) (info : ImageInfo) (imgs : list ImgElement) :
  forall index, In info (detect_imgs s index imgs) ->
    info_kind info = NativeImg
    /\ (10 < iwidth (intersection info))%Q
    /\ (10 < iheight (intersection info))%Q.
Proof.
  induction imgs as [|img rest IH]; intros index Hin; cbn in Hin; [contradiction|].
  apply in_app_or in Hin. destruct Hin as [Hin | Hin]; [|eapply IH; eassumption].
  unfold detect_img in Hin.
  destruct (overlaps _ _); [|contradiction].
  destruct (Qgtb _ 10 && Qgtb _ 10) eqn:E; [|contradiction].
  destruct Hin as [<- | []]. apply andb_true_iff in E. destruct E as [Ew Eh].
  unfold Qgtb in Ew, Eh. apply Qltb_true in Ew, Eh. cbn. auto.
Qed.

Lemma detect_background_In (s : Rect) (info : ImageInfo) (els : list PointElement) :
  In info (flat_map (detect_background s) els) -> info_kind info = BackgroundImage.
Proof.
  intros Hin. apply in_flat_map in Hin. destruct Hin as [el [_ Hin]].
  unfold detect_background in Hin.
  destruct (pe_bgUrl el); [|contradiction].
  destruct (overlaps _ _); [|contradiction].
  destruct Hin as [<- | []]. reflexivity.
Qed.

(** The part of C2 the code keeps: a native image is a candidate only
    if its intersection with the selection is more than 10 wide and more
    than 10 high. *)
Lemma native_candidates_above_threshold (page : Page) (sel : SelectionData)
    (info : ImageInfo) :
  In info (detectImagesInSelection page sel) ->
  info_kind info = NativeImg ->
  (10 < iwidth (intersection info))%Q /\ (10 < iheight (intersection info))%Q.
Proof.
  intros Hin Hk. unfold detectImagesInSelection in Hin.
  apply in_app_or in Hin. destruct Hin as [Hin | Hin].
  - apply detect_imgs_In in Hin. tauto.
  - apply detect_background_In in Hin. congruence.
Qed.

(** C2, where the code departs from it: over a banner with a background
    image, a selection 8 by 8 gets the banner as a candidate, with an
    intersection 8 wide and 8 high. *)
Theorem background_candidate_below_threshold :
  map (fun info => (info_kind info, info_src info,
                    Qred (iwidth (intersection info)),
                    Qred (iheight (intersection info)),
                    Qgtb (iwidth (intersection info)) 10
                    && Qgtb (iheight (intersection info)) 10))
      (detectImagesInSelection Sample.page_banner (Sample.selection 0 0 8 8))
  = [(BackgroundImage, "bg.png", 8%Q, 8%Q, false)].
Proof. vm_compute. reflexivity. Qed.

(** ** C5: which releases of the button reach the extraction *)

(** What the release of the button does.  If the rectangle of the
    selection box is at most 5 wide or at most 5 high, the selection is
    cancelled: the overlay is removed, the extractor is not called, no
    message is sent and the window is untouched.  If it is more than 5
    wide and more than 5 high, it is handed on.  With the extractor
    loaded, the extractor is called once, with exactly this rectangle, and
    the handler returns while the extraction is in flight: nothing is sent
    yet, and the overlay and its box are still there.  Without it, the
    bare rectangle is sent and the overlay is removed. *)
Theorem mouse_up_threshold (loaded : bool)
    (layout : SelectionBox -> DOMRect) (scrollX scrollY : Q)
    (event : MouseEvent) (t : Tab) (box : SelectionBox) :
  isSelectionModeActive (overlay t) = true ->
  isSelecting (overlay t) = true ->
  selectionBox (overlay t) = Some box ->
  let rect := layout box in
  let sel := selectionData_of scrollX scrollY rect in
  exists t',
    handleMouseUp loaded layout scrollX scrollY event t = (Ok tt, t')
    /\ isSelecting (overlay t') = false
    /\ isSelectionModeActive (overlay t') = true
    /\ tab_window t' = tab_window t
    /\ ((rect_width rect <= 5 \/ rect_height rect <= 5)%Q ->
        selectionOverlay (overlay t') = false
        /\ selectionBox (overlay t') = None
        /\ extractCalls t' = extractCalls t
        /\ sent t' = sent t
        /\ pending t' = pending t)
    /\ ((5 < rect_width rect /\ 5 < rect_height rect)%Q ->
        if loaded then
          extractCalls t' = extractCalls t ++ [sel]
          /\ pending t' = pending t ++ [sel]
          /\ sent t' = sent t
          /\ selectionOverlay (overlay t') = selectionOverlay (overlay t)
          /\ selectionBox (overlay t') = Some box
          /\ loadingIndicator (overlay t') = true
        else
          extractCalls t' = extractCalls t
          /\ pending t' = pending t
          /\ sent t' = sent t ++ [SelectionComplete sel]
          /\ selectionOverlay (overlay t') = false
          /\ selectionBox (overlay t') = None).
Proof.
  intros Ha Hs Hb rect sel.
  destruct t as [[a s x0 y0 ov b li] w ms calls pend].
  cbn [overlay isSelectionModeActive isSelecting selectionBox] in Ha, Hs, Hb. subst a s b.
  unfold handleMouseUp. unfold bind at 1. unfold get at 1.
  cbn [overlay isSelectionModeActive isSelecting selectionBox negb orb].
  fold rect. fold sel.
  change (width sel) with (rect_width rect). change (height sel) with (rect_height rect).
  destruct (Qgtb (rect_width rect) 5 && Qgtb (rect_height rect) 5) eqn:E.
  - (* handed on *)
    apply andb_true_iff in E. destruct E as [Ew Eh]. unfold Qgtb in Ew, Eh.
    apply Qltb_true in Ew, Eh.
    unfold handleSelectionComplete, start_extractTextFromSelection.
    destruct loaded;
      unfold bind, set_isSelecting, set_loadingIndicator, removeSelectionOverlay,
        try_catch, sendMessage, modify, set_overlay; cbn;
      (eexists; split; [reflexivity|]; cbn;
       do 3 (split; [reflexivity|]); split;
       [ intros [Hle | Hle]; exfalso; lra | intros _; repeat split ]).
  - (* cancelled *)
    apply andb_false_iff in E.
    unfold bind, set_isSelecting, removeSelectionOverlay, modify, set_overlay; cbn.
    eexists; split; [reflexivity|]; cbn.
    do 3 (split; [reflexivity|]). split.
    + intros _. repeat split.
    + intros [Hw Hh]. exfalso.
      destruct E as [E | E]; unfold Qgtb in E; apply Qltb_false in E; lra.
Qed.

Lemma mouse_up_threshold_witness :
  let t := Sample.dragging 10 10 210 110 in
  let box := {| style_left := 10; style_top := 10;
                style_width := 210 - 10; style_height := 110 - 10;
                style_display := true |} in
  let rect := Sample.layout_of_style box in
  let sel := selectionData_of 0 0 rect in
  selectionBox (overlay t) = Some box
  /\ exists t',
       handleMouseUp true Sample.layout_of_style 0 0 (Sample.release 210 110) t = (Ok tt, t')
       /\ isSelecting (overlay t') = false
       /\ isSelectionModeActive (overlay t') = true
       /\ tab_window t' = tab_window t
       /\ ((rect_width rect <= 5 \/ rect_height rect <= 5)%Q ->
           selectionOverlay (overlay t') = false
           /\ selectionBox (overlay t') = None
           /\ extractCalls t' = extractCalls t
           /\ sent t' = sent t
           /\ pending t' = pending t)
       /\ ((5 < rect_width rect /\ 5 < rect_height rect)%Q ->
           extractCalls t' = extractCalls t ++ [sel]
           /\ pending t' = pending t ++ [sel]
           /\ sent t' = sent t
           /\ selectionOverlay (overlay t') = selectionOverlay (overlay t)
           /\ selectionBox (overlay t') = Some box
           /\ loadingIndicator (overlay t') = true).
Proof.
  intros t box rect sel. split; [reflexivity|].
  apply (mouse_up_threshold true Sample.layout_of_style 0 0
           (Sample.release 210 110) t box); reflexivity.
Defined.


(** C5, where the code departs from it: a drag from (10, 10) to
    (15, 15) gives a rectangle 5 wide and 5 high, which is not below the
    5px threshold - the manual asks for "at least 5x5 pixels" - and yet
    the release cancels: the overlay is removed, the extractor is not
    called and nothing is sent. *)
Theorem five_by_five_is_cancelled :
  let before := Sample.dragging 10 10 15 15 in
  let after := Sample.drag 10 10 15 15 in
  option_map (fun box => (Qred (rect_width (Sample.layout_of_style box)),
                          Qred (rect_height (Sample.layout_of_style box))))
             (selectionBox (overlay before)) = Some (5%Q, 5%Q)
  /\ Qltb 5 5 = false
  /\ selectionOverlay (overlay after) = false
  /\ extractCalls after = []
  /\ sent after = [].
Proof. vm_compute. repeat split. Qed.

(** The scenarios of the specification: a drag of 3 by 3 never reaches
    the extractor; a drag of 200 by 100 over "Hello world" reaches it
    once, and its result is sent when the extraction has settled. *)
Example drag_scenarios :
  extractCalls (Sample.drag 10 10 13 13) = []
  /\ sent (Sample.drag 10 10 13 13) = []
  /\ selectionOverlay (overlay (Sample.drag 10 10 13 13)) = false
  /\ List.length (extractCalls (Sample.drag 0 0 200 100)) = 1
  /\ sent (Sample.drag 0 0 200 100) = []
  /\ map (fun m => match m with
                   | TextExtractionComplete r _ =>
                       (selectableText r, combinedText r,
                        List.length (images r), List.length (errors r))
                   | _ => ("", "", 0, 0)
                   end)
         (sent (snd (extractionSettles Sample.env_hello 0 (Sample.drag 0 0 200 100))))
     = [("Hello world", "Hello world", 0, 0)].
Proof. vm_compute. repeat split. Qed.

(** ** C8: the normalisation of the selectable text *)

Lemma occurs_append (c : ascii) (a b : string) :
  occurs c (a +++ b) = occurs c a || occurs c b.
Proof. induction a; simpl; [reflexivity|]. now rewrite IHa, orb_assoc. Qed.

Lemma occurs_rep_other (c d : ascii) (n : nat) :
  Ascii.eqb d c = false -> occurs c (rep d n) = false.
Proof. intros H. induction n; simpl; [reflexivity|]. now rewrite H. Qed.

Lemma occurs_trimStart (c : ascii) (s : string) :
  occurs c s = false -> occurs c (trimStart s) = false.
Proof.
  induction s as [|d r IH]; intros H; simpl; [reflexivity|].
  destruct (is_ws d); [|assumption].
  apply IH. simpl in H. apply orb_false_iff in H. tauto.
Qed.

Lemma occurs_trimEnd (c : ascii) (s : string) :
  occurs c s = false -> occurs c (trimEnd s) = false.
Proof.
  induction s as [|d r IH]; intros H; simpl; [reflexivity|].
  simpl in H. apply orb_false_iff in H. destruct H as [H1 H2].
  destruct (is_ws d && is_empty (trimEnd r)); simpl; [reflexivity|].
  now rewrite H1, IH.
Qed.

Lemma occurs_trim (c : ascii) (s : string) :
  occurs c s = false -> occurs c (trim s) = false.
Proof. intros H. unfold trim. now apply occurs_trimEnd, occurs_trimStart. Qed.

(** After [replace(/c/g, d)] no [c] is left, when [d] is another character. *)
Lemma replace_char_removes (c d : ascii) (s : string) :
  Ascii.eqb d c = false -> occurs c (replace_char c (String d "") s) = false.
Proof.
  intros H. induction s as [|e r IH]; simpl; [reflexivity|].
  destruct (Ascii.eqb e c) eqn:E; simpl.
  - now rewrite H, IH.
  - now rewrite E, IH.
Qed.

(** Line endings: no carriage return is left in the normalised text. *)
Lemma normalize_no_CR (s : string) : occurs CR (normalizeSelectable s) = false.
Proof.
  unfold normalizeSelectable. apply occurs_trim.
  now apply replace_char_removes.
Qed.

(** A replacement that leaves a string without the character alone. *)
Lemma replace_char_absent (c : ascii) (repl s : string) :
  occurs c s = false -> replace_char c repl s = s.
Proof.
  induction s as [|e r IH]; intros H; simpl; [reflexivity|].
  simpl in H. apply orb_false_iff in H. destruct H as [H1 H2].
  now rewrite H1, IH.
Qed.

Lemma replace_crlf_absent (s : string) :
  occurs CR s = false -> replace_crlf s = s.
Proof.
  induction s as [|c r IH]; intros H; [reflexivity|].
  simpl in H. apply orb_false_iff in H. destruct H as [H1 H2].
  cbn [replace_crlf]. destruct r as [|c2 r2]; [reflexivity|].
  rewrite H1. cbn [andb]. now rewrite (IH H2).
Qed.

Lemma occurs_flush_run (c d : ascii) (k j run : nat) :
  Ascii.eqb d c = false -> occurs c (flush_run d k (rep d j) run) = false.
Proof.
  intros H. unfold flush_run. destruct (k <=? run); now apply occurs_rep_other.
Qed.

Lemma occurs_replace_runs_from (c d : ascii) (k j : nat) (s : string) :
  Ascii.eqb d c = false ->
  forall run, occurs c (replace_runs_from d k (rep d j) run s) = occurs c s.
Proof.
  intros H. induction s as [|e r IH]; intros run; simpl.
  - now apply occurs_flush_run.
  - destruct (Ascii.eqb e d) eqn:E.
    + rewrite IH. apply Ascii.eqb_eq in E. subst e. now rewrite H.
    + rewrite occurs_append, occurs_flush_run by assumption. simpl. now rewrite IH.
Qed.

Lemma occurs_replace_char_other (c d e : ascii) (s : string) :
  Ascii.eqb d c = false -> Ascii.eqb e c = false ->
  occurs c (replace_char d (String e "") s) = occurs c s.
Proof.
  intros Hd He. induction s as [|a r IH]; simpl; [reflexivity|].
  destruct (Ascii.eqb a d) eqn:E; simpl.
  - rewrite He, IH. apply Ascii.eqb_eq in E. subst a. now rewrite Hd.
  - now rewrite IH.
Qed.

Lemma leading_replace_char_other (c d e : ascii) (s : string) :
  Ascii.eqb d c = false -> Ascii.eqb e c = false ->
  leading c (replace_char d (String e "") s) = leading c s.
Proof.
  intros Hd He. induction s as [|a r IH]; simpl; [reflexivity|].
  destruct (Ascii.eqb a d) eqn:E; simpl.
  - rewrite He. apply Ascii.eqb_eq in E. subst a. now rewrite Hd.
  - now rewrite IH.
Qed.

Lemma has_run_replace_char_other (c d e : ascii) (n : nat) (s : string) :
  0 < n -> Ascii.eqb d c = false -> Ascii.eqb e c = false ->
  has_run c n (replace_char d (String e "") s) = has_run c n s.
Proof.
  intros Hn Hd He. induction s as [|a r IH]; [reflexivity|].
  pose proof (leading_replace_char_other c d e (String a r) Hd He) as Hl.
  cbn [replace_char] in Hl |- *.
  destruct (Ascii.eqb a d) eqn:E.
  - cbn [String.append] in Hl |- *. cbn [has_run]. now rewrite Hl, IH.
  - cbn [has_run]. now rewrite Hl, IH.
Qed.

(** Blank lines, for text that has line feeds only: no run of three
    newlines - no two consecutive blank lines - is left. *)
Lemma normalize_LF_text_no_three_newlines (s : string) :
  occurs CR s = false -> has_run LF 3 (normalizeSelectable s) = false.
Proof.
  intros H. unfold normalizeSelectable.
  assert (H1 : occurs CR (replace_char TAB " " (replace_runs LF 3 (rep LF 2) s)) = false).
  { rewrite occurs_replace_char_other by reflexivity.
    unfold replace_runs. now rewrite occurs_replace_runs_from by reflexivity. }
  rewrite (replace_crlf_absent _ H1), (replace_char_absent _ _ _ H1).
  apply has_run_trim; [lia|].
  rewrite has_run_replace_char_other by (reflexivity || lia).
  apply replace_runs_no_run; lia.
Qed.

(** C8, where the code departs from it: the runs of newlines are
    collapsed before the line endings are converted, so a paragraph whose
    lines are separated by four Windows line breaks comes out with four
    consecutive newlines - three blank lines. *)
Theorem crlf_blank_lines_survive :
  extractSelectableText Sample.page_crlf (Sample.selection 0 0 200 100)
  = "a" +++ rep LF 4 +++ "b"
  /\ has_run LF 3 (extractSelectableText Sample.page_crlf (Sample.selection 0 0 200 100))
     = true.
Proof. vm_compute. split; reflexivity. Qed.

Lemma trimStart_decompose (s : string) :
  exists a, s = a +++ trimStart s /\ sforall is_ws a = true.
Proof.
  induction s as [|d r [a [Ha Hw]]]; simpl.
  - exists "". auto.
  - destruct (is_ws d) eqn:E.
    + exists (String d a). simpl. rewrite E, Hw. split; [congruence|reflexivity].
    + exists "". auto.
Qed.

Lemma is_empty_true (s : string) : is_empty s = true -> s = "".
Proof. destruct s; [reflexivity|discriminate]. Qed.

Lemma trimEnd_decompose (s : string) :
  exists b, s = trimEnd s +++ b /\ sforall is_ws b = true.
Proof.
  induction s as [|d r [b [Hb Hw]]]; simpl.
  - exists "". auto.
  - destruct (is_ws d && is_empty (trimEnd r)) eqn:E.
    + apply andb_true_iff in E. destruct E as [E1 E2].
      apply is_empty_true in E2. rewrite E2 in Hb. simpl in Hb. subst b.
      exists (String d r). simpl. rewrite E1, Hw. auto.
    + exists b. simpl. split; [congruence|assumption].
Qed.

(** [trim] removes white space from the two ends, and nothing else. *)
Lemma trim_decompose (s : string) :
  exists a b, s = a +++ trim s +++ b
              /\ sforall is_ws a = true /\ sforall is_ws b = true.
Proof.
  destruct (trimStart_decompose s) as [a [Ha Hwa]].
  destruct (trimEnd_decompose (trimStart s)) as [b [Hb Hwb]].
  exists a, b. unfold trim. rewrite <- Hb. auto.
Qed.

Lemma trimEnd_idempotent (s : string) : trimEnd (trimEnd s) = trimEnd s.
Proof.
  induction s as [|d r IH]; simpl; [reflexivity|].
  destruct (is_ws d && is_empty (trimEnd r)) eqn:E; simpl; [reflexivity|].
  now rewrite IH, E.
Qed.

Lemma trimStart_trimEnd (s : string) :
  trimStart s = s -> trimStart (trimEnd s) = trimEnd s.
Proof.
  destruct s as [|d r]; simpl; [reflexivity|].
  destruct (is_ws d) eqn:E.
  - intros H. exfalso.
    destruct (trimStart_decompose r) as [a [Ha _]].
    assert (Hlen : String.length (trimStart r) <= String.length r).
    { rewrite Ha at 2. clear. induction a; simpl; lia. }
    rewrite H in Hlen. simpl in Hlen. lia.
  - intros _. simpl. now rewrite E.
Qed.

Lemma trimStart_idempotent (s : string) : trimStart (trimStart s) = trimStart s.
Proof.
  induction s as [|d r IH]; simpl; [reflexivity|].
  destruct (is_ws d) eqn:E; [assumption|]. simpl. now rewrite E.
Qed.

Lemma trim_idempotent (s : string) : trim (trim s) = trim s.
Proof.
  unfold trim. rewrite trimStart_trimEnd by apply trimStart_idempotent.
  apply trimEnd_idempotent.
Qed.

(** Trimming: the normalised text has no white space at either end. *)
Lemma normalize_trimmed (s : string) :
  trim (normalizeSelectable s) = normalizeSelectable s.
Proof. unfold normalizeSelectable. apply trim_idempotent. Qed.

Lemma sfilter_append (keep : ascii -> bool) (a b : string) :
  sfilter keep (a +++ b) = sfilter keep a +++ sfilter keep b.
Proof.
  induction a as [|d r IH]; simpl; [reflexivity|].
  destruct (keep d); simpl; now rewrite IH.
Qed.

Lemma sforall_sfilter (p keep : ascii -> bool) (s : string) :
  sforall p s = true -> sforall p (sfilter keep s) = true.
Proof.
  induction s as [|d r IH]; simpl; [reflexivity|].
  intros H. apply andb_true_iff in H. destruct H as [H1 H2].
  destruct (keep d); simpl; [rewrite H1|]; auto.
Qed.

Lemma sfilter_rep_LF (n : nat) : sfilter not_line_break (rep LF n) = "".
Proof. induction n; simpl; [reflexivity|assumption]. Qed.

Lemma sfilter_replace_runs_from (k j : nat) (s : string) :
  forall run,
    sfilter not_line_break (replace_runs_from LF k (rep LF j) run s)
    = sfilter not_line_break s.
Proof.
  induction s as [|d r IH]; intros run.
  - cbn [replace_runs_from]. unfold flush_run.
    destruct (k <=? run); apply sfilter_rep_LF.
  - cbn [replace_runs_from]. destruct (Ascii.eqb d LF) eqn:E.
    + rewrite IH. apply Ascii.eqb_eq in E. subst d. reflexivity.
    + rewrite sfilter_append. unfold flush_run at 1.
      replace (sfilter not_line_break (if k <=? run then rep LF j else rep LF run))
        with "" by (destruct (k <=? run); symmetry; apply sfilter_rep_LF).
      cbn [String.append sfilter]. now rewrite IH.
Qed.

Lemma replace_crlf_step (c c2 : ascii) (r2 : string) :
  replace_crlf (String c (String c2 r2))
  = if Ascii.eqb c CR && Ascii.eqb c2 LF
    then String LF (replace_crlf r2)
    else String c (replace_crlf (String c2 r2)).
Proof. reflexivity. Qed.

Lemma sfilter_replace_crlf (s : string) :
  sfilter not_line_break (replace_crlf s) = sfilter not_line_break s.
Proof.
  assert (H : forall n s, String.length s <= n ->
                sfilter not_line_break (replace_crlf s) = sfilter not_line_break s).
  { clear s. induction n as [|n IH]; intros s Hlen.
    - destruct s; [reflexivity | simpl in Hlen; lia].
    - destruct s as [|c [|c2 r2]]; [reflexivity | reflexivity |].
      rewrite replace_crlf_step.
      destruct (Ascii.eqb c CR && Ascii.eqb c2 LF) eqn:E.
      + apply andb_true_iff in E. destruct E as [E1 E2].
        apply Ascii.eqb_eq in E1, E2. subst c c2.
        change (sfilter not_line_break (String LF (replace_crlf r2)))
          with (sfilter not_line_break (replace_crlf r2)).
        change (sfilter not_line_break (String CR (String LF r2)))
          with (sfilter not_line_break r2).
        apply IH. simpl in Hlen. lia.
      + change (sfilter not_line_break (String c (replace_crlf (String c2 r2))))
          with (if not_line_break c
                then String c (sfilter not_line_break (replace_crlf (String c2 r2)))
                else sfilter not_line_break (replace_crlf (String c2 r2))).
        rewrite (IH (String c2 r2)) by (simpl in Hlen |- *; lia).
        reflexivity. }
  apply (H (String.length s)). lia.
Qed.

Lemma sfilter_replace_CR (s : string) :
  sfilter not_line_break (replace_char CR (String LF "") s) = sfilter not_line_break s.
Proof.
  induction s as [|d r IH]; simpl; [reflexivity|].
  destruct (Ascii.eqb d CR) eqn:E.
  - apply Ascii.eqb_eq in E. subst d. cbn. exact IH.
  - cbn [sfilter]. now rewrite IH.
Qed.

Lemma sfilter_replace_TAB (s : string) :
  sfilter not_line_break (replace_char TAB " " s)
  = replace_char TAB " " (sfilter not_line_break s).
Proof.
  induction s as [|d r IH]; simpl; [reflexivity|].
  destruct (Ascii.eqb d TAB) eqn:E.
  - apply Ascii.eqb_eq in E. subst d. cbn. now rewrite IH.
  - cbn [sfilter]. destruct (not_line_break d); cbn [replace_char]; rewrite ?E, IH;
      reflexivity.
Qed.

(** Spacing: apart from the white space trimmed at the two ends, the
    characters of the normalised text that are not line breaks are those
    of the joined text, tabs turned into spaces - no space is dropped or
    merged. *)
Lemma normalize_keeps_spacing (s : string) :
  exists a b,
    replace_char TAB " " (sfilter not_line_break s)
    = a +++ sfilter not_line_break (normalizeSelectable s) +++ b
    /\ sforall is_ws a = true /\ sforall is_ws b = true.
Proof.
  unfold normalizeSelectable.
  set (X := replace_char CR (String LF "") _).
  destruct (trim_decompose X) as [a [b [HX [Ha Hb]]]].
  exists (sfilter not_line_break a), (sfilter not_line_break b).
  split; [|split; now apply sforall_sfilter].
  rewrite <- !sfilter_append, <- HX. unfold X.
  rewrite sfilter_replace_CR, sfilter_replace_crlf, sfilter_replace_TAB.
  unfold replace_runs. now rewrite sfilter_replace_runs_from.
Qed.

(** ** C6: the merge, and its collapse of newlines *)

Lemma replace_runs_from_other (c d : ascii) (k : nat) (repl : string) (n : nat) (b : string) :
  0 < k -> Ascii.eqb d c = false ->
  replace_runs_from c k repl 0 (rep d n +++ b)
  = rep d n +++ replace_runs_from c k repl 0 b.
Proof.
  intros Hk Hd. induction n as [|n IH]; [reflexivity|].
  cbn [rep append replace_runs_from]. rewrite Hd, (flush_run_zero c k repl Hk), IH.
  reflexivity.
Qed.

Lemma runs_maximal (s : string) : maximal_runs (runs s).
Proof.
  induction s as [|c r IH]; [exact I|]. cbn [runs].
  destruct (runs r) as [|[d n] rest] eqn:E.
  - cbn. repeat split. lia.
  - destruct (Ascii.eqb c d) eqn:Ec.
    + cbn [maximal_runs] in *. destruct IH as (Hn & Hd & Hr). repeat split; [lia|assumption..].
    + cbn [maximal_runs] in *. repeat split; try lia; try apply IH.
      rewrite Ascii.eqb_sym. exact Ec.
Qed.

Lemma unruns_runs (s : string) : unruns (runs s) = s.
Proof.
  induction s as [|c r IH]; [reflexivity|]. cbn [runs].
  destruct (runs r) as [|[d n] rest] eqn:E.
  - cbn in *. now rewrite <- IH.
  - destruct (Ascii.eqb c d) eqn:Ec.
    + apply Ascii.eqb_eq in Ec. subst d. cbn [unruns rep append] in *. now rewrite IH.
    + cbn [unruns rep append] in *. now rewrite IH.
Qed.

Lemma leading_unruns (c : ascii) (rest : list (ascii * nat)) :
  match rest with
  | [] => True
  | (d, _) :: _ => Ascii.eqb d c = false
  end ->
  maximal_runs rest ->
  leading c (unruns rest) = 0.
Proof.
  destruct rest as [|[d m] rest]; intros Hd Hm; [reflexivity|].
  cbn [maximal_runs] in Hm. destruct Hm as (Hpos & _).
  destruct m as [|m]; [lia|]. cbn [unruns rep append leading]. now rewrite Hd.
Qed.

Lemma replace_runs_unruns (l : list (ascii * nat)) :
  maximal_runs l ->
  replace_runs_from LF 4 (rep LF 3) 0 (unruns l) = unruns (map cap_newlines l).
Proof.
  induction l as [|[c n] rest IH]; intros Hm; [reflexivity|].
  cbn [maximal_runs] in Hm. destruct Hm as (Hn & Hd & Hr).
  cbn [unruns map cap_newlines]. destruct (Ascii.eqb c LF) eqn:Ec.
  - apply Ascii.eqb_eq in Ec. subst c.
    rewrite replace_runs_from_rep; [|lia | now apply leading_unruns].
    rewrite (IH Hr). cbn [andb plus]. unfold flush_run.
    destruct (4 <=? n); reflexivity.
  - rewrite replace_runs_from_other; [|lia | assumption].
    rewrite (IH Hr). reflexivity.
Qed.

(** The replacement [replace(/\n{4,}/g, '\n\n\n')] does what the
    specification asks of the collapse. *)
Lemma replace_runs_collapse_spec (s : string) :
  replace_runs LF 4 (rep LF 3) s = collapse_newlines_spec s.
Proof.
  unfold replace_runs, collapse_newlines_spec.
  rewrite <- (unruns_runs s) at 1. apply replace_runs_unruns, runs_maximal.
Qed.

Lemma trim_empty_of_empty (s : string) : truthy s = false -> truthy (trim s) = false.
Proof. destruct s; [reflexivity | discriminate]. Qed.

Lemma combine_merge_spec (selectable ocr : string) :
  combine selectable ocr = merge_spec selectable ocr.
Proof.
  unfold combine, merge_spec. rewrite replace_runs_collapse_spec.
  do 3 f_equal. cbn [filter].
  destruct (truthy selectable) eqn:Es; destruct (truthy ocr) eqn:Eo; cbn [andb];
    rewrite ?(trim_empty_of_empty _ Es), ?(trim_empty_of_empty _ Eo);
    destruct (truthy (trim selectable)); destruct (truthy (trim ocr)); reflexivity.
Qed.



(** The collapse on a call: the engine reads two words five newlines
    apart; they are three newlines apart in [combinedText], below the text
    of the page. *)
Example five_newlines_become_three :
  let env := {| page := {| imgElements := [Sample.img_A];
                           elementsFromPoint := fun _ _ => [];
                           body := body Sample.page_hello |};
                engine := Sample.engine_far_apart;
                ocrScript := ScriptLoads true;
                fetchImage := fun _ => None;
                html2canvas := Some (Throw "no canvas") |} in
  option_map (fun r => (ocrText r, combinedText r))
    (match fst (extractTextFromSelection env (Sample.selection 0 0 200 100)
                  Sample.fresh_window) with
     | Ok r => Some r
     | Throw _ => None
     end)
  = Some ("ABC" +++ rep LF 5 +++ "DEF" +++ rep LF 2 +++ "ABC" +++ rep LF 5 +++ "DEF",
          "Hello world" +++ rep LF 2
          +++ "ABC" +++ rep LF 3 +++ "DEF" +++ rep LF 2 +++ "ABC" +++ rep LF 3 +++ "DEF").
Proof. vm_compute. reflexivity. Qed.

(** ** C3: the images handed on, their outcomes and the merged text *)

(** The images handed to the recognition are those of the candidates
    whose image can be had, in the order of detection: the image loaded
    anew or, when that fails, the [<img>] element itself. *)
Lemma kept_candidates (env : Env) (candidates : list ImageInfo) :
  Forall2 (fun info e =>
             entry_src e = Some (info_src info)
             /\ image e = match fetchImage env (info_src info) with
                          | Some img => Some (SrcImage img)
                          | None => option_map SrcImage (info_element info)
                          end)
          (filter (obtainable env) candidates)
          (flat_map (fun imageInfo =>
                       match getImageData env imageInfo with
                       | Ok imageData =>
                           [ {| image := Some imageData;
                                entry_src := Some (info_src imageInfo) |} ]
                       | Throw _ => []
                       end) candidates).
Proof.
  induction candidates as [|info rest IH]; [constructor|].
  cbn [filter flat_map]. unfold obtainable at 1, getImageData at 1.
  destruct (fetchImage env (info_src info)) as [img|] eqn:Ef.
  - cbn [app]. constructor; [|exact IH].
    cbn [entry_src image]. rewrite Ef. split; reflexivity.
  - destruct (info_element info) as [el|] eqn:Ee.
    + cbn [app]. constructor; [|exact IH].
      cbn [entry_src image]. rewrite Ef, Ee. split; reflexivity.
    + exact IH.
Qed.

(** C3 (as the code has it).  In every call over a selection with a
    candidate image in which the adapter and the engine are loaded, or
    load when asked for.  The images handed to the recognition are the
    candidates whose image can be had, in the order of detection, followed
    by the capture of the selection; a candidate whose image cannot be had
    is not among them.  [images] holds one entry per image handed on, in
    that order, each the record - success, empty-with-warning or failure -
    of what the adapter answers for that image on its own; [errors] holds,
    for each image that fails, its source identifier and its position
    among the images handed on, counted from one; the failure of an image
    changes nothing for the images before and after it, whose texts are
    joined, one blank line apart, into [ocrText], and merged with the text
    of the page into [combinedText]. *)
Theorem ocr_outcomes_in_order (env : Env) (sel : SelectionData) (w : Window) :
  detectImagesInSelection (page env) sel <> [] ->
  OCRProcessor w <> None \/ ocrScript env = ScriptLoads true ->
  Tesseract w = true \/ cdn (engine env) = ScriptLoads true ->
  let w1 := snd (initialize (engine env) None (window_with_processor w)) in
  let candidates := detectImagesInSelection (page env) sel in
  let imgs := extractImagesForOCR env sel in
  exists r w' kept capture,
    extractTextFromSelection env sel w = (Ok r, w')
    /\ imgs = kept ++ [capture]
    /\ Forall2 (fun info e =>
                  entry_src e = Some (info_src info)
                  /\ image e = match fetchImage env (info_src info) with
                               | Some img => Some (SrcImage img)
                               | None => option_map SrcImage (info_element info)
                               end)
               (filter (obtainable env) candidates) kept
    /\ entry_src capture = None
    /\ image capture <> None
    /\ images r = map (fun e => attempt_of e (ocr_alone env w1 e)) imgs
    /\ errors r = failures_from env w1 0 imgs
    /\ (forall N e m,
          nth_error imgs N = Some e -> ocr_alone env w1 e = Throw m ->
          nth_error (images r) N = Some (attempt_of e (Throw m))
          /\ In (ErrorObject (Some (N + 1)) (Some (entry_label e))
                   (message_or m "Unknown error") "ocr_failure") (errors r))
    /\ ocrText r = join (rep LF 2) (flat_map (fun e => text_of (ocr_alone env w1 e)) imgs)
    /\ combinedText r = merge_spec (selectableText r) (ocrText r).
Proof.
  intros Hd Hp Ht w1 candidates imgs.
  assert (Hshape : exists kept capture,
             imgs = kept ++ [capture]
             /\ Forall2 (fun info e =>
                           entry_src e = Some (info_src info)
                           /\ image e = match fetchImage env (info_src info) with
                                        | Some img => Some (SrcImage img)
                                        | None => option_map SrcImage (info_element info)
                                        end)
                        (filter (obtainable env) candidates) kept
             /\ entry_src capture = None
             /\ image capture <> None).
  { pose proof (kept_candidates env candidates) as Hk.
    unfold imgs, extractImagesForOCR, captureAreaWithCanvas, captureSelectionAsImage.
    fold candidates.
    destruct (html2canvas env) as [[c|e]|]; eexists; eexists;
      (split; [reflexivity|]; split; [exact Hk|]; split; [reflexivity | discriminate]). }
  destruct Hshape as (kept & capture & Hi & Hk & Hc1 & Hc2).
  unfold extractTextFromSelection, try_catch, extract_body.
  unfold bind at 1. unfold set_selectableText, update_results, modify.
  cbv beta iota.
  set (s1 := {| results := _; window := _ |}).
  destruct (ocr_stage_run env sel s1 Hd Hp Ht) as [s2 [Hs [Him [Her [Hocr Hsel]]]]].
  fold w1 imgs in Him, Her, Hocr. cbn [s1 window results images errors ocrText app] in *.
  unfold bind at 1. rewrite Hs.
  destruct (merge_stage_run s2) as [s3 [Hm [Hc [Him3 [Her3 [Hw3 [Hsel3 Hocr3]]]]]]].
  rewrite Hm. exists (results s3), (window s3), kept, capture.
  assert (Hocr' : ocrText (results s2)
                  = join (rep LF 2) (flat_map (fun e => text_of (ocr_alone env w1 e)) imgs)).
  { rewrite Hocr. now apply join_nil_or. }
  split; [reflexivity|]. split; [exact Hi|]. split; [exact Hk|].
  split; [exact Hc1|]. split; [exact Hc2|].
  rewrite Him3, Her3, Him, Her, Hc, Hsel3, Hocr3, Hocr'. cbn [empty_results images errors app].
  subst w1 imgs.
  split; [reflexivity|]. split; [reflexivity|]. split; [|split].
  - intros N e m Hn Ho. split.
    + rewrite nth_error_map, Hn. cbn [option_map]. now rewrite Ho.
    + apply (In_failures_from env _ _ 0 N e m); assumption.
  - reflexivity.
  - apply combine_merge_spec.
Qed.

Lemma ocr_outcomes_in_order_witness :
  let env := Sample.env_three_images in
  let sel := Sample.selection 0 0 300 250 in
  let w := Sample.fresh_window in
  detectImagesInSelection (page env) sel <> []
  /\ ocrScript env = ScriptLoads true
  /\ cdn (engine env) = ScriptLoads true
  /\ let w1 := snd (initialize (engine env) None (window_with_processor w)) in
     let candidates := detectImagesInSelection (page env) sel in
     let imgs := extractImagesForOCR env sel in
     exists r w' kept capture,
       extractTextFromSelection env sel w = (Ok r, w')
       /\ imgs = kept ++ [capture]
       /\ Forall2 (fun info e =>
                     entry_src e = Some (info_src info)
                     /\ image e = match fetchImage env (info_src info) with
                                  | Some img => Some (SrcImage img)
                                  | None => option_map SrcImage (info_element info)
                                  end)
                  (filter (obtainable env) candidates) kept
       /\ entry_src capture = None
       /\ image capture <> None
       /\ images r = map (fun e => attempt_of e (ocr_alone env w1 e)) imgs
       /\ errors r = failures_from env w1 0 imgs
       /\ (forall N e m,
             nth_error imgs N = Some e -> ocr_alone env w1 e = Throw m ->
             nth_error (images r) N = Some (attempt_of e (Throw m))
             /\ In (ErrorObject (Some (N + 1)) (Some (entry_label e))
                      (message_or m "Unknown error") "ocr_failure") (errors r))
       /\ ocrText r
          = join (rep LF 2) (flat_map (fun e => text_of (ocr_alone env w1 e)) imgs)
       /\ combinedText r = merge_spec (selectableText r) (ocrText r).
Proof.
  intros env sel w. split; [|split; [|split]].
  - vm_compute. discriminate.
  - reflexivity.
  - reflexivity.
  - apply (ocr_outcomes_in_order env sel w).
    + vm_compute. discriminate.
    + right. reflexivity.
    + right. reflexivity.
Defined.

(** C3 (as stated): the index of a failure is not that of the candidate.
    Two candidates are detected; the image of the first cannot be had,
    the recognition of the second times out.  The first candidate has no
    entry in [images] and none in [errors], and the failure of the second
    candidate is recorded with the index 1. *)
Lemma unobtainable_candidate_shifts_index :
  let env := Sample.env_two_backdrops in
  let sel := Sample.selection 0 0 100 100 in
  map info_src (detectImagesInSelection (page env) sel) = ["gone.png"; "slow.png"]
  /\ map entry_label (extractImagesForOCR env sel) = ["slow.png"; "selection-area"]
  /\ option_map (fun r => (map att_src (images r), errors r))
       (match fst (extractTextFromSelection env sel Sample.fresh_window) with
        | Ok r => Some r
        | Throw _ => None
        end)
     = Some (["slow.png"; "selection-area"],
             [ErrorObject (Some 1) (Some "slow.png")
                "OCR processing timed out. The image may be too large or complex."
                "ocr_failure"]).
Proof. vm_compute. repeat split. Qed.

(** A call with three images, evaluated: the second image times out,
    the first and the third are read, the blank capture of the selection
    yields a warning; the failure carries the index 2. *)
Example three_images_second_times_out :
  let r := match fst (extractTextFromSelection Sample.env_three_images
                        (Sample.selection 0 0 300 250) Sample.fresh_window) with
           | Ok r => r
           | Throw _ => empty_results
           end in
  map att_src (images r) = ["a.png"; "b.png"; "c.png"; "selection-area"]
  /\ map att_text (images r) = ["ABC"; ""; "DEF"; ""]
  /\ map att_error (images r)
     = [None;
        Some "OCR processing timed out. The image may be too large or complex.";
        None; None]
  /\ map att_warning (images r)
     = [None; None; None; Some "No text detected in image"]
  /\ errors r
     = [ErrorObject (Some 2) (Some "b.png")
          "OCR processing timed out. The image may be too large or complex."
          "ocr_failure"]
  /\ combinedText r = "ABC" +++ rep LF 2 +++ "DEF".
Proof. vm_compute. repeat split. Qed.

(** The text of the page and the texts of two images, merged: one blank
    line between the text of the page and the first image, one between the
    images. *)
Example page_text_and_images_merged :
  let env := {| page := {| imgElements := [Sample.img_A; Sample.img_C];
                           elementsFromPoint := fun _ _ => [];
                           body := body Sample.page_hello |};
                engine := Sample.engine_by_width;
                ocrScript := ScriptLoads true;
                fetchImage := fun _ => None;
                html2canvas := None |} in
  option_map (fun r => (selectableText r, ocrText r, combinedText r))
    (match fst (extractTextFromSelection env (Sample.selection 0 0 300 250)
                  Sample.fresh_window) with
     | Ok r => Some r
     | Throw _ => None
     end)
  = Some ("Hello world",
          "ABC" +++ rep LF 2 +++ "DEF",
          "Hello world" +++ rep LF 2 +++ "ABC" +++ rep LF 2 +++ "DEF").
Proof. vm_compute. reflexivity. Qed.

(** ** C9: the order of the text pieces, and the duplicates *)

Lemma array_includes_In (x : string) (l : list string) :
  array_includes x l = true <-> In x l.
Proof.
  unfold array_includes. rewrite existsb_exists. split.
  - intros [y [Hy He]]. apply String.eqb_eq in He. now subst.
  - intros H. exists x. split; [assumption | apply String.eqb_refl].
Qed.

(** The walker loop appends the text of the nodes in the order the
    walker returns them, duplicates included. *)
Lemma walker_loop_appends (nodes : list Node) :
  forall acc, fold_left push_text_node nodes acc = acc ++ flat_map text_of_node nodes.
Proof.
  induction nodes as [|n rest IH]; intros acc; cbn [fold_left flat_map].
  - now rewrite app_nil_r.
  - rewrite IH. destruct n as [rect t | rect ch]; cbn [push_text_node text_of_node].
    + destruct (truthy (trim t)); [now rewrite <- app_assoc | reflexivity].
    + reflexivity.
Qed.

Lemma push_point_element_cases (s : Rect) (acc : list string) (el : PointElement) :
  push_point_element s acc el
  = match fallback_text s el with
    | Some x => if array_includes x acc then acc else acc ++ [x]
    | None => acc
    end.
Proof.
  unfold push_point_element, fallback_text.
  destruct (overlaps _ s); cbn [andb]; [|reflexivity].
  destruct (truthy _ && truthy _); [|reflexivity].
  destruct (array_includes _ acc); reflexivity.
Qed.

(** The fallback loop appends each offered text that is not there yet. *)
Lemma fallback_loop_appends (s : Rect) (els : list PointElement) :
  forall acc, exists F,
    fold_left (push_point_element s) els acc = acc ++ F
    /\ NoDup F
    /\ (forall x, In x F -> ~ In x acc)
    /\ (forall x, In x F -> exists el, In el els /\ fallback_text s el = Some x)
    /\ (forall el x, In el els -> fallback_text s el = Some x -> In x (acc ++ F)).
Proof.
  induction els as [|el rest IH]; intros acc; cbn [fold_left].
  - exists []. rewrite app_nil_r. repeat split; try constructor; try contradiction.
  - rewrite push_point_element_cases.
    destruct (fallback_text s el) as [x|] eqn:Ex.
    + destruct (array_includes x acc) eqn:Ei.
      * destruct (IH acc) as [F [Hf [Hn [Hd [Hs Hall]]]]].
        exists F. split; [assumption|]. split; [assumption|]. split; [assumption|].
        split.
        -- intros y Hy. destruct (Hs y Hy) as [e [He1 He2]]. exists e. split; [now right|assumption].
        -- intros e y [<- | He] Hy.
           ++ rewrite Ex in Hy. inversion Hy; subst. apply in_or_app. left.
              now apply array_includes_In.
           ++ eapply Hall; eassumption.
      * destruct (IH (acc ++ [x])) as [F [Hf [Hn [Hd [Hs Hall]]]]].
        assert (Hx : ~ In x acc).
        { intros Hin. apply array_includes_In in Hin. congruence. }
        exists (x :: F). split; [now rewrite Hf, <- app_assoc|].
        split.
        { constructor; [|assumption]. intros Hin. apply (Hd x Hin).
          apply in_or_app. right. now left. }
        split.
        { intros y [<- | Hy]; [assumption|]. intros Hin. apply (Hd y Hy).
          apply in_or_app. now left. }
        split.
        { intros y [<- | Hy].
          - exists el. split; [now left|assumption].
          - destruct (Hs y Hy) as [e [He1 He2]]. exists e. split; [now right|assumption]. }
        intros e y [<- | He] Hy.
        -- rewrite Ex in Hy. inversion Hy; subst. apply in_or_app. right. now left.
        -- specialize (Hall e y He Hy). rewrite <- app_assoc in Hall. exact Hall.
    + destruct (IH acc) as [F [Hf [Hn [Hd [Hs Hall]]]]].
      exists F. split; [assumption|]. split; [assumption|]. split; [assumption|].
      split.
      * intros y Hy. destruct (Hs y Hy) as [e [He1 He2]]. exists e. split; [now right|assumption].
      * intros e y [<- | He] Hy; [congruence|]. eapply Hall; eassumption.
Qed.

Lemma NoDup_app_disjoint {A : Type} (l f : list A) :
  NoDup l -> NoDup f -> (forall x, In x f -> ~ In x l) -> NoDup (l ++ f).
Proof.
  intros Hl Hf Hd. induction l as [|a l IH]; cbn; [assumption|].
  inversion Hl; subst. constructor.
  - intros Hin. apply in_app_or in Hin. destruct Hin as [Hin | Hin]; [contradiction|].
    apply (Hd a Hin). now left.
  - apply IH; [assumption|]. intros x Hx Hin. apply (Hd x Hx). now right.
Qed.

(** The test of the walker on a text node is the test of the
    specification: a box with a width and a height that is not entirely to
    one side of the selection. *)
Lemma accept_text_node (s : Rect) (rect : DOMRect) (textContent : string) :
  acceptNode s (TextNode rect textContent)
  = if box_in_selection s rect then FILTER_ACCEPT
    else if Qgtb (rect_width rect) 0 && Qgtb (rect_height rect) 0 then FILTER_REJECT
    else FILTER_SKIP.
Proof.
  unfold acceptNode, box_in_selection, overlaps, Qgtb, Qltb, rect_right, rect_bottom.
  cbn [left right top bottom].
  destruct (Qle_bool (rect_width rect) 0); destruct (Qle_bool (rect_height rect) 0);
    cbn [negb andb]; try reflexivity.
  destruct (Qle_bool (left s) (rect_left rect + rect_width rect));
    destruct (Qle_bool (rect_left rect) (right s));
    destruct (Qle_bool (top s) (rect_top rect + rect_height rect));
    destruct (Qle_bool (rect_top rect) (bottom s)); reflexivity.
Qed.

(** The walker returns the text nodes in the selection in document
    order: an element that does not overlap the selection is skipped, not
    rejected, so the text nodes inside it are still visited. *)
Lemma walk_pieces (s : Rect) :
  forall node,
    flat_map text_of_node (walk s node)
    = flat_map (piece_of_text_node s) (text_nodes_below node).
Proof.
  fix IH 1. intros [rect textContent | rect children].
  - cbn [walk]. rewrite accept_text_node. cbn [text_nodes_below flat_map piece_of_text_node].
    destruct (box_in_selection s rect); cbn [andb].
    + cbn [flat_map text_of_node]. reflexivity.
    + destruct (Qgtb (rect_width rect) 0 && Qgtb (rect_height rect) 0); reflexivity.
  - assert (Hbelow :
              flat_map text_of_node
                ((fix walk_all (l : list Node) : list Node :=
                    match l with
                    | [] => []
                    | c :: cs => walk s c ++ walk_all cs
                    end) children)
              = flat_map (piece_of_text_node s)
                  ((fix all (l : list Node) : list (DOMRect * string) :=
                      match l with
                      | [] => []
                      | c :: cs => text_nodes_below c ++ all cs
                      end) children)).
    { induction children as [|c cs IHc]; [reflexivity|].
      rewrite !flat_map_app, (IH c), IHc. reflexivity. }
    cbn [walk text_nodes_below acceptNode].
    destruct (overlaps _ s); cbn [flat_map text_of_node app]; exact Hbelow.
Qed.

Lemma walker_pieces (s : Rect) (page : Page) :
  flat_map text_of_node (walker_nodes s page)
  = flat_map (piece_of_text_node s) (document_text_nodes page).
Proof.
  unfold walker_nodes, document_text_nodes.
  induction (body page) as [|node rest IH]; [reflexivity|].
  cbn [flat_map]. now rewrite !flat_map_app, walk_pieces, IH.
Qed.

(** C9 (as the code has it).  The collected pieces are, first, the
    trimmed texts of the text nodes of the page whose box has a width and
    a height and overlaps the selection and whose text is not blank, in
    document order and with their duplicates - whether the elements around
    a text node overlap the selection does not matter; then the texts
    offered by the elements at the centre of the selection, each appended
    only if it is not already there: the appended texts are pairwise
    distinct and distinct from the texts of the text nodes, every offered
    text is among the pieces, and if the texts of the text nodes are
    pairwise distinct so are the pieces. *)
Theorem text_pieces_order_and_fallback (page : Page) (sel : SelectionData) :
  let s := selectionRect sel in
  let fromNodes := flat_map (piece_of_text_node s) (document_text_nodes page) in
  let offered := elementsFromPoint page (centerX sel) (centerY sel) in
  exists fromFallback,
    collectTextElements page sel = fromNodes ++ fromFallback
    /\ NoDup fromFallback
    /\ (forall x, In x fromFallback -> ~ In x fromNodes)
    /\ (forall x, In x fromFallback ->
          exists el, In el offered /\ fallback_text s el = Some x)
    /\ (forall el x, In el offered -> fallback_text s el = Some x ->
          In x (collectTextElements page sel))
    /\ (NoDup fromNodes -> NoDup (collectTextElements page sel)).
Proof.
  intros s fromNodes offered. unfold collectTextElements. fold s. fold offered.
  rewrite walker_loop_appends. cbn [app]. rewrite walker_pieces. fold fromNodes.
  destruct (fallback_loop_appends s offered fromNodes) as [F [Hf [Hn [Hd [Hs Hall]]]]].
  exists F. rewrite Hf. repeat split; try assumption.
  intros HW. now apply NoDup_app_disjoint.
Qed.

(** The order on a page with nested elements: the text nodes come in
    document order, the one outside the selection and the one whose box
    has no height are left out, and the text inside the inner element
    comes where that element is. *)
Example nested_text_in_document_order :
  map snd (document_text_nodes Sample.page_nested) = ["A"; " B "; "C"; "E"; "F"; "D"]
  /\ collectTextElements Sample.page_nested (Sample.selection 0 0 300 100)
     = ["A"; "B"; "C"; "D"]
  /\ extractSelectableText Sample.page_nested (Sample.selection 0 0 300 100)
     = "A" +++ String LF ("B" +++ String LF ("C" +++ String LF "D")).
Proof. vm_compute. repeat split. Qed.

(** C9 (as stated): two paragraphs with the same text, up to the white
    space around it, give the same trimmed string twice. *)
Lemma same_text_twice_is_kept_twice :
  collectTextElements Sample.page_twice (Sample.selection 0 0 200 100) = ["Hi"; "Hi"]
  /\ extractSelectableText Sample.page_twice (Sample.selection 0 0 200 100)
     = "Hi" +++ String LF "Hi".
Proof. vm_compute. split; reflexivity. Qed.

(* ================================================================== *)
(** * Further properties of the code *)
(* ================================================================== *)

(** ** Image preprocessing: the size of the raster *)

Lemma Math_round_le (a b : Q) : (a <= b)%Q -> (Math_round a <= Math_round b)%Z.
Proof. intros H. unfold Math_round. apply Qfloor_resp_le. lra. Qed.

Lemma min_ratio_scale (maxW maxH sw sh : Q) :
  (0 < sw)%Q -> (0 < sh)%Q ->
  let scale := min_ratio (min_ratio 1 maxW sw) maxH sh in
  (sw * scale <= maxW)%Q /\ (sh * scale <= maxH)%Q /\ (scale <= 1)%Q.
Proof.
  intros Hsw Hsh scale. unfold scale, min_ratio.
  assert (Esw : Qeq_bool sw 0 = false).
  { destruct (Qeq_bool sw 0) eqn:E; [|reflexivity].
    apply Qeq_bool_iff in E. rewrite E in Hsw. exfalso. apply (Qlt_irrefl 0 Hsw). }
  assert (Esh : Qeq_bool sh 0 = false).
  { destruct (Qeq_bool sh 0) eqn:E; [|reflexivity].
    apply Qeq_bool_iff in E. rewrite E in Hsh. exfalso. apply (Qlt_irrefl 0 Hsh). }
  rewrite Esw, Esh.
  set (m1 := Qmin 1 (maxW / sw)).
  assert (H1 : (m1 <= 1)%Q) by apply Q.le_min_l.
  assert (H2 : (m1 <= maxW / sw)%Q) by apply Q.le_min_r.
  assert (H3 : (Qmin m1 (maxH / sh) <= m1)%Q) by apply Q.le_min_l.
  assert (H4 : (Qmin m1 (maxH / sh) <= maxH / sh)%Q) by apply Q.le_min_r.
  assert (Hw : (sw * (maxW / sw) == maxW)%Q).
  { apply Qmult_div_r. intros E. rewrite E in Hsw. apply (Qlt_irrefl 0 Hsw). }
  assert (Hh : (sh * (maxH / sh) == maxH)%Q).
  { apply Qmult_div_r. intros E. rewrite E in Hsh. apply (Qlt_irrefl 0 Hsh). }
  repeat split.
  - rewrite <- Hw. apply Qmult_le_l; [assumption|].
    apply (Qle_trans _ m1); assumption.
  - apply (Qle_trans _ (sh * (maxH / sh))).
    + apply Qmult_le_l; assumption.
    + rewrite Hh. apply Qle_refl.
  - apply (Qle_trans _ m1); assumption.
Qed.

(** X1.  The raster [preprocessImage] returns for a source of positive
    width and height is never wider than the (rounded) maximal width nor
    higher than the maximal height - 2000 by 2000 unless the options say
    otherwise - and never larger than the source: the image is scaled
    down to fit, and never scaled up. *)
Theorem preprocessImage_fits (getImageData : ImageSource -> Z -> Z -> result (list Z))
    (imageSource : ImageSource) (options : PreprocessOptions) (canvas : Canvas)
    (sourceWidth sourceHeight : Q) :
  sourceDimensions imageSource = Ok (sourceWidth, sourceHeight) ->
  (0 < sourceWidth)%Q -> (0 < sourceHeight)%Q ->
  preprocessImage getImageData imageSource options = Ok canvas ->
  (canvas_width canvas <= Math_round (opt_default (maxWidth options) 2000%Q))%Z
  /\ (canvas_height canvas <= Math_round (opt_default (maxHeight options) 2000%Q))%Z
  /\ (canvas_width canvas <= Math_round sourceWidth)%Z
  /\ (canvas_height canvas <= Math_round sourceHeight)%Z.
Proof.
  intros Hd Hw Hh Hp. unfold preprocessImage in Hp. rewrite Hd in Hp.
  destruct (getImageData imageSource _ _) as [data|e]; [|discriminate].
  inversion Hp; subst. cbn [canvas_width canvas_height].
  destruct (min_ratio_scale (opt_default (maxWidth options) 2000%Q)
              (opt_default (maxHeight options) 2000%Q) sourceWidth sourceHeight Hw Hh)
    as [H1 [H2 H3]].
  repeat split; apply Math_round_le; try assumption.
  - apply (Qle_trans _ (sourceWidth * 1)).
    + apply Qmult_le_l; assumption.
    + rewrite Qmult_1_r. apply Qle_refl.
  - apply (Qle_trans _ (sourceHeight * 1)).
    + apply Qmult_le_l; assumption.
    + rewrite Qmult_1_r. apply Qle_refl.
Qed.

Lemma preprocessImage_fits_witness :
  let read : ImageSource -> Z -> Z -> result (list Z) := fun _ _ _ => Ok [] in
  let src := SrcCanvas "photo" 4000 1000 in
  preprocessImage read src no_options
  = Ok {| canvas_width := 2000; canvas_height := 500; canvas_data := [] |}
  /\ (2000 <= Math_round 2000)%Z /\ (500 <= Math_round 2000)%Z
  /\ (2000 <= Math_round 4000)%Z /\ (500 <= Math_round 1000)%Z.
Proof.
  intros read src. split; [reflexivity|].
  apply (preprocessImage_fits read src no_options
           {| canvas_width := 2000; canvas_height := 500; canvas_data := [] |}
           4000 1000); reflexivity.
Defined.

(** ** Image preprocessing: what the pixel loop leaves alone *)

Lemma toUint8Clamped_comp (q q' : Q) :
  (q == q')%Q -> toUint8Clamped q = toUint8Clamped q'.
Proof.
  intros Hq. unfold toUint8Clamped, Qltb.
  assert (Ef : Qfloor q = Qfloor q') by now apply Qfloor_comp.
  assert (E0 : Qle_bool q 0%Q = Qle_bool q' 0%Q)
    by (apply Qleb_comp; [assumption | apply Qeq_refl]).
  assert (E1 : Qle_bool 255%Q q = Qle_bool 255%Q q')
    by (apply Qleb_comp; [apply Qeq_refl | assumption]).
  assert (Ed : (q - inject_Z (Qfloor q) == q' - inject_Z (Qfloor q'))%Q)
    by (rewrite Ef, Hq; apply Qeq_refl).
  assert (E2 : Qle_bool (1 # 2)%Q (q - inject_Z (Qfloor q))%Q
               = Qle_bool (1 # 2)%Q (q' - inject_Z (Qfloor q'))%Q)
    by (apply Qleb_comp; [apply Qeq_refl | assumption]).
  assert (E3 : Qle_bool (q - inject_Z (Qfloor q))%Q (1 # 2)%Q
               = Qle_bool (q' - inject_Z (Qfloor q'))%Q (1 # 2)%Q)
    by (apply Qleb_comp; [assumption | apply Qeq_refl]).
  now rewrite E0, E1, E2, E3, Ef.
Qed.

Lemma toUint8Clamped_Qeq (q : Q) (z : Z) :
  (q == inject_Z z)%Q -> in_byte z -> toUint8Clamped q = z.
Proof.
  intros Hq Hz. rewrite (toUint8Clamped_comp _ _ Hq).
  now apply toUint8Clamped_exact.
Qed.

Lemma contrast_of_gray (g : Z) :
  in_byte g -> (contrast_value (channel_avg g g g) g == inject_Z g)%Q.
Proof.
  intros Hg. pose proof (in_byte_Q g Hg) as [H0 H1].
  unfold contrast_value, channel_avg.
  set (v := ((inject_Z g + inject_Z g + inject_Z g) / 3
             + (inject_Z g - (inject_Z g + inject_Z g + inject_Z g) / 3) * (12 # 10))%Q).
  assert (Hv : (v == inject_Z g)%Q) by (unfold v; field).
  rewrite Hv. rewrite (Q.max_r 0 (inject_Z g)) by assumption.
  now rewrite Q.min_r.
Qed.

Lemma process_pixels_gray_contrast (data : list Z) (n : nat) :
  List.length data <= n -> Forall in_byte data ->
  process_pixels true true data = process_pixels true false data.
Proof.
  revert data. induction n as [|n IH]; intros data Hlen Hall.
  - destruct data; [reflexivity | cbn in Hlen; lia].
  - destruct data as [|r [|g [|b [|a rest]]]]; try reflexivity.
    inversion Hall as [|? ? Hr H1]; subst. inversion H1 as [|? ? Hg H2]; subst.
    inversion H2 as [|? ? Hb H3]; subst. inversion H3 as [|? ? Ha H4]; subst.
    cbn [process_pixels grayscale_step contrast_step].
    set (gray := toUint8Clamped (inject_Z (gray_value r g b))).
    assert (Hgray : in_byte gray) by apply toUint8Clamped_range.
    rewrite (toUint8Clamped_Qeq _ gray (contrast_of_gray gray Hgray) Hgray).
    rewrite (IH rest) by (assumption || (cbn in Hlen; lia)).
    reflexivity.
Qed.

(** X2.  With the grayscale conversion on, as it is by default, the
    contrast enhancement changes nothing: the three channels of a pixel
    are equal after the conversion, so their average is the channel value
    and the stretch around it is the identity. *)
Theorem contrast_after_grayscale_is_identity (data : list Z) :
  Forall in_byte data ->
  process_pixels true true data = process_pixels true false data.
Proof.
  intros H. apply (process_pixels_gray_contrast data (List.length data)); [lia|assumption].
Qed.

Lemma contrast_after_grayscale_is_identity_witness :
  Forall in_byte [200; 100; 50; 255]%Z
  /\ process_pixels true true [200; 100; 50; 255]%Z
     = process_pixels true false [200; 100; 50; 255]%Z.
Proof.
  split.
  - repeat constructor; discriminate.
  - apply (contrast_after_grayscale_is_identity [200; 100; 50; 255]%Z).
    repeat constructor; discriminate.
Defined.

Lemma process_pixels_alpha (gs ec : bool) (data : list Z) (n : nat) :
  List.length data <= n ->
  List.length (process_pixels gs ec data) = List.length data
  /\ forall k, nth_error (process_pixels gs ec data) (4 * k + 3) = nth_error data (4 * k + 3).
Proof.
  revert data. induction n as [|n IH]; intros data Hlen.
  - destruct data; [|cbn in Hlen; lia]. split; [reflexivity | intros; reflexivity].
  - destruct data as [|r [|g [|b [|a rest]]]];
      try (split; [reflexivity | intros; reflexivity]).
    cbn [process_pixels].
    destruct (contrast_step ec (grayscale_step gs (r, g, b))) as [[r' g'] b'].
    destruct (IH rest) as [Hl Hk]; [cbn in Hlen; lia|].
    split.
    + cbn [List.length]. now rewrite Hl.
    + intros [|k].
      * reflexivity.
      * replace (4 * S k + 3) with (S (S (S (S (4 * k + 3))))) by lia.
        cbn [nth_error]. apply Hk.
Qed.

(** X3.  The pixel loop keeps the length of the data and never touches
    the alpha channel: every fourth value, at the indices 3, 7, 11, ...,
    is after the loop what it was before. *)
Theorem process_pixels_keeps_alpha (gs ec : bool) (data : list Z) :
  List.length (process_pixels gs ec data) = List.length data
  /\ forall k, nth_error (process_pixels gs ec data) (4 * k + 3) = nth_error data (4 * k + 3).
Proof. apply (process_pixels_alpha gs ec data (List.length data)). lia. Qed.

(** ** The adapter: several images *)

Lemma multiple_loop_returns (eng : Engine) (options : ExtractOptions)
    (imageSources : list (option ImageSource)) :
  forall results w, exists entries w',
    extractTextFromMultiple_loop eng imageSources options results w
    = (Ok (results ++ entries), w')
    /\ List.length entries = List.length imageSources.
Proof.
  induction imageSources as [|imageSource rest IH]; intros results w.
  - exists [], w. split; [|reflexivity]. cbn. now rewrite app_nil_r.
  - cbn [extractTextFromMultiple_loop]. unfold bind, try_catch, ret.
    destruct (extractText eng imageSource options w) as [[r|message] w1].
    + destruct (IH (results ++ [Extracted r]) w1) as (entries & w' & E & L).
      exists (Extracted r :: entries), w'. rewrite E, <- app_assoc.
      split; [reflexivity | cbn; now rewrite L].
    + destruct (IH (results ++ [NotExtracted message]) w1) as (entries & w' & E & L).
      exists (NotExtracted message :: entries), w'. rewrite E, <- app_assoc.
      split; [reflexivity | cbn; now rewrite L].
Qed.

(** X4.  [extractTextFromMultiple] never throws, whatever the images and
    the state of the adapter: a failure of [extractText] on one image is
    caught and recorded, and the array returned has one entry per image. *)
Theorem extractTextFromMultiple_never_throws (eng : Engine)
    (imageSources : list (option ImageSource)) (options : ExtractOptions) (w : Window) :
  exists entries w',
    extractTextFromMultiple eng imageSources options w = (Ok entries, w')
    /\ List.length entries = List.length imageSources.
Proof.
  destruct (multiple_loop_returns eng options imageSources [] w) as (entries & w' & E & L).
  exists entries, w'. split; assumption.
Qed.

Lemma multiple_loop_ready (eng : Engine) (options : ExtractOptions)
    (p : Processor) (t : bool) (imageSources : list (option ImageSource)) :
  isInitialized p = true ->
  forall results evs, exists evs',
    extractTextFromMultiple_loop eng imageSources options results (mkWindow (Some p) t evs)
    = (Ok (results
           ++ map (fun src => entry_of_outcome
                                (fst (extractText eng src options (mkWindow (Some p) t evs))))
                  imageSources),
       mkWindow (Some p) t evs').
Proof.
  intros Hp. induction imageSources as [|imageSource rest IH]; intros results evs.
  - exists evs. cbn. now rewrite app_nil_r.
  - cbn [extractTextFromMultiple_loop map]. unfold bind, try_catch, ret.
    destruct (extractText_ready eng imageSource options p t Hp) as (o & evs1 & E).
    rewrite (E evs).
    destruct (IH (results ++ [entry_of_outcome o]) (evs ++ evs1)) as (evs' & E').
    exists evs'.
    assert (Hsame : forall src,
               fst (extractText eng src options (mkWindow (Some p) t (evs ++ evs1)))
               = fst (extractText eng src options (mkWindow (Some p) t evs))).
    { intros src. destruct (extractText_ready eng src options p t Hp) as (o' & evs2 & E2).
      now rewrite !E2. }
    destruct o as [r|message]; cbn [fst entry_of_outcome] in *;
      rewrite E', <- app_assoc; cbn [app];
      (erewrite map_ext; [reflexivity|]); intros src; cbv beta; now rewrite Hsame.
Qed.

(** X5.  Once the adapter is initialised, the entries of
    [extractTextFromMultiple] are, in order, what [extractText] answers for
    each image on its own: an image that fails does not change what the
    later ones give, and the adapter is left initialised. *)
Theorem extractTextFromMultiple_one_by_one (eng : Engine)
    (imageSources : list (option ImageSource)) (options : ExtractOptions)
    (w : Window) (p : Processor) :
  OCRProcessor w = Some p ->
  isInitialized p = true ->
  exists w',
    extractTextFromMultiple eng imageSources options w
    = (Ok (map (fun src => entry_of_outcome (fst (extractText eng src options w)))
               imageSources), w')
    /\ same_adapter w w'.
Proof.
  intros Hw Hp. destruct w as [op t evs]. cbn in Hw. subst op.
  destruct (multiple_loop_ready eng options p t imageSources Hp [] evs) as (evs' & E).
  exists (mkWindow (Some p) t evs'). split; [exact E | split; reflexivity].
Qed.

Lemma extractTextFromMultiple_one_by_one_witness :
  let eng := Sample.engine_by_width in
  let srcs := [Some (SrcImage Sample.img_A); Some (SrcImage Sample.img_B); None;
               Some (SrcImage Sample.img_C)] in
  exists w',
    extractTextFromMultiple eng srcs default_options Sample.ready_window
    = (Ok (map (fun src => entry_of_outcome
                             (fst (extractText eng src default_options Sample.ready_window)))
               srcs), w')
    /\ same_adapter Sample.ready_window w'.
Proof.
  intros eng srcs.
  apply (extractTextFromMultiple_one_by_one eng srcs default_options Sample.ready_window
           {| tesseract := true; isInitialized := true; currentLanguage := "eng+spa+fra" |});
    reflexivity.
Defined.

(** ** The adapter: language *)

(** X6.  After [setLanguage(lang)], the next [extractText] initialises the
    adapter again and recognises in [lang]: the language set is handed to
    [initialize], so a preference in the storage is not consulted. *)
Theorem setLanguage_takes_effect (eng : Engine) (w : Window) (p : Processor)
    (lang : string) (save storageAvailable : bool)
    (src : ImageSource) (processedImage : Processed) :
  OCRProcessor w = Some p ->
  Tesseract w = true ->
  truthy lang = true ->
  processedImage_of eng src true no_options = Ok processedImage ->
  let w1 := snd (setLanguage lang save storageAvailable w) in
  let w2 := snd (extractText eng (Some src) default_options w1) in
  events w2 = events w ++ [Initialize; Recognize lang]
  /\ OCRProcessor w2
     = Some {| tesseract := true; isInitialized := true; currentLanguage := lang |}.
Proof.
  intros Hw Ht Hl Hp. destruct w as [op t evs]. cbn in Hw, Ht. subst op t.
  destruct lang as [|c lang]; [discriminate|].
  unfold setLanguage, extractText, initialize, this, bind, get, modify, ret, throw,
    try_catch, lift_result.
  cbn [OCRProcessor Tesseract events set_processor record_event isInitialized
       currentLanguage negb snd fst opt_lang opt_preprocess opt_preprocessOptions
       default_options str_or truthy is_empty opt_default].
  rewrite Hp.
  cbn [OCRProcessor Tesseract events set_processor record_event isInitialized
       currentLanguage negb snd fst str_or truthy is_empty].
  destruct (recognize eng processedImage (String c lang)) as [after_ms outcome|];
    cbn [race_timeout].
  - destruct (after_ms <=? ocrTimeout)%Z; [destruct outcome as [[d|]|e]|];
      try destruct (negb (truthy (trim (str_or (data_text d) ""))));
      cbn [OCRProcessor events snd fst set_processor record_event Tesseract];
      rewrite <- app_assoc; split; reflexivity.
  - cbn [OCRProcessor events snd fst set_processor record_event Tesseract].
    rewrite <- app_assoc. split; reflexivity.
Qed.

Lemma setLanguage_takes_effect_witness :
  let eng := Sample.engine_by_width in
  let w := Sample.ready_window in
  let w1 := snd (setLanguage "spa" true true w) in
  let w2 := snd (extractText eng (Some (SrcImage Sample.img_A)) default_options w1) in
  events w2 = events w ++ [Initialize; Recognize "spa"]
  /\ OCRProcessor w2
     = Some {| tesseract := true; isInitialized := true; currentLanguage := "spa" |}.
Proof.
  intros eng w.
  apply (setLanguage_takes_effect eng w
           {| tesseract := true; isInitialized := true; currentLanguage := "eng+spa+fra" |}
           "spa" true true (SrcImage Sample.img_A)
           (ProcessedCanvas {| canvas_width := 200; canvas_height := 100;
                               canvas_data := [] |}));
    reflexivity.
Defined.

Ltac init_cases :=
  cbn; unfold set_processor, set_Tesseract, record_event; cbn;
  rewrite <- ?app_assoc; repeat split; intros;
  try discriminate; try congruence;
  match goal with
  | H : Some _ = Some _ |- _ => injection H as <-; try discriminate; reflexivity
  end.

(** X7.  [initialize()] without a language takes the preference in the
    storage when there is one, the current language of the adapter
    otherwise, and all three languages when that is empty; the engine
    script is fetched only when the engine is not defined yet. *)
Theorem initialize_resolves_language (eng : Engine) (w : Window) (p : Processor) :
  OCRProcessor w = Some p ->
  Tesseract w = true \/ cdn eng = ScriptLoads true ->
  exists lang,
    initialize eng None w
    = (Ok tt,
       {| OCRProcessor := Some {| tesseract := true; isInitialized := true;
                                  currentLanguage := lang |};
          Tesseract := true;
          events := events w
                    ++ Initialize :: (if Tesseract w then [] else [LoadTesseractFromCDN]) |})
    /\ (forall l, storedLanguage eng = Some l -> truthy l = true -> lang = l)
    /\ (str_or (storedLanguage eng) "" = "" ->
        truthy (currentLanguage p) = true -> lang = currentLanguage p)
    /\ (str_or (storedLanguage eng) "" = "" ->
        currentLanguage p = "" -> lang = "eng+spa+fra").
Proof.
  intros Hw Ht. destruct w as [op t evs]. cbn in Hw, Ht. subst op.
  unfold initialize, loadLanguagePreference, loadTesseractFromCDN, this, bind, get,
    modify, ret, throw, try_catch.
  cbn [OCRProcessor Tesseract events set_processor record_event str_or truthy is_empty negb].
  destruct (storedLanguage eng) as [[|c l]|] eqn:Hs;
    cbn [truthy is_empty negb OCRProcessor Tesseract events set_processor record_event
         currentLanguage str_or].
  - (* an empty preference *)
    destruct (currentLanguage p) as [|c l] eqn:Hc;
      cbn [truthy is_empty negb OCRProcessor Tesseract events set_processor record_event].
    + exists "eng+spa+fra". destruct t.
      * init_cases.
      * destruct Ht as [Ht|Ht]; [discriminate|]. rewrite Ht.
        init_cases.
    + exists (String c l). destruct t.
      * init_cases.
      * destruct Ht as [Ht|Ht]; [discriminate|]. rewrite Ht.
        init_cases.
  - (* a preference *)
    exists (String c l). destruct t.
    + init_cases.
    + destruct Ht as [Ht|Ht]; [discriminate|]. rewrite Ht.
      init_cases.
  - (* no preference *)
    destruct (currentLanguage p) as [|c l] eqn:Hc;
      cbn [truthy is_empty negb OCRProcessor Tesseract events set_processor record_event].
    + exists "eng+spa+fra". destruct t.
      * init_cases.
      * destruct Ht as [Ht|Ht]; [discriminate|]. rewrite Ht.
        init_cases.
    + exists (String c l). destruct t.
      * init_cases.
      * destruct Ht as [Ht|Ht]; [discriminate|]. rewrite Ht.
        init_cases.
Qed.

Lemma initialize_resolves_language_witness :
  let eng := Sample.engine_ABC in
  let w := set_processor new_OCRProcessor Sample.fresh_window in
  exists lang,
    initialize eng None w
    = (Ok tt,
       {| OCRProcessor := Some {| tesseract := true; isInitialized := true;
                                  currentLanguage := lang |};
          Tesseract := true;
          events := events w
                    ++ Initialize :: (if Tesseract w then [] else [LoadTesseractFromCDN]) |})
    /\ (forall l, storedLanguage eng = Some l -> truthy l = true -> lang = l)
    /\ (str_or (storedLanguage eng) "" = "" ->
        truthy (currentLanguage new_OCRProcessor) = true ->
        lang = currentLanguage new_OCRProcessor)
    /\ (str_or (storedLanguage eng) "" = "" ->
        currentLanguage new_OCRProcessor = "" -> lang = "eng+spa+fra").
Proof.
  intros eng w.
  apply (initialize_resolves_language eng w new_OCRProcessor);
    [reflexivity | right; reflexivity].
Defined.

(** ** The adapter: what [extractText] throws *)

Section ThrowsOnly.

Context {S : Type} (P : string -> Prop).

Lemma throws_only_ret {A : Type} (a : A) : throws_only P (@ret S A a).
Proof. intros s e s' H. discriminate. Qed.

Lemma throws_only_get : throws_only P (@get S).
Proof. intros s e s' H. discriminate. Qed.

Lemma throws_only_modify (g : S -> S) : throws_only P (modify g).
Proof. intros s e s' H. discriminate. Qed.

Lemma throws_only_throw {A : Type} (message : string) :
  P message -> throws_only P (@throw S A message).
Proof. intros HP s e s' H. inversion H. now subst. Qed.

Lemma throws_only_bind {A B : Type} (m : M S A) (k : A -> M S B) :
  throws_only P m -> (forall a, throws_only P (k a)) -> throws_only P (bind m k).
Proof.
  intros Hm Hk s e s' H. apply bind_Throw in H. destruct H as [H | (a & s1 & _ & H)].
  - now apply (Hm s e s').
  - now apply (Hk a s1 e s').
Qed.

Lemma throws_only_try_catch {A : Type} (m : M S A) (h : string -> M S A) :
  (forall e, throws_only P (h e)) -> throws_only P (try_catch m h).
Proof.
  intros Hh s e s' H. unfold try_catch in H.
  destruct (m s) as [[a|e0] s1]; [discriminate|]. now apply (Hh e0 s1 e s').
Qed.

End ThrowsOnly.

Lemma friendly_message_truthy (message : string) :
  truthy (friendly_message message) = true.
Proof.
  unfold friendly_message, message_or.
  repeat match goal with
         | |- context [if ?b then _ else _] => destruct b eqn:?
         end; try reflexivity; assumption.
Qed.

Lemma initialize_throws_truthy (eng : Engine) (lang : option string) :
  throws_only (fun m => truthy m = true) (initialize eng lang).
Proof.
  unfold initialize. apply throws_only_bind; [apply throws_only_modify | intros _].
  apply throws_only_try_catch. intros e. now apply throws_only_throw.
Qed.

(** X8.  A message [extractText] throws is never empty, so the fallback
    ['Unknown error'] of the loop over the images is never what is
    recorded for an image. *)
Theorem extractText_message_never_empty (eng : Engine) (imageSource : option ImageSource)
    (options : ExtractOptions) (w w' : Window) (message : string) :
  extractText eng imageSource options w = (Throw message, w') ->
  truthy message = true /\ message_or message "Unknown error" = message.
Proof.
  intros H.
  assert (Ht : truthy message = true).
  { revert H. apply (fun Hall => Hall w message w'). unfold extractText, this.
    apply throws_only_bind.
    { apply throws_only_bind; [apply throws_only_get | intros w0].
      destruct (OCRProcessor w0); [apply throws_only_ret | now apply throws_only_throw]. }
    intros p. apply throws_only_bind.
    { destruct (negb (isInitialized p));
        [apply initialize_throws_truthy | apply throws_only_ret]. }
    intros _. apply throws_only_bind.
    { apply throws_only_bind; [apply throws_only_get | intros w0].
      destruct (OCRProcessor w0); [apply throws_only_ret | now apply throws_only_throw]. }
    intros p'. apply throws_only_try_catch. intros e.
    apply throws_only_throw. apply friendly_message_truthy. }
  split; [assumption|]. unfold message_or. now rewrite Ht.
Qed.

Lemma extractText_message_never_empty_witness :
  extractText Sample.engine_ABC None default_options Sample.ready_window
  = (Throw "Invalid image source: image source is null or undefined", Sample.ready_window)
  /\ truthy "Invalid image source: image source is null or undefined" = true
  /\ message_or "Invalid image source: image source is null or undefined" "Unknown error"
     = "Invalid image source: image source is null or undefined".
Proof.
  split; [reflexivity|].
  apply (extractText_message_never_empty Sample.engine_ABC None default_options
           Sample.ready_window Sample.ready_window).
  reflexivity.
Defined.

(** X9.  When the validation or the preprocessing of the image fails, the
    initialised adapter throws without calling the recognition engine:
    nothing is recorded, the state is as before, and the message is the
    rewording of the failure. *)
Theorem preprocessing_failure_skips_engine (eng : Engine) (w : Window) (p : Processor)
    (src : ImageSource) (options : ExtractOptions) (message : string) :
  OCRProcessor w = Some p ->
  isInitialized p = true ->
  processedImage_of eng src (opt_default (opt_preprocess options) true)
    (opt_default (opt_preprocessOptions options) no_options) = Throw message ->
  extractText eng (Some src) options w = (Throw (friendly_message message), w).
Proof.
  intros Hw Hp Hf. unfold extractText, this, bind, get, ret, try_catch, lift_result, throw.
  rewrite Hw, Hp. cbn [negb]. rewrite Hw, Hf. reflexivity.
Qed.

Lemma preprocessing_failure_skips_engine_witness :
  processedImage_of Sample.engine_ABC (SrcCanvas "empty" 0 40) true no_options
  = Throw "Image preprocessing failed: Invalid canvas: canvas has zero dimensions"
  /\ extractText Sample.engine_ABC (Some (SrcCanvas "empty" 0 40)) default_options
       Sample.ready_window
     = (Throw (friendly_message
                 "Image preprocessing failed: Invalid canvas: canvas has zero dimensions"),
        Sample.ready_window).
Proof.
  split; [reflexivity|].
  apply (preprocessing_failure_skips_engine Sample.engine_ABC Sample.ready_window
           {| tesseract := true; isInitialized := true; currentLanguage := "eng+spa+fra" |}
           (SrcCanvas "empty" 0 40) default_options); reflexivity.
Defined.

(** X10.  How the failures before the recognition are reported by the
    initialised adapter (preprocessing on).  An image address that does
    not load within the ten seconds gives the message of the OCR timeout,
    though the engine was never called; an image element that is not
    loaded or has a zero natural size gives the message of a failed load;
    a canvas without width or height gives the message about zero
    dimensions. *)
Theorem failures_before_recognition (eng : Engine) (w : Window) (p : Processor)
    (options : ExtractOptions) :
  OCRProcessor w = Some p ->
  isInitialized p = true ->
  opt_default (opt_preprocess options) true = true ->
  (forall url, loadImage eng url = ImageStalls ->
     extractText eng (Some (SrcUrl url)) options w
     = (Throw "OCR processing timed out. The image may be too large or complex.", w))
  /\ (forall url, loadImage eng url = ImageErrors ->
        extractText eng (Some (SrcUrl url)) options w
        = (Throw "Failed to load image. The image may be corrupted or inaccessible.", w))
  /\ (forall el,
        img_complete el = false \/ (img_naturalWidth el == 0)%Q
        \/ (img_naturalHeight el == 0)%Q ->
        extractText eng (Some (SrcImage el)) options w
        = (Throw "Failed to load image. The image may be corrupted or inaccessible.", w))
  /\ (forall label cw ch,
        (cw == 0)%Q \/ (ch == 0)%Q ->
        extractText eng (Some (SrcCanvas label cw ch)) options w
        = (Throw "Invalid image: image has zero dimensions or failed to load.", w)).
Proof.
  intros Hw Hp Ho.
  assert (Hrun : forall src message,
             processedImage_of eng src true
               (opt_default (opt_preprocessOptions options) no_options) = Throw message ->
             extractText eng (Some src) options w = (Throw (friendly_message message), w)).
  { intros src message Hf. unfold extractText, this, bind, get, ret, try_catch,
      lift_result, throw.
    rewrite Hw, Hp. cbn [negb]. rewrite Hw, Ho, Hf. reflexivity. }
  repeat split.
  - intros url Hl. rewrite (Hrun _ "Image preprocessing failed: Image loading timeout").
    + reflexivity.
    + unfold processedImage_of, preprocess_source. now rewrite Hl.
  - intros url Hl.
    rewrite (Hrun _ "Image preprocessing failed: Failed to load image: Unknown error").
    + reflexivity.
    + unfold processedImage_of, preprocess_source. now rewrite Hl.
  - intros el Hel.
    rewrite (Hrun _ ("Image preprocessing failed: "
                     +++ "Invalid image element: image not loaded or has zero dimensions")).
    + reflexivity.
    + unfold processedImage_of, preprocess_source.
      assert (E : negb (img_complete el) || Qeq_bool (img_naturalWidth el) 0
                  || Qeq_bool (img_naturalHeight el) 0 = true).
      { destruct Hel as [H | [H | H]].
        - now rewrite H.
        - apply Qeq_bool_iff in H. rewrite H. now rewrite orb_true_r.
        - apply Qeq_bool_iff in H. rewrite H. now rewrite orb_true_r. }
      now rewrite E.
  - intros label cw ch Hc.
    rewrite (Hrun _ ("Image preprocessing failed: "
                     +++ "Invalid canvas: canvas has zero dimensions")).
    + reflexivity.
    + unfold processedImage_of, preprocess_source.
      assert (E : Qeq_bool cw 0 || Qeq_bool ch 0 = true).
      { destruct Hc as [H | H]; apply Qeq_bool_iff in H; rewrite H;
          [reflexivity | apply orb_true_r]. }
      now rewrite E.
Qed.

Lemma failures_before_recognition_witness :
  let eng := Sample.engine_ABC in
  let w := Sample.ready_window in
  (forall url, loadImage eng url = ImageStalls ->
     extractText eng (Some (SrcUrl url)) default_options w
     = (Throw "OCR processing timed out. The image may be too large or complex.", w))
  /\ (forall url, loadImage eng url = ImageErrors ->
        extractText eng (Some (SrcUrl url)) default_options w
        = (Throw "Failed to load image. The image may be corrupted or inaccessible.", w))
  /\ (forall el,
        img_complete el = false \/ (img_naturalWidth el == 0)%Q
        \/ (img_naturalHeight el == 0)%Q ->
        extractText eng (Some (SrcImage el)) default_options w
        = (Throw "Failed to load image. The image may be corrupted or inaccessible.", w))
  /\ (forall label cw ch,
        (cw == 0)%Q \/ (ch == 0)%Q ->
        extractText eng (Some (SrcCanvas label cw ch)) default_options w
        = (Throw "Invalid image: image has zero dimensions or failed to load.", w)).
Proof.
  intros eng w.
  apply (failures_before_recognition eng w
           {| tesseract := true; isInitialized := true; currentLanguage := "eng+spa+fra" |}
           default_options); reflexivity.
Defined.

(** ** The aggregator: what every result holds *)

Lemma push_error_frames_selectable (e : ErrorEntry) :
  frames (fun s => selectableText (results s)) (push_error e).
Proof. unfold push_error, update_results. frame. Qed.

Lemma push_image_frames_selectable (a : ImageAttempt) :
  frames (fun s => selectableText (results s)) (push_image a).
Proof. unfold push_image, update_results. frame. Qed.

Lemma ocr_step_frames_selectable (env : Env) (i : nat) (e : ImageEntry) (acc : list string) :
  frames (fun s => selectableText (results s)) (ocr_step env i e acc).
Proof.
  unfold ocr_step.
  repeat first [ apply push_error_frames_selectable
               | apply push_image_frames_selectable
               | frame_step ].
Qed.

Lemma ocr_loop_frames_selectable (env : Env) (l : list ImageEntry) :
  forall i acc, frames (fun s => selectableText (results s)) (ocr_loop env i l acc).
Proof.
  induction l as [|e l IH]; intros i acc; simpl.
  - apply frames_ret.
  - apply frames_bind; [apply ocr_step_frames_selectable|intros; apply IH].
Qed.

Lemma ocr_stage_frames_selectable (env : Env) (sel : SelectionData) :
  frames (fun s => selectableText (results s)) (ocr_stage env sel).
Proof.
  unfold ocr_stage, loadOCRScript, set_ocrText, update_results.
  repeat first [ apply push_error_frames_selectable
               | apply ocr_loop_frames_selectable
               | frame_step ].
Qed.

Lemma combine_trimmed (selectable ocr : string) :
  trim (combine selectable ocr) = combine selectable ocr.
Proof. unfold combine. apply trim_idempotent. Qed.

(** X11.  Whatever happens to the images - no adapter, no engine, a
    failure that reaches the outer [catch] - the result carries in
    [selectableText] the text [extractSelectableText] found, and its
    [combinedText] has no white space at either end. *)
Theorem selectable_text_always_reported (env : Env) (sel : SelectionData) (w : Window) :
  exists r w',
    extractTextFromSelection env sel w = (Ok r, w')
    /\ selectableText r = extractSelectableText (page env) sel
    /\ trim (combinedText r) = combinedText r.
Proof.
  destruct (extract_cases env sel w) as [(r & s & Hb & He) | (e & s & Hb & He)].
  - exists r, (window s). split; [exact He|].
    pose proof (extract_body_Ok_combined _ _ _ _ _ Hb) as (s1 & Hc & _).
    split; [|rewrite Hc; apply combine_trimmed].
    unfold extract_body in Hb.
    apply bind_Ok in Hb. destruct Hb as (u & s1' & H1 & Hb).
    apply bind_Ok in Hb. destruct Hb as (u' & s2 & H2 & Hb).
    destruct (merge_stage_run s2) as (s' & Hm & _ & _ & _ & _ & Hsel & _).
    rewrite Hm in Hb. inversion Hb; subst. rewrite Hsel.
    apply ocr_stage_frames_selectable in H2. cbv beta in H2. rewrite H2.
    inversion H1. reflexivity.
  - eexists. exists (window s). split; [exact He|].
    cbn [selectableText combinedText]. split.
    + unfold extract_body in Hb.
      apply bind_Throw in Hb. destruct Hb as [Hb | (u & s1 & H1 & Hb)]; [discriminate|].
      apply bind_Throw in Hb. destruct Hb as [Hb | (u' & s2 & H2 & Hb)].
      * apply ocr_stage_frames_selectable in Hb. cbv beta in Hb. rewrite Hb.
        inversion H1. reflexivity.
      * destruct (merge_stage_run s2) as (s' & Hm & _). rewrite Hm in Hb. discriminate.
    + apply extract_body_Throw_combined in Hb. rewrite Hb. reflexivity.
Qed.

(** ** The aggregator: the adapter cannot be had *)

(** X12.  When the adapter script cannot be injected, the failure reaches
    the outer [catch]: the call still returns, with the text of the page in
    [selectableText], an empty [combinedText], no image attempted and the
    message in [errors]; the popup, which shows [combinedText] or else
    [selectableText], then shows the text of the page. *)
Theorem script_injection_failure (env : Env) (sel : SelectionData) (w : Window) :
  detectImagesInSelection (page env) sel <> [] ->
  OCRProcessor w = None ->
  ocrScript env = ScriptFails ->
  exists r,
    extractTextFromSelection env sel w = (Ok r, record_event LoadOCRScript w)
    /\ r = {| selectableText := extractSelectableText (page env) sel;
              ocrText := "";
              combinedText := "";
              images := [];
              errors := [ErrorString "Extraction failed: Failed to load OCR processor"] |}
    /\ shown_text r = extractSelectableText (page env) sel.
Proof.
  intros Hd Hw Hs. eexists. split; [|split; [reflexivity|]].
  - unfold extractTextFromSelection, try_catch, extract_body, ocr_stage, loadOCRScript,
      set_selectableText, update_results, push_error, liftW, bind, get, modify, ret, throw.
    rewrite (length_pos_nonempty _ Hd). cbn -[extractSelectableText].
    repeat progress (rewrite ?Hw, ?Hs; cbn -[extractSelectableText]). reflexivity.
  - unfold shown_text. cbn [combinedText selectableText truthy is_empty negb].
    destruct (extractSelectableText (page env) sel); reflexivity.
Qed.

Lemma script_injection_failure_witness :
  let env := {| page := {| imgElements := [Sample.img_A];
                           elementsFromPoint := fun _ _ => [];
                           body := body Sample.page_hello |};
                engine := Sample.engine_ABC;
                ocrScript := ScriptFails;
                fetchImage := fun _ => None;
                html2canvas := None |} in
  let sel := Sample.selection 0 0 200 100 in
  exists r,
    extractTextFromSelection env sel Sample.fresh_window
    = (Ok r, record_event LoadOCRScript Sample.fresh_window)
    /\ r = {| selectableText := extractSelectableText (page env) sel;
              ocrText := "";
              combinedText := "";
              images := [];
              errors := [ErrorString "Extraction failed: Failed to load OCR processor"] |}
    /\ shown_text r = extractSelectableText (page env) sel.
Proof.
  intros env sel.
  apply (script_injection_failure env sel Sample.fresh_window);
    [discriminate | reflexivity | reflexivity].
Defined.

(** X13.  When the adapter script loads but does not define
    [window.OCRProcessor], nothing is thrown: one error of type
    [processor_unavailable] is recorded, no image is attempted, and the
    merged text is made of the text of the page alone. *)
Theorem processor_unavailable_is_reported (env : Env) (sel : SelectionData) (w : Window) :
  detectImagesInSelection (page env) sel <> [] ->
  OCRProcessor w = None ->
  ocrScript env = ScriptLoads false ->
  extractTextFromSelection env sel w
  = (Ok {| selectableText := extractSelectableText (page env) sel;
           ocrText := "";
           combinedText := combine (extractSelectableText (page env) sel) "";
           images := [];
           errors := [ErrorObject None None
                        "OCR processor not available. Tesseract.js may not be loaded."
                        "processor_unavailable"] |},
     record_event LoadOCRScript w).
Proof.
  intros Hd Hw Hs.
  unfold extractTextFromSelection, try_catch, extract_body, ocr_stage, loadOCRScript,
    merge_stage, set_selectableText, set_combinedText, update_results, push_error,
    liftW, bind, get, modify, ret, throw.
  rewrite (length_pos_nonempty _ Hd). cbn -[extractSelectableText combine].
  repeat progress (rewrite ?Hw, ?Hs; cbn -[extractSelectableText combine]).
  reflexivity.
Qed.

Lemma processor_unavailable_is_reported_witness :
  let env := {| page := Sample.page_three_images;
                engine := Sample.engine_ABC;
                ocrScript := ScriptLoads false;
                fetchImage := fun _ => None;
                html2canvas := None |} in
  let sel := Sample.selection 0 0 300 250 in
  extractTextFromSelection env sel Sample.fresh_window
  = (Ok {| selectableText := extractSelectableText (page env) sel;
           ocrText := "";
           combinedText := combine (extractSelectableText (page env) sel) "";
           images := [];
           errors := [ErrorObject None None
                        "OCR processor not available. Tesseract.js may not be loaded."
                        "processor_unavailable"] |},
     record_event LoadOCRScript Sample.fresh_window).
Proof.
  intros env sel.
  apply (processor_unavailable_is_reported env sel Sample.fresh_window);
    [discriminate | reflexivity | reflexivity].
Defined.

(** ** The aggregator: the engine cannot be had *)

Lemma initialize_fails (eng : Engine) (w : Window) (p : Processor) :
  OCRProcessor w = Some p ->
  Tesseract w = false ->
  cdn eng = ScriptFails ->
  exists p',
    initialize eng None w
    = (Throw "Failed to initialize OCR: Failed to load Tesseract.js from CDN",
       {| OCRProcessor := Some p'; Tesseract := false;
          events := events w ++ [Initialize; LoadTesseractFromCDN] |})
    /\ isInitialized p' = isInitialized p
    /\ tesseract p' = tesseract p.
Proof.
  intros Hp Ht Hc. destruct w as [p0 t evs]. cbn in Hp, Ht. subst.
  unfold initialize, loadLanguagePreference, loadTesseractFromCDN, this, try_catch,
    bind, get, ret, throw, modify, record_event, set_processor, set_Tesseract.
  cbn. rewrite Hc.
  (destruct (storedLanguage eng) as [l|]; [destruct (truthy l)|]); cbn;
    rewrite <- ?app_assoc; eexists; repeat split; reflexivity.
Qed.

Lemma ocr_stage_initialize_fails (env : Env) (sel : SelectionData) (s : ExtractState) :
  detectImagesInSelection (page env) sel <> [] ->
  OCRProcessor (window s) <> None \/ ocrScript env = ScriptLoads true ->
  (forall p, OCRProcessor (window s) = Some p -> isInitialized p = false) ->
  Tesseract (window s) = false ->
  cdn (engine env) = ScriptFails ->
  exists w',
    ocr_stage env sel s
    = (Ok tt,
       {| results :=
            {| selectableText := selectableText (results s);
               ocrText := ocrText (results s);
               combinedText := combinedText (results s);
               images := images (results s);
               errors := (errors (results s)
                          ++ [ErrorObject None None
                                ("Failed to initialize OCR processor: "
                                 +++ "Failed to initialize OCR: "
                                 +++ "Failed to load Tesseract.js from CDN")
                                "initialization_failure"])
                         ++ [ErrorObject None None "OCR processor not ready"
                               "processor_not_ready"] |};
          window := w' |})
    /\ events w' = events (window_with_processor (window s))
                   ++ [Initialize; LoadTesseractFromCDN].
Proof.
  intros Hd Hp Hi Ht Hc.
  destruct (ensure_processor_run env s Hp) as [He [p Hp0]].
  assert (Ht0 : Tesseract (window_with_processor (window s)) = false).
  { unfold window_with_processor. destruct (OCRProcessor (window s)); assumption. }
  assert (Hi0 : isInitialized p = false).
  { unfold window_with_processor in Hp0.
    destruct (OCRProcessor (window s)) as [p0|] eqn:E.
    - rewrite E in Hp0. apply Hi. congruence.
    - cbn in Hp0. inversion Hp0. reflexivity. }
  destruct (initialize_fails (engine env) _ p Hp0 Ht0 Hc) as (p' & Hinit & Hi' & _).
  eexists. split.
  - unfold ocr_stage. rewrite (length_pos_nonempty _ Hd).
    unfold bind at 1. unfold get at 1.
    unfold bind at 1. rewrite He.
    unfold bind at 1. unfold get at 1. cbn [window]. rewrite Hp0.
    unfold bind at 1. unfold try_catch, liftW. cbn [window results]. rewrite Hinit.
    unfold push_error, update_results, modify.
    unfold bind at 1. unfold isReady, this, bind, get, ret.
    cbn [window OCRProcessor isInitialized tesseract andb results].
    rewrite Hi', Hi0. cbn [andb]. reflexivity.
  - reflexivity.
Qed.

(** X14.  When the engine script cannot be fetched, one failure is
    recorded twice: [initialize] throws, which gives an error of type
    [initialization_failure], and the adapter is then not ready, which
    gives one of type [processor_not_ready].  No image is attempted, no
    recognition is started, and the merged text is made of the text of the
    page alone. *)
Theorem initialization_failure_is_reported (env : Env) (sel : SelectionData) (w : Window) :
  detectImagesInSelection (page env) sel <> [] ->
  OCRProcessor w <> None \/ ocrScript env = ScriptLoads true ->
  (forall p, OCRProcessor w = Some p -> isInitialized p = false) ->
  Tesseract w = false ->
  cdn (engine env) = ScriptFails ->
  exists w',
    extractTextFromSelection env sel w
    = (Ok {| selectableText := extractSelectableText (page env) sel;
             ocrText := "";
             combinedText := combine (extractSelectableText (page env) sel) "";
             images := [];
             errors :=
               [ErrorObject None None
                  "Failed to initialize OCR processor: Failed to initialize OCR: Failed to load Tesseract.js from CDN"
                  "initialization_failure";
                ErrorObject None None "OCR processor not ready" "processor_not_ready"] |},
       w')
    /\ events w' = events (window_with_processor w) ++ [Initialize; LoadTesseractFromCDN].
Proof.
  intros Hd Hp Hi Ht Hc.
  destruct (ocr_stage_initialize_fails env sel
              {| results := {| selectableText := extractSelectableText (page env) sel;
                               ocrText := ""; combinedText := ""; images := [];
                               errors := [] |};
                 window := w |} Hd Hp Hi Ht Hc) as (w' & Hs & Hev).
  exists w'. split; [|exact Hev].
  unfold extractTextFromSelection, try_catch, extract_body.
  unfold bind at 1. unfold set_selectableText, update_results, modify.
  cbn [results window empty_results selectableText ocrText combinedText images errors].
  unfold bind at 1. rewrite Hs. reflexivity.
Qed.

Lemma initialization_failure_is_reported_witness :
  let env := {| page := Sample.page_three_images;
                engine := {| storedLanguage := None;
                             cdn := ScriptFails;
                             loadImage := fun _ => ImageErrors;
                             canvasImageData := fun _ _ _ => Ok [];
                             recognize := fun _ _ => Hangs;
                             elapsed_before_recognize := fun _ => 0%Z |};
                ocrScript := ScriptLoads true;
                fetchImage := fun _ => None;
                html2canvas := None |} in
  let sel := Sample.selection 0 0 300 250 in
  let w := Sample.fresh_window in
  exists w',
    extractTextFromSelection env sel w
    = (Ok {| selectableText := extractSelectableText (page env) sel;
             ocrText := "";
             combinedText := combine (extractSelectableText (page env) sel) "";
             images := [];
             errors :=
               [ErrorObject None None
                  "Failed to initialize OCR processor: Failed to initialize OCR: Failed to load Tesseract.js from CDN"
                  "initialization_failure";
                ErrorObject None None "OCR processor not ready" "processor_not_ready"] |},
       w')
    /\ events w' = events (window_with_processor w) ++ [Initialize; LoadTesseractFromCDN].
Proof.
  intros env sel w.
  apply (initialization_failure_is_reported env sel w);
    [discriminate | right; reflexivity | discriminate | reflexivity | reflexivity].
Defined.

(** ** The text of the page: its normal form *)

Lemma occurs_replace_crlf_other (c : ascii) (s : string) :
  Ascii.eqb CR c = false -> Ascii.eqb LF c = false ->
  occurs c (replace_crlf s) = occurs c s.
Proof.
  intros Hcr Hlf.
  enough (H : occurs c (replace_crlf s) = occurs c s
              /\ forall d, occurs c (replace_crlf (String d s)) = occurs c (String d s))
    by apply H.
  induction s as [|a s [IH1 IH2]].
  - split; [reflexivity | intros d; reflexivity].
  - split; [apply IH2|]. intros d. rewrite replace_crlf_step.
    destruct (Ascii.eqb d CR && Ascii.eqb a LF) eqn:E.
    + apply andb_true_iff in E. destruct E as [Ed Ea].
      apply Ascii.eqb_eq in Ed, Ea. subst d a.
      cbn [occurs]. now rewrite IH1, Hcr, Hlf.
    + cbn [occurs] in *. now rewrite IH2.
Qed.

Lemma normalize_no_TAB (s : string) : occurs TAB (normalizeSelectable s) = false.
Proof.
  unfold normalizeSelectable. apply occurs_trim.
  rewrite occurs_replace_char_other by reflexivity.
  rewrite occurs_replace_crlf_other by reflexivity.
  now apply replace_char_removes.
Qed.

(** X15.  The text [extractSelectableText] returns is in a normal form,
    whatever the page holds: it contains no carriage return and no tab,
    and it has no white space at either end. *)
Theorem selectable_text_normal_form (page : Page) (sel : SelectionData) :
  occurs CR (extractSelectableText page sel) = false
  /\ occurs TAB (extractSelectableText page sel) = false
  /\ trim (extractSelectableText page sel) = extractSelectableText page sel.
Proof.
  unfold extractSelectableText. split; [|split].
  - apply normalize_no_CR.
  - apply normalize_no_TAB.
  - apply normalize_trimmed.
Qed.

Lemma occurs_join (c : ascii) (sep : string) (l : list string) :
  occurs c sep = false ->
  Forall (fun piece => occurs c piece = false) l ->
  occurs c (join sep l) = false.
Proof.
  intros Hsep. induction 1 as [|x l Hx Hl IH]; [reflexivity|].
  destruct l as [|y l]; [exact Hx|].
  change (join sep (x :: y :: l)) with (x +++ sep +++ join sep (y :: l)).
  now rewrite !occurs_append, Hx, Hsep, IH.
Qed.

(** X16.  When no piece of text of the selection contains a carriage
    return, the text returned has no three newlines in a row: two pieces
    are separated by one blank line at most. *)
Theorem selectable_text_blank_lines_collapsed (page : Page) (sel : SelectionData) :
  Forall (fun piece => occurs CR piece = false) (collectTextElements page sel) ->
  has_run LF 3 (extractSelectableText page sel) = false.
Proof.
  intros H. unfold extractSelectableText.
  apply normalize_LF_text_no_three_newlines. now apply occurs_join.
Qed.

Lemma selectable_text_blank_lines_collapsed_witness :
  Forall (fun piece => occurs CR piece = false)
         (collectTextElements Sample.page_twice (Sample.selection 0 0 200 100))
  /\ has_run LF 3 (extractSelectableText Sample.page_twice (Sample.selection 0 0 200 100))
     = false.
Proof.
  split.
  - vm_compute. repeat constructor.
  - apply (selectable_text_blank_lines_collapsed Sample.page_twice
             (Sample.selection 0 0 200 100)).
    vm_compute. repeat constructor.
Defined.

(** ** The merged text when the images give nothing *)

Lemma has_run_rep_ge (c : ascii) (k n : nat) (s : string) :
  k <= n -> has_run c k (rep c n +++ s) = true.
Proof.
  intros H. pose proof (leading_rep_append c n s) as Hl.
  destruct (rep c n +++ s) as [|d r] eqn:E.
  - destruct n; [|discriminate]. cbn. apply Nat.eqb_eq. lia.
  - cbn [has_run]. apply orb_true_iff. left. apply Nat.leb_le. lia.
Qed.

Lemma rep_shift (c : ascii) (n : nat) (s : string) :
  rep c n +++ String c s = String c (rep c n +++ s).
Proof. induction n; cbn; [reflexivity | now rewrite IHn]. Qed.

Lemma replace_runs_from_id (c : ascii) (k : nat) (repl : string) (s : string) :
  forall run,
    has_run c k (rep c run +++ s) = false ->
    replace_runs_from c k repl run s = rep c run +++ s.
Proof.
  induction s as [|d r IH]; intros run H.
  - cbn [replace_runs_from]. unfold flush_run.
    destruct (k <=? run) eqn:E; [|now rewrite append_empty_r].
    apply Nat.leb_le in E. rewrite (has_run_rep_ge c k run "" E) in H. discriminate.
  - cbn [replace_runs_from]. destruct (Ascii.eqb d c) eqn:Ed.
    + apply Ascii.eqb_eq in Ed. subst d. rewrite rep_shift.
      rewrite rep_shift in H. now apply (IH (S run)).
    + assert (Hk : run < k).
      { destruct (Nat.lt_ge_cases run k) as [Hlt|Hge]; [assumption|].
        rewrite (has_run_rep_ge c k run _ Hge) in H. discriminate. }
      rewrite (has_run_rep_stop c d k run r Hk Ed) in H.
      unfold flush_run. replace (k <=? run) with false
        by (symmetry; apply Nat.leb_gt; assumption).
      now rewrite (IH 0 H).
Qed.

Lemma has_run_mono (c : ascii) (n m : nat) (s : string) :
  n <= m -> has_run c n s = false -> has_run c m s = false.
Proof.
  intros Hnm. induction s as [|d r IH]; cbn [has_run]; intros H.
  - apply Nat.eqb_neq in H. apply Nat.eqb_neq. lia.
  - apply orb_false_iff in H. destruct H as [H1 H2].
    apply orb_false_iff. split; [|now apply IH].
    apply Nat.leb_gt in H1. apply Nat.leb_gt. lia.
Qed.

Lemma combine_selectable_only (s : string) :
  trim s = s -> has_run LF 4 s = false -> combine s "" = s.
Proof.
  intros Ht Hr. unfold combine. destruct s as [|c s]; [reflexivity|].
  rewrite Ht. cbn [truthy is_empty negb andb app join].
  unfold replace_runs. rewrite (replace_runs_from_id LF 4 _ _ 0) by exact Hr.
  exact Ht.
Qed.

(** X17.  When the selection holds no image and no piece of its text
    contains a carriage return, the merged text is the text of the page as
    [extractSelectableText] returned it, nothing is attempted and nothing
    is recorded. *)
Theorem text_only_selection (env : Env) (sel : SelectionData) (w : Window) :
  detectImagesInSelection (page env) sel = [] ->
  Forall (fun piece => occurs CR piece = false) (collectTextElements (page env) sel) ->
  extractTextFromSelection env sel w
  = (Ok {| selectableText := extractSelectableText (page env) sel;
           ocrText := "";
           combinedText := extractSelectableText (page env) sel;
           images := [];
           errors := [] |}, w).
Proof.
  intros Hd Hc.
  assert (E : combine (extractSelectableText (page env) sel) ""
              = extractSelectableText (page env) sel).
  { apply combine_selectable_only.
    - apply normalize_trimmed.
    - apply (has_run_mono LF 3 4); [lia|].
      unfold extractSelectableText.
      apply normalize_LF_text_no_three_newlines. now apply occurs_join. }
  unfold extractTextFromSelection, try_catch, extract_body, ocr_stage, merge_stage,
    set_selectableText, set_combinedText, update_results, bind, get, modify, ret.
  rewrite Hd. cbn -[extractSelectableText combine]. now rewrite E.
Qed.

Lemma text_only_selection_witness :
  let env := Sample.env_hello in
  let sel := Sample.selection 0 0 200 100 in
  extractTextFromSelection env sel Sample.fresh_window
  = (Ok {| selectableText := extractSelectableText (page env) sel;
           ocrText := "";
           combinedText := extractSelectableText (page env) sel;
           images := [];
           errors := [] |}, Sample.fresh_window).
Proof.
  intros env sel.
  apply (text_only_selection env sel Sample.fresh_window).
  - reflexivity.
  - vm_compute. repeat constructor.
Defined.

(** ** The geometry: order and shape of the candidates *)





Lemma candidate_intersection (page : Page) (sel : SelectionData) (info : ImageInfo) :
  In info (detectImagesInSelection page sel) ->
  let s := selectionRect sel in
  let a := edges (info_rect info) in
  overlaps a s = true
  /\ intersection info
     = {| ix := Qmax (left s) (left a);
          iy := Qmax (top s) (top a);
          iwidth := (Qmin (right s) (right a) - Qmax (left s) (left a))%Q;
          iheight := (Qmin (bottom s) (bottom a) - Qmax (top s) (top a))%Q |}.
Proof.
  intros H s a. unfold detectImagesInSelection in H. apply in_app_or in H.
  destruct H as [H|H].
  - revert H. generalize 0. fold s.
    induction (imgElements page) as [|img rest IH]; intros index H; [contradiction|].
    cbn [detect_imgs] in H. apply in_app_or in H. destruct H as [H|H]; [|now apply (IH _ H)].
    unfold detect_img in H.
    destruct (overlaps (edges (img_rect img)) s) eqn:E; [|contradiction].
    destruct (Qgtb _ 10 && Qgtb _ 10); [|contradiction].
    destruct H as [<-|[]]. subst a. cbn [info_rect intersection]. now split.
  - apply in_flat_map in H. destruct H as (el & _ & H). fold s in H.
    unfold detect_background in H. destruct (pe_bgUrl el); [|contradiction].
    destruct (overlaps (edges (pe_rect el)) s) eqn:E; [|contradiction].
    destruct H as [<-|[]]. subst a. cbn [info_rect intersection]. now split.
Qed.

Lemma overlaps_true (a s : Rect) :
  overlaps a s = true ->
  (left s <= right a)%Q /\ (left a <= right s)%Q
  /\ (top s <= bottom a)%Q /\ (top a <= bottom s)%Q.
Proof.
  unfold overlaps, Qgtb. intros H. apply negb_true_iff in H.
  apply orb_false_iff in H. destruct H as [H H4].
  apply orb_false_iff in H. destruct H as [H H3].
  apply orb_false_iff in H. destruct H as [H1 H2].
  apply Qltb_false in H1, H2, H3, H4. now repeat split.
Qed.

(** X19.  The intersection recorded with a candidate of either kind lies
    inside the selection and inside the element; when the selection and
    the element have no negative width or height, neither has the
    intersection - it may be empty, as touching edges count as overlap. *)
Theorem intersection_inside_both (page : Page) (sel : SelectionData) (info : ImageInfo) :
  In info (detectImagesInSelection page sel) ->
  let i := intersection info in
  let r := info_rect info in
  ((viewportX sel <= ix i /\ rect_left r <= ix i
    /\ ix i + iwidth i <= viewportX sel + viewportWidth sel
    /\ ix i + iwidth i <= rect_left r + rect_width r)
   /\ (viewportY sel <= iy i /\ rect_top r <= iy i
       /\ iy i + iheight i <= viewportY sel + viewportHeight sel
       /\ iy i + iheight i <= rect_top r + rect_height r)
   /\ (0 <= viewportWidth sel -> 0 <= rect_width r -> 0 <= iwidth i)
   /\ (0 <= viewportHeight sel -> 0 <= rect_height r -> 0 <= iheight i))%Q.
Proof.
  intros H i r. destruct (candidate_intersection page sel info H) as [Ho Hi].
  apply overlaps_true in Ho. cbn [selectionRect edges left right top bottom] in Ho.
  destruct Ho as (O1 & O2 & O3 & O4).
  subst i r. rewrite Hi. cbn [ix iy iwidth iheight selectionRect edges left right top bottom].
  pose proof (Q.le_max_l (viewportX sel) (rect_left (info_rect info))) as A1.
  pose proof (Q.le_max_r (viewportX sel) (rect_left (info_rect info))) as A2.
  pose proof (Q.le_min_l (viewportX sel + viewportWidth sel)
                         (rect_left (info_rect info) + rect_width (info_rect info))) as A3.
  pose proof (Q.le_min_r (viewportX sel + viewportWidth sel)
                         (rect_left (info_rect info) + rect_width (info_rect info))) as A4.
  pose proof (Q.le_max_l (viewportY sel) (rect_top (info_rect info))) as B1.
  pose proof (Q.le_max_r (viewportY sel) (rect_top (info_rect info))) as B2.
  pose proof (Q.le_min_l (viewportY sel + viewportHeight sel)
                         (rect_top (info_rect info) + rect_height (info_rect info))) as B3.
  pose proof (Q.le_min_r (viewportY sel + viewportHeight sel)
                         (rect_top (info_rect info) + rect_height (info_rect info))) as B4.
  assert (W : (0 <= viewportWidth sel -> 0 <= rect_width (info_rect info) ->
               Qmax (viewportX sel) (rect_left (info_rect info))
               <= Qmin (viewportX sel + viewportWidth sel)
                       (rect_left (info_rect info) + rect_width (info_rect info)))%Q).
  { intros Hw Hr. apply Q.max_lub; apply Q.min_glb; lra. }
  assert (V : (0 <= viewportHeight sel -> 0 <= rect_height (info_rect info) ->
               Qmax (viewportY sel) (rect_top (info_rect info))
               <= Qmin (viewportY sel + viewportHeight sel)
                       (rect_top (info_rect info) + rect_height (info_rect info)))%Q).
  { intros Hw Hr. apply Q.max_lub; apply Q.min_glb; lra. }
  revert A1 A2 A3 A4 B1 B2 B3 B4 W V.
  generalize (Qmax (viewportX sel) (rect_left (info_rect info))).
  generalize (Qmin (viewportX sel + viewportWidth sel)
                   (rect_left (info_rect info) + rect_width (info_rect info))).
  generalize (Qmax (viewportY sel) (rect_top (info_rect info))).
  generalize (Qmin (viewportY sel + viewportHeight sel)
                   (rect_top (info_rect info) + rect_height (info_rect info))).
  intros mb mt mr ml A1 A2 A3 A4 B1 B2 B3 B4 W V.
  repeat split; lra.
Qed.

Lemma intersection_inside_both_witness :
  let sel := Sample.selection 0 0 300 250 in
  let info := {| info_kind := NativeImg;
                 info_element := Some Sample.img_B;
                 info_src := "b.png";
                 info_alt := "";
                 info_rect := mkDOMRect 0 100 50 50;
                 intersection := {| ix := Qmax 0 0; iy := Qmax 0 100;
                                    iwidth := Qmin (0 + 300) (0 + 50) - Qmax 0 0;
                                    iheight := Qmin (0 + 250) (100 + 50) - Qmax 0 100 |};
                 info_index := Some 1 |} in
  let i := intersection info in
  let r := info_rect info in
  ((viewportX sel <= ix i /\ rect_left r <= ix i
    /\ ix i + iwidth i <= viewportX sel + viewportWidth sel
    /\ ix i + iwidth i <= rect_left r + rect_width r)
   /\ (viewportY sel <= iy i /\ rect_top r <= iy i
       /\ iy i + iheight i <= viewportY sel + viewportHeight sel
       /\ iy i + iheight i <= rect_top r + rect_height r)
   /\ (0 <= viewportWidth sel -> 0 <= rect_width r -> 0 <= iwidth i)
   /\ (0 <= viewportHeight sel -> 0 <= rect_height r -> 0 <= iheight i))%Q.
Proof.
  intros sel info.
  apply (intersection_inside_both Sample.page_three_images sel info).
  right. left. reflexivity.
Defined.

(** ** The images handed to the recognition *)

Lemma kept_images (env : Env) (detected : list ImageInfo) :
  let kept :=
    flat_map (fun imageInfo =>
                match getImageData env imageInfo with
                | Ok imageData =>
                    [ {| image := Some imageData;
                         entry_src := Some (info_src imageInfo) |} ]
                | Throw _ => []
                end) detected in
  List.length kept <= List.length detected
  /\ Forall (fun e => image e <> None /\ entry_src e <> None) kept
  /\ (forall info, In info detected -> info_element info <> None ->
        exists e, In e kept /\ entry_src e = Some (info_src info)).
Proof.
  induction detected as [|info rest IH]; cbn zeta.
  - split; [cbn; lia|]. split; [constructor | intros info []].
  - cbn zeta in IH. destruct IH as (Hl & Hf & Hk). cbn [flat_map].
    split; [|split].
    + rewrite length_app. cbn [List.length].
      destruct (getImageData env info); cbn [List.length]; lia.
    + apply Forall_app. split; [|assumption].
      destruct (getImageData env info); repeat constructor; discriminate.
    + intros info' [<-|Hin] He.
      * unfold getImageData at 1.
        destruct (fetchImage env (info_src info)) as [img|].
        -- eexists. split; [apply in_or_app; left; left; reflexivity | reflexivity].
        -- destruct (info_element info) as [el|]; [|contradiction].
           eexists. split; [apply in_or_app; left; left; reflexivity | reflexivity].
      * destruct (Hk info' Hin He) as (e & Hin' & Hs).
        exists e. split; [apply in_or_app; now right | assumption].
Qed.

(** X20.  [extractImagesForOCR] returns the candidates whose image could
    be had, at most as many as were detected, followed by one capture of
    the selection itself, so it is never empty.  Every entry has an image - the
    check for a missing one in the loop never fires - only the capture has
    no source, and a candidate that is an [<img>] element is never
    dropped. *)
Theorem images_for_ocr_shape (env : Env) (sel : SelectionData) :
  exists kept capture,
    extractImagesForOCR env sel = kept ++ [capture]
    /\ entry_src capture = None
    /\ entry_label capture = "selection-area"
    /\ Forall (fun e => image e <> None) (extractImagesForOCR env sel)
    /\ Forall (fun e => entry_src e <> None) kept
    /\ List.length kept <= List.length (detectImagesInSelection (page env) sel)
    /\ (forall info, In info (detectImagesInSelection (page env) sel) ->
          info_element info <> None ->
          exists e, In e kept /\ entry_src e = Some (info_src info)).
Proof.
  destruct (kept_images env (detectImagesInSelection (page env) sel)) as (Hl & Hf & Hk).
  unfold extractImagesForOCR.
  assert (Hc : exists canvas, captureAreaWithCanvas env sel = Ok canvas).
  { unfold captureAreaWithCanvas, captureSelectionAsImage.
    destruct (html2canvas env) as [[c|e]|]; eauto. }
  destruct Hc as (canvas & ->).
  eexists. exists {| image := Some canvas; entry_src := None |}.
  split; [reflexivity|]. split; [reflexivity|]. split; [reflexivity|].
  split; [|split; [|split]].
  - apply Forall_app. split.
    + eapply Forall_impl; [|exact Hf]. cbv beta. intros e [H _]. exact H.
    + repeat constructor. discriminate.
  - eapply Forall_impl; [|exact Hf]. cbv beta. intros e [_ H]. exact H.
  - exact Hl.
  - exact Hk.
Qed.

Lemma Qfloor_above (q : Q) (n : Z) : (inject_Z n < q)%Q -> (inject_Z n <= inject_Z (Qfloor q))%Q.
Proof.
  intros H. rewrite <- Zle_Qle. rewrite <- (Qfloor_Z n).
  apply Qfloor_resp_le. now apply Qlt_le_weak.
Qed.

(** X21.  A selection the overlay commits - wider and higher than 5 - is
    captured, when [html2canvas] is not there, as a canvas at least 5 by
    5: a source [isValidImageSource] accepts and the zero-size check of
    the adapter lets through. *)
Theorem committed_selection_capture_is_valid (env : Env) (scrollX scrollY : Q)
    (rect : DOMRect) :
  html2canvas env = None ->
  Qgtb (width (selectionData_of scrollX scrollY rect)) 5
  && Qgtb (height (selectionData_of scrollX scrollY rect)) 5 = true ->
  exists cw ch,
    captureAreaWithCanvas env (selectionData_of scrollX scrollY rect)
    = Ok (SrcCanvas "offscreen" cw ch)
    /\ (5 <= cw)%Q /\ (5 <= ch)%Q
    /\ isValidImageSource (Some (SrcCanvas "offscreen" cw ch)) = true
    /\ Qeq_bool cw 0 || Qeq_bool ch 0 = false.
Proof.
  intros Hh Ht. apply andb_true_iff in Ht. destruct Ht as [Hw Hv].
  unfold Qgtb in Hw, Hv. apply Qltb_true in Hw, Hv.
  cbn [width height selectionData_of] in Hw, Hv.
  unfold captureAreaWithCanvas, captureSelectionAsImage. rewrite Hh.
  cbn [viewportWidth viewportHeight selectionData_of].
  pose proof (Qfloor_above (rect_width rect) 5 Hw) as Cw.
  pose proof (Qfloor_above (rect_height rect) 5 Hv) as Ch.
  change (inject_Z 5) with 5%Q in Cw, Ch.
  eexists. eexists. split; [reflexivity|]. split; [exact Cw|]. split; [exact Ch|].
  split.
  - cbn [isValidImageSource]. apply andb_true_iff.
    split; apply Qltb_true; lra.
  - apply orb_false_iff. split.
    + destruct (Qeq_bool (inject_Z (Qfloor (rect_width rect))) 0) eqn:E; [|reflexivity].
      apply Qeq_bool_iff in E. lra.
    + destruct (Qeq_bool (inject_Z (Qfloor (rect_height rect))) 0) eqn:E; [|reflexivity].
      apply Qeq_bool_iff in E. lra.
Qed.

Lemma committed_selection_capture_is_valid_witness :
  exists cw ch,
    captureAreaWithCanvas Sample.env_hello (selectionData_of 0 0 (mkDOMRect 10 10 200 100))
    = Ok (SrcCanvas "offscreen" cw ch)
    /\ (5 <= cw)%Q /\ (5 <= ch)%Q
    /\ isValidImageSource (Some (SrcCanvas "offscreen" cw ch)) = true
    /\ Qeq_bool cw 0 || Qeq_bool ch 0 = false.
Proof.
  apply (committed_selection_capture_is_valid Sample.env_hello 0 0 (mkDOMRect 10 10 200 100));
    reflexivity.
Defined.

(** ** The selection overlay: cancelling, and what a finished drag leaves *)

(** X22.  While the selection mode is active, Escape ends it: the overlay
    is removed, the mode and the drag are switched off, and one
    [cancelSelection] message is sent; no extraction is started.  Any other
    key changes nothing. *)
Theorem escape_cancels (t : Tab) :
  isSelectionModeActive (overlay t) = true ->
  (let t' := snd (handleKeyDown "Escape" t) in
   isSelectionModeActive (overlay t') = false
   /\ isSelecting (overlay t') = false
   /\ selectionOverlay (overlay t') = false
   /\ selectionBox (overlay t') = None
   /\ sent t' = sent t ++ [CancelSelection]
   /\ extractCalls t' = extractCalls t
   /\ tab_window t' = tab_window t)
  /\ (forall key, String.eqb key "Escape" = false -> handleKeyDown key t = (Ok tt, t)).
Proof.
  intros Ha. destruct t as [[a s x0 y0 ov b li] w ms calls pend].
  cbn [overlay isSelectionModeActive] in Ha. subst a. split.
  - unfold handleKeyDown, deactivateSelectionMode, set_isSelecting, removeSelectionOverlay,
      sendMessage, bind, get, modify, ret, set_overlay.
    cbn. repeat split.
  - intros key Hk. unfold handleKeyDown, bind, get, ret. cbn [overlay isSelectionModeActive negb].
    rewrite Hk. reflexivity.
Qed.

Lemma escape_cancels_witness :
  let t := Sample.dragging 10 10 210 110 in
  (let t' := snd (handleKeyDown "Escape" t) in
   isSelectionModeActive (overlay t') = false
   /\ isSelecting (overlay t') = false
   /\ selectionOverlay (overlay t') = false
   /\ selectionBox (overlay t') = None
   /\ sent t' = sent t ++ [CancelSelection]
   /\ extractCalls t' = extractCalls t
   /\ tab_window t' = tab_window t)
  /\ (forall key, String.eqb key "Escape" = false -> handleKeyDown key t = (Ok tt, t)).
Proof.
  intros t. apply (escape_cancels t). reflexivity.
Defined.

(** X23.  While the selection mode is not active, no event but the
    activation message changes anything: the handlers return at once. *)
Theorem inactive_mode_is_inert (loaded : bool)
    (layout : SelectionBox -> DOMRect) (scrollX scrollY : Q)
    (events : list OverlayEvent) (t : Tab) :
  isSelectionModeActive (overlay t) = false ->
  Forall (fun e => e <> ActivationMessage) events ->
  dispatch_all loaded layout scrollX scrollY events t = t.
Proof.
  intros Ha Hev. revert t Ha. induction Hev as [|e events He _ IH]; intros t Ha.
  - reflexivity.
  - cbn [dispatch_all].
    assert (E : snd (dispatch loaded layout scrollX scrollY e t) = t).
    { destruct e; cbn [dispatch];
        unfold handleMouseDown, handleMouseMove, handleMouseUp, handleClickOutside,
          handleKeyDown, deactivateSelectionMode, bind, get, ret;
        rewrite ?Ha; cbn [negb orb snd]; try reflexivity.
      - destruct (selectionBox (overlay t)); reflexivity.
      - contradiction. }
    rewrite E. now apply IH.
Qed.

Lemma inactive_mode_is_inert_witness :
  let down := {| button := 0; clientX := 10; clientY := 10; onInteractive := false |} in
  let events := [MouseDown down; MouseMove (Sample.release 210 110);
                 MouseUp (Sample.release 210 110); Click OnOverlay; KeyDown "Escape";
                 DeactivationMessage] in
  dispatch_all true Sample.layout_of_style 0 0 events Sample.fresh_tab
  = Sample.fresh_tab.
Proof.
  intros down events.
  apply (inactive_mode_is_inert true Sample.layout_of_style 0 0 events Sample.fresh_tab).
  - reflexivity.
  - repeat constructor; discriminate.
Defined.





(** A second drag while the first extraction is in flight: the box is
    still there, so the second selection is handed to the extractor as
    well, and two results are sent in the end. *)
Example second_drag_during_extraction :
  let down := {| button := 0; clientX := 50; clientY := 50; onInteractive := false |} in
  let t := Sample.drag 0 0 200 100 in
  let t2 := run_steps Sample.env_hello true Sample.layout_of_style 0 0
              [Occurs (MouseDown down); Occurs (MouseMove (Sample.release 150 90));
               Occurs (MouseUp (Sample.release 150 90))] t in
  let t3 := run_steps Sample.env_hello true Sample.layout_of_style 0 0
              [ExtractionSettles 0; ExtractionSettles 0] t2 in
  List.length (pending t) = 1
  /\ List.length (extractCalls t2) = 2
  /\ List.length (pending t2) = 2
  /\ sent t2 = []
  /\ List.length (sent t3) = 2
  /\ pending t3 = [].
Proof. vm_compute. repeat split. Qed.

(** ** The selection overlay: the box drawn during a drag *)

Lemma Math_abs_spec (q : Q) : (0 <= Math_abs q /\ (Math_abs q == q \/ Math_abs q == - q))%Q.
Proof.
  unfold Math_abs. destruct (Qltb q 0) eqn:E.
  - apply Qltb_true in E. split; [lra | right; reflexivity].
  - apply Qltb_false in E. split; [lra | left; reflexivity].
Qed.

(** X25.  During a drag, a move of the pointer draws the box as the
    rectangle spanned by the point where the button went down and the
    pointer, in whatever direction the pointer went: the width and height
    are not negative and both points are on the edge of the box.  Nothing
    else changes. *)
Theorem drag_box_spans_anchor_and_pointer (event : MouseEvent) (t : Tab)
    (box : SelectionBox) :
  isSelectionModeActive (overlay t) = true ->
  isSelecting (overlay t) = true ->
  selectionBox (overlay t) = Some box ->
  exists t' box',
    handleMouseMove event t = (Ok tt, t')
    /\ selectionBox (overlay t') = Some box'
    /\ (0 <= style_width box' /\ 0 <= style_height box')%Q
    /\ (style_left box' <= startX (overlay t) <= style_left box' + style_width box')%Q
    /\ (style_left box' <= clientX event <= style_left box' + style_width box')%Q
    /\ (style_top box' <= startY (overlay t) <= style_top box' + style_height box')%Q
    /\ (style_top box' <= clientY event <= style_top box' + style_height box')%Q
    /\ (style_left box' + style_width box' == Qmax (startX (overlay t)) (clientX event))%Q
    /\ (style_top box' + style_height box' == Qmax (startY (overlay t)) (clientY event))%Q
    /\ startX (overlay t') = startX (overlay t)
    /\ startY (overlay t') = startY (overlay t)
    /\ sent t' = sent t /\ extractCalls t' = extractCalls t.
Proof.
  intros Ha Hs Hb. destruct t as [[a s x0 y0 ov b li] w ms calls pend].
  cbn [overlay isSelectionModeActive isSelecting selectionBox startX startY] in *.
  subst a s b.
  unfold handleMouseMove, set_selectionBox, bind, get, modify, set_overlay. cbn.
  eexists. eexists. split; [reflexivity|]. split; [reflexivity|].
  cbn [style_left style_top style_width style_height].
  destruct (Math_abs_spec (clientX event - x0)) as [Wx Ax].
  destruct (Math_abs_spec (clientY event - y0)) as [Wy Ay].
  destruct (Q.min_spec x0 (clientX event)) as [[Lx Mx]|[Lx Mx]];
  destruct (Q.min_spec y0 (clientY event)) as [[Ly My]|[Ly My]];
  destruct (Q.max_spec x0 (clientX event)) as [[Lx' Mx']|[Lx' Mx']];
  destruct (Q.max_spec y0 (clientY event)) as [[Ly' My']|[Ly' My']];
  revert Wx Ax Wy Ay Mx My Mx' My';
  generalize (Math_abs (clientX event - x0)); generalize (Math_abs (clientY event - y0));
  generalize (Qmin x0 (clientX event)); generalize (Qmin y0 (clientY event));
  generalize (Qmax x0 (clientX event)); generalize (Qmax y0 (clientY event));
  intros My_ Mx_ my_ mx_ ay_ ax_ Wx Ax Wy Ay Mx My Mx' My';
  (destruct Ax as [Ax|Ax]; destruct Ay as [Ay|Ay];
   repeat split; try reflexivity; lra).
Qed.

Lemma drag_box_spans_anchor_and_pointer_witness :
  let down := {| button := 0; clientX := 210; clientY := 110; onInteractive := false |} in
  let t := snd (handleMouseDown down (snd (activateSelectionMode Sample.fresh_tab))) in
  let event := Sample.release 10 10 in
  exists t' box',
    handleMouseMove event t = (Ok tt, t')
    /\ selectionBox (overlay t') = Some box'
    /\ (0 <= style_width box' /\ 0 <= style_height box')%Q
    /\ (style_left box' <= startX (overlay t) <= style_left box' + style_width box')%Q
    /\ (style_left box' <= clientX event <= style_left box' + style_width box')%Q
    /\ (style_top box' <= startY (overlay t) <= style_top box' + style_height box')%Q
    /\ (style_top box' <= clientY event <= style_top box' + style_height box')%Q
    /\ (style_left box' + style_width box' == Qmax (startX (overlay t)) (clientX event))%Q
    /\ (style_top box' + style_height box' == Qmax (startY (overlay t)) (clientY event))%Q
    /\ startX (overlay t') = startX (overlay t)
    /\ startY (overlay t') = startY (overlay t)
    /\ sent t' = sent t /\ extractCalls t' = extractCalls t.
Proof.
  intros down t event.
  apply (drag_box_spans_anchor_and_pointer event t
           {| style_left := 210; style_top := 110; style_width := 0; style_height := 0;
              style_display := true |}); reflexivity.
Defined.

(** ** Utilities: [truncate] *)

Lemma length_append_string (a b : string) :
  String.length (a +++ b) = String.length a + String.length b.
Proof. induction a; cbn; [reflexivity | now rewrite IHa]. Qed.

Lemma length_take (n : nat) (s : string) :
  String.length (take n s) = Nat.min n (String.length s).
Proof.
  revert s. induction n as [|n IH]; intros s; [reflexivity|].
  destruct s as [|c s]; cbn; [reflexivity | now rewrite IH].
Qed.

Lemma prefix_take (n : nat) (s : string) : String.prefix (take n s) s = true.
Proof.
  revert s. induction n as [|n IH]; intros s; [destruct s; reflexivity|].
  destruct s as [|c s]; cbn; [reflexivity|].
  destruct (ascii_dec c c); [apply IH | contradiction].
Qed.

(** X26.  With a suffix no longer than [maxLength], [truncate] never
    returns more than [maxLength] code units: a text that fits is returned
    as it is, a longer one is cut to a prefix of it followed by the suffix,
    [maxLength] code units in all. *)
Theorem truncate_fits (text suffix : string) (maxLength : Z) :
  (Z.of_nat (String.length suffix) <= maxLength)%Z ->
  (Z.of_nat (String.length (truncate text maxLength suffix)) <= maxLength)%Z
  /\ ((Z.of_nat (String.length text) <= maxLength)%Z ->
      truncate text maxLength suffix = text)
  /\ ((maxLength < Z.of_nat (String.length text))%Z ->
      exists head,
        truncate text maxLength suffix = head +++ suffix
        /\ String.prefix head text = true
        /\ Z.of_nat (String.length (head +++ suffix)) = maxLength).
Proof.
  intros Hs. unfold truncate, substring0.
  destruct (Z.of_nat (String.length text) <=? maxLength)%Z eqn:E.
  - apply Z.leb_le in E. rewrite orb_true_r. repeat split; [assumption | lia].
  - apply Z.leb_gt in E. rewrite orb_false_r.
    destruct text as [|c text]; [cbn in E; lia|]. cbn [truthy is_empty negb].
    assert (L : Z.of_nat (String.length
                  (take (Z.to_nat (maxLength - Z.of_nat (String.length suffix)))
                        (String c text) +++ suffix)) = maxLength).
    { rewrite length_append_string, length_take. lia. }
    split; [lia|]. split; [lia|]. intros _.
    eexists. split; [reflexivity|]. split; [apply prefix_take | exact L].
Qed.

Lemma truncate_fits_witness :
  (Z.of_nat (String.length (truncate "Hello world" 8 "...")) <= 8)%Z
  /\ ((Z.of_nat (String.length "Hello world") <= 8)%Z ->
      truncate "Hello world" 8 "..." = "Hello world")
  /\ ((8 < Z.of_nat (String.length "Hello world"))%Z ->
      exists head,
        truncate "Hello world" 8 "..." = head +++ "..."
        /\ String.prefix head "Hello world" = true
        /\ Z.of_nat (String.length (head +++ "...")) = 8%Z).
Proof.
  apply (truncate_fits "Hello world" "..." 8). vm_compute. discriminate.
Defined.

(** ** Utilities: [cleanText] *)

Lemma occurs_collapse_blanks_other (c : ascii) (s : string) :
  Ascii.eqb SP c = false ->
  forall inside, occurs c s = false -> occurs c (collapse_blanks_from inside s) = false.
Proof.
  intros Hsp. induction s as [|d r IH]; intros inside H; [reflexivity|].
  cbn [occurs] in H. apply orb_false_iff in H. destruct H as [Hd Hr].
  cbn [collapse_blanks_from].
  destruct (Ascii.eqb d SP || Ascii.eqb d TAB); [destruct inside|];
    cbn [occurs]; rewrite ?Hsp, ?Hd; cbn [orb]; now apply IH.
Qed.

Lemma collapse_blanks_no_TAB (s : string) :
  forall inside, occurs TAB (collapse_blanks_from inside s) = false.
Proof.
  induction s as [|d r IH]; intros inside; [reflexivity|].
  cbn [collapse_blanks_from].
  destruct (Ascii.eqb d SP || Ascii.eqb d TAB) eqn:E; [destruct inside|];
    cbn [occurs]; rewrite ?IH; try reflexivity.
  apply orb_false_iff in E. destruct E as [_ E]. now rewrite E.
Qed.

Lemma split_lines_nonempty (s : string) : split_lines s <> [].
Proof.
  induction s as [|d r IH]; cbn; [discriminate|].
  destruct (Ascii.eqb d LF); [discriminate|].
  destruct (split_lines r); discriminate.
Qed.

Lemma occurs_split_lines (c : ascii) (s : string) :
  occurs c s = false -> Forall (fun line => occurs c line = false) (split_lines s).
Proof.
  induction s as [|d r IH]; intros H; [repeat constructor|].
  cbn [occurs] in H. apply orb_false_iff in H. destruct H as [Hd Hr].
  specialize (IH Hr). cbn [split_lines].
  destruct (Ascii.eqb d LF); [constructor; [reflexivity | assumption]|].
  destruct (split_lines r) as [|line lines]; [repeat constructor; cbn; now rewrite Hd|].
  inversion IH; subst. constructor; [cbn; now rewrite Hd | assumption].
Qed.

Lemma occurs_trimmed_lines (c : ascii) (s : string) :
  Ascii.eqb LF c = false ->
  occurs c s = false ->
  occurs c (join (String LF "") (map trim (split_lines s))) = false.
Proof.
  intros Hlf H. apply occurs_join; [cbn [occurs]; now rewrite Hlf|].
  apply Forall_map. eapply Forall_impl; [|apply (occurs_split_lines c s H)].
  cbv beta. intros line Hl. now apply occurs_trim.
Qed.

(** X27.  Whatever the text and the options, [cleanText] returns a text
    without carriage returns and without white space at either end; with
    the collapse of lines on, as by default, it has no three newlines in a
    row - also when the blank lines of the text end in carriage return and
    line feed, since the line endings are normalised first; with the
    normalisation of white space on, it has no tab. *)
Theorem cleanText_normal_form (text : string) (options : CleanOptions) :
  occurs CR (cleanText text options) = false
  /\ trim (cleanText text options) = cleanText text options
  /\ (opt_default (collapseLines options) true = true ->
      has_run LF 3 (cleanText text options) = false)
  /\ (opt_default (normalizeWhitespace options) true = true ->
      occurs TAB (cleanText text options) = false).
Proof.
  unfold cleanText. destruct (negb (truthy text)).
  { repeat split. }
  set (unix := replace_char CR (String LF "") (replace_crlf text)).
  assert (Hunix : occurs CR unix = false) by now apply replace_char_removes.
  set (spaced := if opt_default (normalizeWhitespace options) true
                 then join (String LF "") (map trim (split_lines (collapse_blanks unix)))
                 else unix).
  assert (Hspaced : occurs CR spaced = false).
  { unfold spaced. destruct (opt_default (normalizeWhitespace options) true);
      [|assumption].
    apply occurs_trimmed_lines; [reflexivity|].
    now apply occurs_collapse_blanks_other. }
  set (collapsed := if opt_default (collapseLines options) true
                    then replace_runs LF 3 (rep LF 2) spaced else spaced).
  assert (Hcollapsed : occurs CR collapsed = false).
  { unfold collapsed. destruct (opt_default (collapseLines options) true); [|assumption].
    unfold replace_runs. now rewrite occurs_replace_runs_from. }
  split; [now apply occurs_trim|]. split; [apply trim_idempotent|]. split.
  - intros Hc. unfold collapsed. rewrite Hc.
    apply has_run_trim; [lia|]. apply replace_runs_no_run; lia.
  - intros Hn. apply occurs_trim. unfold collapsed.
    assert (Ht : occurs TAB spaced = false).
    { unfold spaced. rewrite Hn. apply occurs_trimmed_lines; [reflexivity|].
      apply collapse_blanks_no_TAB. }
    destruct (opt_default (collapseLines options) true); [|assumption].
    unfold replace_runs. now rewrite occurs_replace_runs_from.
Qed.

(** The text of the page whose blank lines end in carriage return and
    line feed, as [cleanText] returns it. *)
Example cleanText_windows_line_breaks :
  cleanText ("a" +++ Sample.crlf +++ Sample.crlf +++ Sample.crlf +++ Sample.crlf +++ "b")
            {| normalizeWhitespace := None; collapseLines := None |}
  = "a" +++ rep LF 2 +++ "b".
Proof. vm_compute. reflexivity. Qed.

(** ** Utilities: [isValidImageSource] *)

(** X28.  An image element, canvas or [ImageData] that
    [isValidImageSource] accepts passes the checks of the adapter: it is
    handed to [preprocessImage], and its width and height as the
    preprocessing reads them are positive, so the scale is well
    defined. *)
Theorem valid_source_passes_adapter_checks (eng : Engine) (src : ImageSource)
    (preprocessOptions : PreprocessOptions) :
  isValidImageSource (Some src) = true ->
  (forall url, src <> SrcUrl url) ->
  preprocess_source eng src preprocessOptions
  = match preprocessImage (canvasImageData eng) src preprocessOptions with
    | Ok c => Ok c
    | Throw message => Throw ("Image preprocessing failed: " +++ message)
    end
  /\ exists sourceWidth sourceHeight,
       sourceDimensions src = Ok (sourceWidth, sourceHeight)
       /\ (0 < sourceWidth)%Q /\ (0 < sourceHeight)%Q.
Proof.
  intros Hv Hu. destruct src as [url|el|label cw ch|cw ch data|];
    cbn [isValidImageSource] in Hv; try discriminate.
  - now contradiction (Hu url).
  - apply andb_true_iff in Hv. destruct Hv as [Hv Hh].
    apply andb_true_iff in Hv. destruct Hv as [Hc Hw].
    unfold Qgtb in Hw, Hh. apply Qltb_true in Hw, Hh.
    assert (Ew : Qeq_bool (img_naturalWidth el) 0 = false).
    { destruct (Qeq_bool (img_naturalWidth el) 0) eqn:E; [|reflexivity].
      apply Qeq_bool_iff in E. lra. }
    assert (Eh : Qeq_bool (img_naturalHeight el) 0 = false).
    { destruct (Qeq_bool (img_naturalHeight el) 0) eqn:E; [|reflexivity].
      apply Qeq_bool_iff in E. lra. }
    split.
    + unfold preprocess_source. now rewrite Hc, Ew, Eh.
    + cbn [sourceDimensions]. rewrite Ew, Eh. eauto.
  - apply andb_true_iff in Hv. destruct Hv as [Hw Hh].
    unfold Qgtb in Hw, Hh. apply Qltb_true in Hw, Hh.
    assert (Ew : Qeq_bool cw 0 = false).
    { destruct (Qeq_bool cw 0) eqn:E; [|reflexivity]. apply Qeq_bool_iff in E. lra. }
    assert (Eh : Qeq_bool ch 0 = false).
    { destruct (Qeq_bool ch 0) eqn:E; [|reflexivity]. apply Qeq_bool_iff in E. lra. }
    split.
    + unfold preprocess_source. now rewrite Ew, Eh.
    + cbn [sourceDimensions]. eauto.
  - apply andb_true_iff in Hv. destruct Hv as [Hw Hh].
    unfold Qgtb in Hw, Hh. apply Qltb_true in Hw, Hh.
    assert (Ew : Qeq_bool cw 0 = false).
    { destruct (Qeq_bool cw 0) eqn:E; [|reflexivity]. apply Qeq_bool_iff in E. lra. }
    assert (Eh : Qeq_bool ch 0 = false).
    { destruct (Qeq_bool ch 0) eqn:E; [|reflexivity]. apply Qeq_bool_iff in E. lra. }
    split.
    + unfold preprocess_source. now rewrite Ew, Eh.
    + cbn [sourceDimensions]. eauto.
Qed.

Lemma valid_source_passes_adapter_checks_witness :
  preprocess_source Sample.engine_ABC (SrcImage Sample.img_A) no_options
  = match preprocessImage (canvasImageData Sample.engine_ABC) (SrcImage Sample.img_A)
            no_options with
    | Ok c => Ok c
    | Throw message => Throw ("Image preprocessing failed: " +++ message)
    end
  /\ exists sourceWidth sourceHeight,
       sourceDimensions (SrcImage Sample.img_A) = Ok (sourceWidth, sourceHeight)
       /\ (0 < sourceWidth)%Q /\ (0 < sourceHeight)%Q.
Proof.
  apply (valid_source_passes_adapter_checks Sample.engine_ABC (SrcImage Sample.img_A)
           no_options); [reflexivity | discriminate].
Defined.

(** ** The popup: where it is put *)

(** X29.  Where [positionPopup] puts the popup, 500 wide and 400 high.
    It goes right of the selection, 10 away, when it fits into the window
    there, else left of it, 10 away, when that is not off the left edge,
    else it is centred horizontally; it goes level with the top of the
    selection when it fits there, else above it, 10 away, when that is not
    off the top edge, else it is centred vertically.  In a window that has
    room for the popup, and for a selection that starts inside the window,
    the popup is then entirely on the screen. *)
Theorem popup_stays_on_screen (innerWidth innerHeight : Q) (position : SelectionData) :
  (popupWidth <= innerWidth)%Q ->
  (popupHeight <= innerHeight)%Q ->
  (0 <= viewportX position <= innerWidth)%Q ->
  (0 <= viewportY position <= innerHeight)%Q ->
  (0 <= viewportWidth position)%Q ->
  let '(popupLeft, popupTop) := positionPopup innerWidth innerHeight position in
  let vx := viewportX position in
  let vy := viewportY position in
  let vw := viewportWidth position in
  (* the popup is on the screen *)
  (0 <= popupLeft /\ popupLeft + popupWidth <= innerWidth
   /\ 0 <= popupTop /\ popupTop + popupHeight <= innerHeight)%Q
  (* right of the selection, else left of it, else centred *)
  /\ ((vx + vw + 10 + 500 <= innerWidth)%Q -> popupLeft = (vx + vw + 10)%Q)
  /\ ((innerWidth < vx + vw + 10 + 500)%Q -> (0 <= vx - 500 - 10)%Q ->
      popupLeft = (vx - 500 - 10)%Q)
  /\ ((innerWidth < vx + vw + 10 + 500)%Q -> (vx - 500 - 10 < 0)%Q ->
      popupLeft = ((innerWidth - 500) / 2)%Q)
  (* level with the selection, else above it, else centred *)
  /\ ((vy + 400 <= innerHeight)%Q -> popupTop = vy)
  /\ ((innerHeight < vy + 400)%Q -> (0 <= vy - 400 - 10)%Q ->
      popupTop = (vy - 400 - 10)%Q)
  /\ ((innerHeight < vy + 400)%Q -> (vy - 400 - 10 < 0)%Q ->
      popupTop = ((innerHeight - 400) / 2)%Q).
Proof.
  unfold positionPopup, popupWidth, popupHeight, Qgtb. intros Hw Hh Hx Hy Hvw.
  destruct (Qltb innerWidth (viewportX position + viewportWidth position + 10 + 500)) eqn:E1;
    [destruct (Qltb (viewportX position - 500 - 10) 0) eqn:E2|];
    (destruct (Qltb innerHeight (viewportY position + 400)) eqn:E3;
     [destruct (Qltb (viewportY position - 400 - 10) 0) eqn:E4|]);
    repeat match goal with
           | H : Qltb _ _ = true |- _ => apply Qltb_true in H
           | H : Qltb _ _ = false |- _ => apply Qltb_false in H
           end;
    cbv zeta;
    (split; [repeat split|
             repeat split; intros; try reflexivity; exfalso; lra]);
    try lra;
    try (apply Qle_shift_div_l; lra);
    try (setoid_replace ((innerWidth - 500) / 2)%Q
           with ((innerWidth - 500) * (1 # 2))%Q by reflexivity; lra);
    try (setoid_replace ((innerHeight - 400) / 2)%Q
           with ((innerHeight - 400) * (1 # 2))%Q by reflexivity; lra).
Qed.

Lemma popup_stays_on_screen_witness :
  let position := Sample.selection 900 500 200 100 in
  let '(popupLeft, popupTop) := positionPopup 1280 720 position in
  let vx := viewportX position in
  let vy := viewportY position in
  let vw := viewportWidth position in
  (0 <= popupLeft /\ popupLeft + popupWidth <= 1280
   /\ 0 <= popupTop /\ popupTop + popupHeight <= 720)%Q
  /\ ((vx + vw + 10 + 500 <= 1280)%Q -> popupLeft = (vx + vw + 10)%Q)
  /\ ((1280 < vx + vw + 10 + 500)%Q -> (0 <= vx - 500 - 10)%Q ->
      popupLeft = (vx - 500 - 10)%Q)
  /\ ((1280 < vx + vw + 10 + 500)%Q -> (vx - 500 - 10 < 0)%Q ->
      popupLeft = ((1280 - 500) / 2)%Q)
  /\ ((vy + 400 <= 720)%Q -> popupTop = vy)
  /\ ((720 < vy + 400)%Q -> (0 <= vy - 400 - 10)%Q ->
      popupTop = (vy - 400 - 10)%Q)
  /\ ((720 < vy + 400)%Q -> (vy - 400 - 10 < 0)%Q ->
      popupTop = ((720 - 400) / 2)%Q).
Proof.
  apply (popup_stays_on_screen 1280 720 (Sample.selection 900 500 200 100));
    vm_compute; try split; discriminate.
Defined.

(** The popup for a selection at the right edge and near the bottom of a
    window 1280 by 720: left of the selection and above it. *)
Example popup_left_and_above :
  let '(popupLeft, popupTop) := positionPopup 1280 720 (Sample.selection 900 500 200 100) in
  (Qred popupLeft, Qred popupTop) = (390%Q, 90%Q).
Proof. vm_compute. reflexivity. Qed.

(** ** The aggregator: the capture of the selection *)

Lemma extractImagesForOCR_split (env : Env) (sel : SelectionData) :
  exists kept canvas,
    extractImagesForOCR env sel
    = kept ++ [ {| image := Some canvas; entry_src := None |} ]
    /\ List.length kept <= List.length (detectImagesInSelection (page env) sel).
Proof.
  destruct (kept_images env (detectImagesInSelection (page env) sel)) as (Hl & _).
  unfold extractImagesForOCR, captureAreaWithCanvas, captureSelectionAsImage.
  destruct (html2canvas env) as [[c|e]|]; eexists; eexists; (split; [reflexivity | exact Hl]).
Qed.

Lemma attempt_of_src (e : ImageEntry) (o : result OcrResult) :
  att_src (attempt_of e o) = entry_label e.
Proof. destruct o as [r|m]; cbn; [destruct (has_text r)|]; reflexivity. Qed.

(** X30.  When the selection holds a candidate image and the adapter and
    the engine are or get loaded, [images] has one entry per image handed
    to the recognition, and the last entry is always the capture of the
    selection itself, labelled ['selection-area']: it is attempted also
    when no candidate image could be loaded. *)
Theorem selection_capture_is_always_attempted (env : Env) (sel : SelectionData)
    (w : Window) :
  detectImagesInSelection (page env) sel <> [] ->
  OCRProcessor w <> None \/ ocrScript env = ScriptLoads true ->
  Tesseract w = true \/ cdn (engine env) = ScriptLoads true ->
  exists r w' attempts last,
    extractTextFromSelection env sel w = (Ok r, w')
    /\ images r = attempts ++ [last]
    /\ att_src last = "selection-area"
    /\ List.length attempts <= List.length (detectImagesInSelection (page env) sel)
    /\ List.length (images r) = List.length (extractImagesForOCR env sel).
Proof.
  intros Hd Hp Ht.
  unfold extractTextFromSelection, try_catch, extract_body.
  unfold bind at 1. unfold set_selectableText, update_results, modify.
  cbv beta iota.
  set (s1 := {| results := _; window := _ |}).
  destruct (ocr_stage_run env sel s1 Hd Hp Ht) as (s2 & Hs & Him & _).
  cbn [s1 window results images empty_results app] in Him.
  unfold bind at 1. rewrite Hs.
  destruct (merge_stage_run s2) as (s3 & Hm & _ & Him3 & _).
  rewrite Hm. rewrite Him in Him3.
  destruct (extractImagesForOCR_split env sel) as (kept & canvas & Hk & Hl).
  set (w1 := snd (initialize (engine env) None (window_with_processor w))) in *.
  exists (results s3), (window s3),
         (map (fun e => attempt_of e (ocr_alone env w1 e)) kept),
         (attempt_of {| image := Some canvas; entry_src := None |}
            (ocr_alone env w1 {| image := Some canvas; entry_src := None |})).
  split; [reflexivity|]. rewrite Him3. split; [|split; [|split]].
  - rewrite Hk, map_app. reflexivity.
  - apply attempt_of_src.
  - now rewrite length_map.
  - now rewrite length_map.
Qed.

Lemma selection_capture_is_always_attempted_witness :
  let env := Sample.env_three_images in
  let sel := Sample.selection 0 0 300 250 in
  let w := Sample.fresh_window in
  exists r w' attempts last,
    extractTextFromSelection env sel w = (Ok r, w')
    /\ images r = attempts ++ [last]
    /\ att_src last = "selection-area"
    /\ List.length attempts <= List.length (detectImagesInSelection (page env) sel)
    /\ List.length (images r) = List.length (extractImagesForOCR env sel).
Proof.
  intros env sel w.
  apply (selection_capture_is_always_attempted env sel w);
    [discriminate | right; reflexivity | right; reflexivity].
Defined.
